(** * Vintedchecker: the listing scraper and the model-reply parser

    A shallow embedding of the serverless function behind [/api/analyze]
    (its Gemini and its Groq variant) and the properties of its two stages:
    extraction of listing fields from HTML, and parsing of the model's
    free-text reply into a rating and an assessment. The environment test
    endpoint and the script of the page that calls the function follow.

    JavaScript strings are sequences of UTF-16 code units; regular
    expressions are run by a backtracking matcher that follows the order of
    alternatives of the ECMAScript one. *)

From Stdlib Require Import String Ascii.
From Stdlib Require Import List NArith ZArith Lia Bool PrimFloat DecimalString.

#[global] Set Warnings "-register-all".
Import ListNotations.

Set Implicit Arguments.

(* ================================================================= *)
(** * Strings *)

(** A JavaScript string: its UTF-16 code units. *)
Definition jsstring := list N.

(** An ASCII literal as a JavaScript string. *)
Definition str (s : string) : jsstring :=
  map N_of_ascii (list_ascii_of_string s).

(** As [str], with each backquote of the literal standing for the double
    quote U+0022 (HTML and JSON literals are full of them). *)
Definition strq (s : string) : jsstring :=
  map (fun c => if N.eqb c 96 then 34%N else c) (str s).

Definition jsstring_eqb (a b : jsstring) : bool :=
  if list_eq_dec N.eq_dec a b then true else false.

(** [\s], which is also what [trim] removes: WhiteSpace and LineTerminator
    of the language specification. *)
Definition is_space (c : N) : bool :=
  ((9 <=? c) && (c <=? 13) || (c =? 32) || (c =? 160) || (c =? 5760)
   || (8192 <=? c) && (c <=? 8202) || (c =? 8232) || (c =? 8233)
   || (c =? 8239) || (c =? 8287) || (c =? 12288) || (c =? 65279))%N.

(** [\d] (without the [u] flag: the ten ASCII digits). *)
Definition is_digit (c : N) : bool := ((48 <=? c) && (c <=? 57))%N.

(** [[\s\S]]: any code unit. *)
Definition any_char (c : N) : bool := true.

(** Skip the longest prefix of characters in class [p]. *)
Fixpoint skip_while (p : N -> bool) (s : jsstring) : jsstring :=
  match s with
  | c :: s' => if p c then skip_while p s' else s
  | [] => []
  end.

Definition trimStart (s : jsstring) : jsstring := skip_while is_space s.
Definition trimEnd (s : jsstring) : jsstring := rev (skip_while is_space (rev s)).

(** [String.prototype.trim]. *)
Definition trim (s : jsstring) : jsstring := trimEnd (trimStart s).

(** [s.startsWith(p)], returning what follows the prefix. *)
Fixpoint strip_prefix (p s : jsstring) : option jsstring :=
  match p, s with
  | [], _ => Some s
  | a :: p', c :: s' => if N.eqb a c then strip_prefix p' s' else None
  | _ :: _, [] => None
  end.

(** [s.replace(pat, by)] for a string pattern: the first occurrence only. *)
Fixpoint replace_string (pat by_ s : jsstring) : jsstring :=
  match strip_prefix pat s with
  | Some rest => by_ ++ rest
  | None => match s with
            | c :: s' => c :: replace_string pat by_ s'
            | [] => []
            end
  end.

(* ================================================================= *)
(** * Regular expressions *)

(** The fragment of the regular-expression syntax the program uses:
    quantifiers apply to one-character atoms ([\s*], [\d+], [[\s\S]*?]) or,
    for [?], to a group. *)
Inductive regex : Type :=
| Eps                          (* the empty pattern *)
| Chr (c : N)                  (* a pattern character *)
| Cls (p : N -> bool)          (* a character class *)
| Bol                          (* ^ (no m flag: start of input) *)
| Seq (r1 r2 : regex)
| Star (p : N -> bool)         (* x*  greedy *)
| StarLazy (p : N -> bool)     (* x*? *)
| Opt (r : regex)              (* (?:r)? greedy *)
| Grp (r : regex).             (* ( r ), capturing *)

(** [x+] is one [x], then [x*]. *)
Definition Plus (p : N -> bool) : regex := Seq (Cls p) (Star p).

(** A literal piece of a pattern, character by character. *)
Fixpoint lit (s : jsstring) : regex :=
  match s with
  | [] => Eps
  | c :: s' => Seq (Chr c) (lit s')
  end.

(** Canonicalize of the [i] flag (no [u] flag), on what it can change when
    compared with an ASCII pattern character: the lower-case ASCII letters.
    A code unit of 128 or more never canonicalizes to an ASCII one, so it
    stays different from every ASCII pattern character either way. *)
Definition canonicalize (c : N) : N :=
  if ((97 <=? c) && (c <=? 122))%N then (c - 32)%N else c.

Definition chr_eqb (ignoreCase : bool) (a c : N) : bool :=
  if ignoreCase then N.eqb (canonicalize a) (canonicalize c) else N.eqb a c.
Arguments chr_eqb : simpl never.

Section Matcher.

  (** What a successful match leaves: the rest of the input and the
      captures closed so far, in order. *)
Definition mres : Type := jsstring * list jsstring.
Definition mcont : Type := jsstring -> list jsstring -> option mres.

  (** [x*]: take one more [x] first, fall back to stopping here. *)
Fixpoint star_greedy (p : N -> bool) (s : jsstring) (caps : list jsstring)
           (k : mcont) : option mres :=
    match s with
    | c :: s' =>
        if p c then
          match star_greedy p s' caps k with
          | Some r => Some r
          | None => k s caps
          end
        else k s caps
    | [] => k s caps
    end.

  (** [x*?]: stop here first, fall back to taking one more [x]. *)
Fixpoint star_lazy (p : N -> bool) (s : jsstring) (caps : list jsstring)
           (k : mcont) : option mres :=
    match k s caps with
    | Some r => Some r
    | None =>
        match s with
        | c :: s' => if p c then star_lazy p s' caps k else None
        | [] => None
        end
    end.

Variable ignoreCase : bool.
  (** The whole input, for [^]. *)
Variable input : jsstring.

  (** The matcher in continuation-passing style: [k] is the rest of the
      pattern, and a [None] from it makes the current atom backtrack. *)
Fixpoint rmatch (r : regex) (s : jsstring) (caps : list jsstring)
           (k : mcont) : option mres :=
    match r with
    | Eps => k s caps
    | Chr a =>
        match s with
        | c :: s' => if chr_eqb ignoreCase a c then k s' caps else None
        | [] => None
        end
    | Cls p =>
        match s with
        | c :: s' => if p c then k s' caps else None
        | [] => None
        end
    | Bol => if Nat.eqb (length s) (length input) then k s caps else None
    | Seq r1 r2 => rmatch r1 s caps (fun s' caps' => rmatch r2 s' caps' k)
    | Star p => star_greedy p s caps k
    | StarLazy p => star_lazy p s caps k
    | Opt r' =>
        match rmatch r' s caps k with
        | Some res => Some res
        | None => k s caps
        end
    | Grp r' =>
        rmatch r' s caps
          (fun s' caps' =>
             k s' (caps' ++ [firstn (length s - length s') s]))
    end.

  (** The pattern tried at one position: [s] is the input from there on. *)
Definition match_here (r : regex) (s : jsstring) : option mres :=
    rmatch r s [] (fun s' caps' => Some (s', caps')).

End Matcher.

(** The result of [RegExp.prototype.exec]: the input is
    [before ++ matched ++ after], [groups] are the captures 1, 2, ... *)
Record MatchResult : Type := mkMatch {
  before : jsstring;
  matched : jsstring;
  groups : list jsstring;
  after : jsstring
}.

(** Positions are tried from left to right, the end of the input included. *)
Fixpoint search (ic : bool) (input : jsstring) (r : regex) (s : jsstring)
  : option MatchResult :=
  match match_here ic input r s with
  | Some (s', caps) =>
      Some (mkMatch [] (firstn (length s - length s') s) caps s')
  | None =>
      match s with
      | c :: t =>
          match search ic input r t with
          | Some m => Some (mkMatch (c :: before m) (matched m) (groups m) (after m))
          | None => None
          end
      | [] => None
      end
  end.

(** A regular-expression literal with its flags. *)
Record RegExp : Type := mkRegExp {
  source : regex;
  flag_i : bool;
  flag_g : bool
}.

Definition exec (re : RegExp) (s : jsstring) : option MatchResult :=
  search (flag_i re) s (source re) s.

(** [match[n]] for n >= 1. *)
Definition group (n : nat) (m : MatchResult) : jsstring :=
  nth (n - 1) (groups m) [].

(** [s.replace(re, '')] for a pattern without the [g] flag: the first match
    is cut out. *)
Definition replace_first_empty (re : RegExp) (s : jsstring) : jsstring :=
  match exec re s with
  | Some m => before m ++ after m
  | None => s
  end.

(** All matches of a [g] pattern, left to right, each search resuming where
    the previous match ended (one further after an empty match). *)
Fixpoint match_all_from (fuel : nat) (ic : bool) (input : jsstring)
         (r : regex) (s : jsstring) : list jsstring :=
  match fuel with
  | O => []
  | S fuel' =>
      match search ic input r s with
      | None => []
      | Some m =>
          matched m ::
          match matched m, after m with
          | [], [] => []
          | [], _ :: rest => match_all_from fuel' ic input r rest
          | _ :: _, rest => match_all_from fuel' ic input r rest
          end
      end
  end.

(** [s.match(re)] for a pattern with the [g] flag: [null] when nothing
    matches, else the array of the matched substrings. *)
Definition match_global (re : RegExp) (s : jsstring) : option (list jsstring) :=
  match match_all_from (S (length s)) (flag_i re) s (source re) s with
  | [] => None
  | l => Some l
  end.

(* ================================================================= *)
(** * Numbers of the reply parser *)

(** The numbers the parser computes with: integers, or [NaN] when [parseInt]
    finds no digit. *)
Inductive jsnum : Type :=
| Int (z : Z)
| NaN.

Definition digit_value (c : N) : Z := (Z.of_N c - 48)%Z.

(** The value of a hexadecimal digit, if [c] is one. *)
Definition hex_value (c : N) : option Z :=
  if is_digit c then Some (Z.of_N c - 48)%Z
  else if ((65 <=? c) && (c <=? 70))%N then Some (Z.of_N c - 55)%Z
  else if ((97 <=? c) && (c <=? 102))%N then Some (Z.of_N c - 87)%Z
  else None.

(** The longest prefix of digits of the radix, read as a number; [None] when
    it is empty. *)
Fixpoint read_digits (radix : Z) (digit : N -> option Z) (acc : option Z)
         (s : jsstring) : option Z :=
  match s with
  | c :: s' =>
      match digit c with
      | Some d =>
          read_digits radix digit
            (Some (match acc with Some a => a * radix + d | None => d end)%Z) s'
      | None => acc
      end
  | [] => acc
  end.

Definition dec_value (c : N) : option Z :=
  if is_digit c then Some (digit_value c) else None.

(** [parseInt(s)] with no radix argument: leading white space, a sign, an
    optional [0x] prefix, then digits. *)
Definition parseInt (s : jsstring) : jsnum :=
  let s := trimStart s in
  let '(neg, s) :=
    match s with
    | 45%N :: s' => (true, s')
    | 43%N :: s' => (false, s')
    | _ => (false, s)
    end in
  let magnitude :=
    match s with
    | 48%N :: 120%N :: s' => read_digits 16%Z hex_value None s'
    | 48%N :: 88%N :: s' => read_digits 16%Z hex_value None s'
    | _ => read_digits 10%Z dec_value None s
    end in
  match magnitude with
  | Some z => Int (if neg then - z else z)%Z
  | None => NaN
  end.

(** [Math.max] and [Math.min] of two arguments: [NaN] if either is. *)
Definition Math_max (a b : jsnum) : jsnum :=
  match a, b with
  | Int x, Int y => Int (Z.max x y)
  | _, _ => NaN
  end.

Definition Math_min (a b : jsnum) : jsnum :=
  match a, b with
  | Int x, Int y => Int (Z.min x y)
  | _, _ => NaN
  end.

(* ================================================================= *)
(** * The reply parser *)

(** [/RATING:\s*(\d)/i] *)
Definition re_rating : RegExp :=
  mkRegExp (Seq (lit (str "RATING:")) (Seq (Star is_space) (Grp (Cls is_digit))))
           true false.

(** [/ASSESSMENT:\s*([\s\S]+)/i] *)
Definition re_assessment : RegExp :=
  mkRegExp (Seq (lit (str "ASSESSMENT:")) (Seq (Star is_space) (Grp (Plus any_char))))
           true false.

(** [/RATING:\s*\d/i] *)
Definition re_rating_strip : RegExp :=
  mkRegExp (Seq (lit (str "RATING:")) (Seq (Star is_space) (Cls is_digit)))
           true false.

(** [[-:]] *)
Definition is_dash_or_colon (c : N) : bool := ((c =? 45) || (c =? 58))%N.

(** [/^\s*[-:]\s*/] *)
Definition re_cleanup : RegExp :=
  mkRegExp (Seq Bol (Seq (Star is_space) (Seq (Cls is_dash_or_colon) (Star is_space))))
           false false.

Record AnalysisResult : Type := mkAnalysis {
  rating : jsnum;
  assessment : jsstring
}.

(** [parseAIResponse] of the Groq variant. *)
Definition parseAIResponse (text : jsstring) : AnalysisResult :=
  (* Extract rating *)
  let ratingMatch := exec re_rating text in
  let rating :=
    match ratingMatch with
    | Some m => parseInt (group 1 m)
    | None => Int 3
    end in
  (* Extract assessment *)
  let assessmentMatch := exec re_assessment text in
  let assessment :=
    match assessmentMatch with
    | Some m => trim (group 1 m)
    | None => trim (replace_first_empty re_rating_strip text)
    end in
  (* Clean up assessment *)
  let assessment := replace_first_empty re_cleanup assessment in
  mkAnalysis (Math_min (Int 5) (Math_max (Int 1) rating)) assessment.

(** [parseGeminiResponse] of the Gemini variant: the same text. *)
Definition parseGeminiResponse (text : jsstring) : AnalysisResult :=
  let ratingMatch := exec re_rating text in
  let rating :=
    match ratingMatch with
    | Some m => parseInt (group 1 m)
    | None => Int 3
    end in
  let assessmentMatch := exec re_assessment text in
  let assessment :=
    match assessmentMatch with
    | Some m => trim (group 1 m)
    | None => trim (replace_first_empty re_rating_strip text)
    end in
  let assessment := replace_first_empty re_cleanup assessment in
  mkAnalysis (Math_min (Int 5) (Math_max (Int 1) rating)) assessment.

(* ================================================================= *)
(** * Values, exceptions and the runtime *)

(** What [JSON.parse] can return, and [undefined]. An object is its own
    properties; none of the property names the program reads ([name],
    [brand], [offers], ...) exists on a prototype. *)
Inductive value : Type :=
| VUndefined
| VNull
| VBool (b : bool)
| VNum (x : float)
| VStr (s : jsstring)
| VArr (items : list value)
| VObj (fields : list (jsstring * value)).

(** An exception: [new Error(message)] of the program, or a [TypeError] or
    [SyntaxError] of the engine (their messages are V8's). *)
Inductive exn : Type :=
| Error (message : jsstring)
| TypeError (message : jsstring)
| SyntaxError (message : jsstring).

Definition message (e : exn) : jsstring :=
  match e with
  | Error m | TypeError m | SyntaxError m => m
  end.

(** A computation that returns or throws. *)
Inductive outcome (A : Type) : Type :=
| Return (a : A)
| Throw (e : exn).
Arguments Return {A} a.
Arguments Throw {A} e.

Definition bind {A B : Type} (m : outcome A) (f : A -> outcome B) : outcome B :=
  match m with
  | Return a => f a
  | Throw e => Throw e
  end.

(** ToBoolean. *)
Definition truthy (v : value) : bool :=
  match v with
  | VUndefined | VNull => false
  | VBool b => b
  | VNum x => negb (PrimFloat.eqb x 0 || negb (PrimFloat.eqb x x))
  | VStr s => match s with [] => false | _ => true end
  | VArr _ | VObj _ => true
  end.

(** [a || b]. *)
Definition or_else (a b : value) : value := if truthy a then a else b.

Fixpoint own (fields : list (jsstring * value)) (k : jsstring) : value :=
  match fields with
  | (k', v) :: rest => if jsstring_eqb k' k then v else own rest k
  | [] => VUndefined
  end.

(** [v.k] for a property name: a [TypeError] on [undefined] and [null]. *)
Definition member (v : value) (k : jsstring) : outcome value :=
  match v with
  | VUndefined =>
      Throw (TypeError (str "Cannot read properties of undefined (reading '"
                        ++ k ++ str "')"))
  | VNull =>
      Throw (TypeError (str "Cannot read properties of null (reading '"
                        ++ k ++ str "')"))
  | VObj fields => Return (own fields k)
  | _ => Return VUndefined
  end.

(** [v?.k] for a property name. *)
Definition opt_member (v : value) (k : jsstring) : value :=
  match v with
  | VObj fields => own fields k
  | _ => VUndefined
  end.

(** [v?.[0]]. *)
Definition opt_first (v : value) : value :=
  match v with
  | VObj fields => own fields (str "0")
  | VArr (x :: _) => x
  | VStr (c :: _) => VStr [c]
  | _ => VUndefined
  end.

(** An HTTP request the function sends: [payload] is the object given to
    [JSON.stringify] for the body. *)
Record Request : Type := mkRequest {
  verb : jsstring;
  target : value;
  headers : list (jsstring * jsstring);
  payload : option value
}.

(** What [fetch] resolves to. *)
Record Response : Type := mkResponse {
  ok : bool;
  status : N;
  text : jsstring
}.

(** The built-ins the program calls and this development does not define:
    [JSON.parse] ([None] for a SyntaxError), the conversion of a number to a
    string, base64 encoding of a downloaded body, and the network. *)
Record Runtime : Type := mkRuntime {
  JSON_parse : jsstring -> option value;
  Number_toString : float -> jsstring;
  base64 : jsstring -> jsstring;
  fetch : Request -> outcome Response
}.

(** [process.env]. *)
Record Env : Type := mkEnv {
  GEMINI_API_KEY : option jsstring;
  GROQ_API_KEY : option jsstring
}.

(** ToString, as a template literal applies it. An object with an own
    [toString] property (never callable in parsed JSON) has no primitive
    value. *)
Fixpoint ToString (rt : Runtime) (v : value) : outcome jsstring :=
  match v with
  | VUndefined => Return (str "undefined")
  | VNull => Return (str "null")
  | VBool true => Return (str "true")
  | VBool false => Return (str "false")
  | VNum x => Return (Number_toString rt x)
  | VStr s => Return s
  | VArr items =>
      (fix join (l : list value) : outcome jsstring :=
         let element (x : value) : outcome jsstring :=
           match x with
           | VUndefined | VNull => Return []
           | _ => ToString rt x
           end in
         match l with
         | [] => Return []
         | [x] => element x
         | x :: l' =>
             bind (element x) (fun a =>
             bind (join l') (fun b => Return (a ++ str "," ++ b)))
         end) items
  | VObj fields =>
      match own fields (str "toString") with
      | VUndefined => Return (str "[object Object]")
      | _ => Throw (TypeError (str "Cannot convert object to primitive value"))
      end
  end.

(** The decimal digits of a status code. *)
Definition N_toString (n : N) : jsstring :=
  str (DecimalString.NilEmpty.string_of_uint (N.to_uint n)).

(** The function's effects: the requests it sent, in order, and how it
    ended. [console.error] is not recorded. *)
Definition io (A : Type) : Type := (list Request * outcome A)%type.

Definition io_pure {A : Type} (o : outcome A) : io A := ([], o).

Definition io_bind {A B : Type} (m : io A) (f : A -> io B) : io B :=
  match m with
  | (t, Return a) => let '(t', r) := f a in (t ++ t', r)
  | (t, Throw e) => (t, Throw e)
  end.

(** [try { m } catch (e) { h e }]. *)
Definition io_catch {A : Type} (m : io A) (h : exn -> io A) : io A :=
  match m with
  | (t, Throw e) => let '(t', r) := h e in (t ++ t', r)
  | (t, Return a) => (t, Return a)
  end.

(** [await fetch(...)]. *)
Definition await_fetch (rt : Runtime) (rq : Request) : io Response :=
  ([rq], fetch rt rq).

Declare Scope io_scope.
Delimit Scope io_scope with io.
Notation "x <- m ;; k" := (io_bind m (fun x => k))
  (at level 61, m at next level, right associativity) : io_scope.
Notation "x <~ m ;; k" := (bind m (fun x => k))
  (at level 61, m at next level, right associativity) : io_scope.

(* ================================================================= *)
(** * Field extraction *)

(** The class of every code unit but the double quote U+0022. *)
Definition not_quote (c : N) : bool := negb (c =? 34)%N.

(** The class of the image pattern: no double quote, no apostrophe, no
    white space. *)
Definition image_url_char (c : N) : bool :=
  negb ((c =? 34) || (c =? 39))%N && negb (is_space c).

(** The patterns of the extractors. In these comments, as in [strq], a
    backquote stands for the double quote of the source.

    [/<script type=`application\/ld\+json`>([\s\S]*?)<\/script>/] *)
Definition re_json_ld : RegExp :=
  mkRegExp (Seq (lit (strq "<script type=`application/ld+json`>"))
                (Seq (Grp (StarLazy any_char)) (lit (str "</script>"))))
           false false.

(** [/<meta property=`og:title` content=`([^`]+)`/] *)
Definition re_og_title : RegExp :=
  mkRegExp (Seq (lit (strq "<meta property=`og:title` content=`"))
                (Seq (Grp (Plus not_quote)) (Chr 34)))
           false false.

(** [/`brand`:\s*{\s*`name`:\s*`([^`]+)`/] *)
Definition re_brand : RegExp :=
  mkRegExp (Seq (lit (strq "`brand`:"))
           (Seq (Star is_space)
           (Seq (Chr 123)
           (Seq (Star is_space)
           (Seq (lit (strq "`name`:"))
           (Seq (Star is_space)
           (Seq (Chr 34)
           (Seq (Grp (Plus not_quote)) (Chr 34)))))))))
           false false.

(** [/`price`:\s*`?(\d+(?:\.\d+)?)`?/] *)
Definition re_price : RegExp :=
  mkRegExp (Seq (lit (strq "`price`:"))
           (Seq (Star is_space)
           (Seq (Opt (Chr 34))
           (Seq (Grp (Seq (Plus is_digit) (Opt (Seq (Chr 46) (Plus is_digit)))))
                (Opt (Chr 34))))))
           false false.

(** [/<meta property=`og:description` content=`([^`]+)`/] *)
Definition re_og_description : RegExp :=
  mkRegExp (Seq (lit (strq "<meta property=`og:description` content=`"))
                (Seq (Grp (Plus not_quote)) (Chr 34)))
           false false.

(** [/https:\/\/images1\.vinted\.net\/t\/[^`'\s]+/g] *)
Definition re_image : RegExp :=
  mkRegExp (Seq (lit (str "https://images1.vinted.net/t/")) (Plus image_url_char))
           false true.

(** The euro sign, U+20AC. *)
Definition euro : jsstring := [8364%N].

Definition is_string (v : value) (s : jsstring) : bool :=
  match v with
  | VStr s' => jsstring_eqb s' s
  | _ => false
  end.

Definition extractTitle (html : jsstring) (jsonLd : value) : value :=
  if truthy (opt_member jsonLd (str "name")) then opt_member jsonLd (str "name")
  else
    match exec re_og_title html with
    | Some m => VStr (group 1 m)
    | None => VNull
    end.

Definition extractBrand (html : jsstring) (jsonLd : value) : value :=
  if truthy (opt_member (opt_member jsonLd (str "brand")) (str "name"))
  then opt_member (opt_member jsonLd (str "brand")) (str "name")
  else
    match exec re_brand html with
    | Some m => VStr (group 1 m)
    | None => VNull
    end.

Definition extractPrice (rt : Runtime) (html : jsstring) (jsonLd : value)
  : outcome value :=
  let offers := opt_member jsonLd (str "offers") in
  if truthy (opt_member offers (str "price")) then
    let currency := or_else (opt_member offers (str "priceCurrency")) (VStr euro) in
    bind (ToString rt (if is_string currency (str "EUR") then VStr euro else currency))
      (fun c =>
    bind (ToString rt (opt_member offers (str "price")))
      (fun p => Return (VStr (c ++ p))))
  else
    match exec re_price html with
    | Some m => Return (VStr (euro ++ group 1 m))
    | None => Return VNull
    end.

Definition extractDescription (html : jsstring) (jsonLd : value) : value :=
  if truthy (opt_member jsonLd (str "description"))
  then opt_member jsonLd (str "description")
  else
    match exec re_og_description html with
    | Some m => VStr (group 1 m)
    | None => VNull
    end.

Definition extractCondition (html : jsstring) (jsonLd : value) : outcome value :=
  if truthy (opt_member jsonLd (str "itemCondition")) then
    match opt_member jsonLd (str "itemCondition") with
    | VStr s => Return (VStr (replace_string (str "https://schema.org/") [] s))
    | _ => Throw (TypeError (str "jsonLd.itemCondition.replace is not a function"))
    end
  else Return VNull.

(** [new Set(...)], one [add] at a time: a value already in the set is not
    added again, a new one goes last. *)
Definition Set_add (set : list jsstring) (x : jsstring) : list jsstring :=
  if existsb (jsstring_eqb x) set then set else set ++ [x].

Definition Set_from (l : list jsstring) : list jsstring :=
  fold_left Set_add l [].

Definition extractImages (html : jsstring) : list jsstring :=
  let images := [] in
  let matches := match_global re_image html in
  match matches with
  | Some matches =>
      (* Deduplicate and get first 5 *)
      let unique := Set_from matches in
      images ++ firstn 5 unique
  | None => images
  end.

(* ================================================================= *)
(** * Fetching the listing *)

Record ListingData : Type := mkListing {
  title : value;
  brand : value;
  price : value;
  description : value;
  condition : value;
  images : list jsstring;
  url : value
}.

Definition browser_headers : list (jsstring * jsstring) :=
  [ (str "User-Agent",
     str "Mozilla/5.0 (Macintosh; Intel Mac OS X 10_15_7) AppleWebKit/537.36 (KHTML, like Gecko) Chrome/120.0.0.0 Safari/537.36");
    (str "Accept",
     str "text/html,application/xhtml+xml,application/xml;q=0.9,image/webp,*/*;q=0.8");
    (str "Accept-Language", str "en-US,en;q=0.5") ].

(** The object literal [data] of [fetchVintedListing]: its fields are
    evaluated in order, and the first extractor that throws ends it. *)
Definition extract_data (rt : Runtime) (html : jsstring) (jsonLdData : value)
           (url : value) : outcome ListingData :=
  (let title := extractTitle html jsonLdData in
   let brand := extractBrand html jsonLdData in
   price <~ extractPrice rt html jsonLdData ;;
   let description := extractDescription html jsonLdData in
   condition <~ extractCondition html jsonLdData ;;
   Return (mkListing title brand price description condition
                     (extractImages html) url))%io.

(** The structured-data block of the page: [null] when the page has none or
    [JSON.parse] rejects it. *)
Definition json_ld_of (rt : Runtime) (html : jsstring) : value :=
  let jsonLdMatch := exec re_json_ld html in
  match jsonLdMatch with
  | Some m =>
      match JSON_parse rt (group 1 m) with
      | Some v => v
      | None => VNull            (* caught and logged *)
      end
  | None => VNull
  end.

(** [fetchVintedListing], the same text in both variants. *)
Definition fetchVintedListing (rt : Runtime) (url : value) : io ListingData :=
  (response <- await_fetch rt (mkRequest (str "GET") url browser_headers None) ;;
   if negb (ok response) then
     io_pure (Throw (Error (str "Failed to fetch Vinted listing")))
   else
     let html := text response in
     (* Extract JSON-LD data *)
     let jsonLdData := json_ld_of rt html in
     (* Extract from JSON-LD or fallback to regex patterns *)
     data <- io_pure (extract_data rt html jsonLdData url) ;;
     if negb (truthy (title data)) && negb (truthy (price data)) then
       io_pure (Throw (Error (str
         "Could not extract listing data. The listing may be unavailable.")))
     else io_pure (Return data))%io.

(* ================================================================= *)
(** * The request handler *)

(** The incoming request, as far as the handler reads it. *)
Record HttpRequest : Type := mkHttpRequest {
  method : jsstring;
  body : value
}.

(** The object given to [res.json]. *)
Inductive ApiBody : Type :=
| ErrorBody (error : jsstring)
| ResultBody (rating : jsnum) (assessment : jsstring)
             (item_title item_brand item_price item_image : value).

Record HttpResponse : Type := mkHttpResponse {
  code : N;
  json : ApiBody
}.

(** [const { url } = req.body]. *)
Definition destructure_url (body : value) : outcome value :=
  match body with
  | VUndefined =>
      Throw (TypeError (str
        "Cannot destructure property 'url' of 'req.body' as it is undefined."))
  | VNull =>
      Throw (TypeError (str
        "Cannot destructure property 'url' of 'req.body' as it is null."))
  | _ => Return (opt_member body (str "url"))
  end.

(** [listingData.images[0] || null]. *)
Definition first_image (listing : ListingData) : value :=
  match images listing with
  | x :: _ => or_else (VStr x) VNull
  | [] => VNull
  end.

(** The [catch] of the handler. *)
Definition respond_500 (e : exn) : io HttpResponse :=
  io_pure (Return (mkHttpResponse 500
    (ErrorBody (match message e with
                | [] => str "Failed to analyze listing"
                | m => m
                end)))).

(** The reply of the model, once read out of the provider's JSON. *)
Definition parse_reply (parse : jsstring -> AnalysisResult) (text : value)
  : outcome AnalysisResult :=
  if negb (truthy text) then Throw (Error (str "No analysis generated"))
  else
    match text with
    | VStr s => Return (parse s)
    | _ => Throw (TypeError (str "text.match is not a function"))
    end.

(** [await response.json()]. The engine's SyntaxError quotes the offending
    token and the body; only the kind of the exception is kept here, with a
    fixed text. *)
Definition response_json (rt : Runtime) (response : Response) : outcome value :=
  match JSON_parse rt (text response) with
  | Some v => Return v
  | None => Throw (SyntaxError (str "Unexpected token in JSON"))
  end.

Definition content_type_json : jsstring * jsstring :=
  (str "Content-Type", str "application/json").

(** ** The Gemini variant *)
Module Gemini.

Definition GEMINI_API_URL : jsstring :=
    str "https://generativelanguage.googleapis.com/v1beta/models/gemini-2.0-flash:generateContent".

Definition buildPrompt (rt : Runtime) (listing : ListingData) : outcome jsstring :=
  (
   title_ <~ ToString rt (or_else (title listing) (VStr (str "Unknown"))) ;;
   brand_ <~ ToString rt (or_else (brand listing) (VStr (str "Unknown"))) ;;
   price_ <~ ToString rt (or_else (price listing) (VStr (str "Unknown"))) ;;
   description_ <~ ToString rt (or_else (description listing) (VStr (str "No description"))) ;;
   condition_ <~ ToString rt (or_else (condition listing) (VStr (str "Unknown"))) ;;
   Return
    (str "You are an expert at evaluating secondhand clothing deals, particularly on platforms like Vinted.

Analyze this listing and provide:
1. A RATING from 1-5:
   - 5 = Absolute steal (way below market value)
   - 4 = Great deal (notably below market value)
   - 3 = Fair price (normal market value)
   - 2 = Slightly overpriced
   - 1 = Overpriced/poor value

2. A brief ASSESSMENT (2-4 sentences) covering:
   - How the price compares to typical market value for this type of item
   - Authenticity confidence (especially note if this might be a budget/diffusion line being priced as mainline luxury, e.g., Armani Exchange vs Giorgio Armani)
   - Quality indicators based on the brand and description

LISTING DATA:
- Title: "
     ++ title_
     ++ str "
- Brand: "
     ++ brand_
     ++ str "
- Price: "
     ++ price_
     ++ str "
- Description: "
     ++ description_
     ++ str "
- Condition: "
     ++ condition_
     ++ str "

"
     ++ (if (0 <? length (images listing))%nat
       then str "An image of the item is attached for visual analysis."
       else [])
     ++ str "

RESPOND IN THIS EXACT FORMAT:
RATING: [number 1-5]
ASSESSMENT: [your assessment text]"))%io.

Definition analyzeWithGemini (rt : Runtime) (env : Env) (listingData : ListingData)
    : io AnalysisResult :=
    (prompt <- io_pure (buildPrompt rt listingData) ;;
     let text_part := VObj [(str "text", VStr prompt)] in
     (* If we have images, add the first one for vision analysis *)
     parts <-
       match images listingData with
       | image :: _ =>
           io_catch
             (imageResponse <- await_fetch rt (mkRequest (str "GET") (VStr image) [] None) ;;
              let base64Image := base64 rt (text imageResponse) in
              io_pure (Return
                [ VObj [(str "inlineData",
                         VObj [(str "mimeType", VStr (str "image/webp"));
                               (str "data", VStr base64Image)])];
                  text_part ]))
             (fun _ => io_pure (Return [text_part]))
       | [] => io_pure (Return [text_part])
       end ;;
     let requestBody :=
       VObj [(str "contents", VArr [VObj [(str "parts", VArr parts)]]);
             (str "generationConfig",
              VObj [(str "temperature", VNum 0x1.6666666666666p-1 (* 0.7 *));
                    (str "maxOutputTokens", VNum 1024)])] in
     let key := match GEMINI_API_KEY env with
                | Some k => k
                | None => str "undefined"
                end in
     response <- await_fetch rt
       (mkRequest (str "POST") (VStr (GEMINI_API_URL ++ str "?key=" ++ key))
                  [content_type_json] (Some requestBody)) ;;
     if negb (ok response) then
       io_pure (Throw (Error (str "AI analysis failed")))
     else
       result <- io_pure (response_json rt response) ;;
       candidates <- io_pure (member result (str "candidates")) ;;
       let text :=
         opt_member (opt_first (opt_member (opt_member (opt_first candidates)
           (str "content")) (str "parts"))) (str "text") in
       io_pure (parse_reply parseGeminiResponse text))%io.

Definition handler (rt : Runtime) (env : Env) (req : HttpRequest)
    : io HttpResponse :=
    (* Only allow POST *)
    if negb (jsstring_eqb (method req) (str "POST")) then
      io_pure (Return (mkHttpResponse 405 (ErrorBody (str "Method not allowed"))))
    else
      (url <- io_pure (destructure_url (body req)) ;;
       if negb (truthy url) then
         io_pure (Return (mkHttpResponse 400 (ErrorBody (str "URL is required"))))
       else
         io_catch
           ((* Step 1: Fetch and parse Vinted listing *)
            listingData <- fetchVintedListing rt url ;;
            (* Step 2: Analyze with Gemini *)
            analysis <- analyzeWithGemini rt env listingData ;;
            (* Step 3: Return results *)
            io_pure (Return (mkHttpResponse 200
              (ResultBody (rating analysis) (assessment analysis)
                 (title listingData) (brand listingData) (price listingData)
                 (first_image listingData)))))
           respond_500)%io.

End Gemini.

(** ** The Groq variant *)
Module Groq.

Definition GROQ_API_URL : jsstring :=
    str "https://api.groq.com/openai/v1/chat/completions".

Definition buildPrompt (rt : Runtime) (listing : ListingData) : outcome jsstring :=
  (
   title_ <~ ToString rt (or_else (title listing) (VStr (str "Unknown"))) ;;
   brand_ <~ ToString rt (or_else (brand listing) (VStr (str "Unknown"))) ;;
   price_ <~ ToString rt (or_else (price listing) (VStr (str "Unknown"))) ;;
   description_ <~ ToString rt (or_else (description listing) (VStr (str "No description"))) ;;
   condition_ <~ ToString rt (or_else (condition listing) (VStr (str "Unknown"))) ;;
   Return
    (str "Analyze this Vinted listing and provide a deal rating.

LISTING:
- Title: "
     ++ title_
     ++ str "
- Brand: "
     ++ brand_
     ++ str "
- Price: "
     ++ price_
     ++ str "
- Description: "
     ++ description_
     ++ str "
- Condition: "
     ++ condition_
     ++ str "

Provide:
1. RATING (1-5):
   5 = Absolute steal
   4 = Great deal
   3 = Fair price
   2 = Slightly overpriced
   1 = Overpriced

2. ASSESSMENT (2-3 sentences): Compare to market value. Note if it's a budget/diffusion line (e.g., Armani Exchange vs Giorgio Armani). Mention quality indicators.

IMPORTANT: Watch for budget lines being priced as luxury (Armani Exchange, DKNY, Marc by Marc Jacobs, etc.)

Format your response EXACTLY like this:
RATING: [number]
ASSESSMENT: [your text]"))%io.

Definition analyzeWithGroq (rt : Runtime) (env : Env) (listingData : ListingData)
    : io AnalysisResult :=
    match GROQ_API_KEY env with
    | None | Some [] =>
        io_pure (Throw (Error (str "GROQ_API_KEY environment variable not set")))
    | Some key =>
        (prompt <- io_pure (buildPrompt rt listingData) ;;
         response <- await_fetch rt
           (mkRequest (str "POST") (VStr GROQ_API_URL)
              [ (str "Authorization", str "Bearer " ++ key); content_type_json ]
              (Some (VObj
                [ (str "model", VStr (str "llama-3.3-70b-versatile"));
                  (str "messages",
                   VArr [ VObj [ (str "role", VStr (str "system"));
                                 (str "content", VStr (str
                                    "You are an expert at evaluating secondhand clothing deals. Be concise and helpful.")) ];
                          VObj [ (str "role", VStr (str "user"));
                                 (str "content", VStr prompt) ] ]);
                  (str "temperature", VNum 0x1.6666666666666p-1 (* 0.7 *));
                  (str "max_tokens", VNum 500) ]))) ;;
         if negb (ok response) then
           let errorText := text response in
           io_pure (Throw (Error (str "AI analysis failed: " ++ N_toString (status response)
                                   ++ str " - " ++ firstn 200 errorText)))
         else
           result <- io_pure (response_json rt response) ;;
           choices <- io_pure (member result (str "choices")) ;;
           let text :=
             opt_member (opt_member (opt_first choices) (str "message")) (str "content") in
           io_pure (parse_reply parseAIResponse text))%io
    end.

Definition handler (rt : Runtime) (env : Env) (req : HttpRequest)
    : io HttpResponse :=
    (* Only allow POST *)
    if negb (jsstring_eqb (method req) (str "POST")) then
      io_pure (Return (mkHttpResponse 405 (ErrorBody (str "Method not allowed"))))
    else
      (url <- io_pure (destructure_url (body req)) ;;
       if negb (truthy url) then
         io_pure (Return (mkHttpResponse 400 (ErrorBody (str "URL is required"))))
       else
         io_catch
           ((* Step 1: Fetch and parse Vinted listing *)
            listingData <- fetchVintedListing rt url ;;
            (* Step 2: Analyze with Groq *)
            analysis <- analyzeWithGroq rt env listingData ;;
            (* Step 3: Return results *)
            io_pure (Return (mkHttpResponse 200
              (ResultBody (rating analysis) (assessment analysis)
                 (title listingData) (brand listingData) (price listingData)
                 (first_image listingData)))))
           respond_500)%io.

End Groq.

(* ================================================================= *)
(** * The vocabulary of the specification *)

(** [c] is the pattern character [a] up to the case of an ASCII letter. *)
Definition same_letter (a c : N) : Prop :=
  c = a \/ ((65 <= a <= 90)%N /\ c = (a + 32)%N).

(** [m] is the marker [pat] (upper-case letters and a colon) in any mix of
    cases: a case-insensitive occurrence of it. *)
Definition is_marker (pat m : jsstring) : Prop := Forall2 same_letter pat m.

Definition all_space (ws : jsstring) : Prop :=
  Forall (fun c => is_space c = true) ws.

(** [text] is [pre], then a marker, then [rest]. *)
Definition marker_at (pat text pre rest : jsstring) : Prop :=
  exists m, text = pre ++ m ++ rest /\ is_marker pat m.

Definition has_marker (pat text : jsstring) : Prop :=
  exists pre rest, marker_at pat text pre rest.

(** The leftmost occurrence of the marker. *)
Definition first_marker_at (pat text pre rest : jsstring) : Prop :=
  marker_at pat text pre rest /\
  forall pre' rest', marker_at pat text pre' rest' -> length pre <= length pre'.

(** [text] is [pre], then a [RATING:] marker, optional white space and the
    digit [d], then [rest]. *)
Definition rating_at (text pre : jsstring) (d : N) (rest : jsstring) : Prop :=
  exists m ws,
    text = pre ++ m ++ ws ++ d :: rest /\
    is_marker (str "RATING:") m /\ all_space ws /\ is_digit d = true.

Definition has_rating (text : jsstring) : Prop :=
  exists pre d rest, rating_at text pre d rest.

(** The leftmost such occurrence. *)
Definition first_rating_at (text pre : jsstring) (d : N) (rest : jsstring) : Prop :=
  rating_at text pre d rest /\
  forall pre' d' rest', rating_at text pre' d' rest' -> length pre <= length pre'.

(** Clamping into [1,5]. *)
Definition clamp (z : Z) : Z := Z.min 5 (Z.max 1 z).

(** No white space at either end. *)
Definition is_trimmed (s : jsstring) : Prop :=
  (forall c t, s = c :: t -> is_space c = false) /\
  (forall t c, s = t ++ [c] -> is_space c = false).

(** One leading [-] or [:], with the white space around it, removed. *)
Definition spec_strip_mark (s : jsstring) : jsstring :=
  match skip_while is_space s with
  | c :: t => if is_dash_or_colon c then skip_while is_space t else s
  | [] => s
  end.

(** Duplicates removed, each value kept where it is first seen. *)
Fixpoint spec_dedup (l : list jsstring) : list jsstring :=
  match l with
  | [] => []
  | x :: t => x :: filter (fun y => negb (jsstring_eqb x y)) (spec_dedup t)
  end.

(** The prefix of every image URL. *)
Definition image_prefix : jsstring := str "https://images1.vinted.net/t/".

(** [x] is an occurrence of the image pattern in [html]: the prefix, then
    the longest run of URL characters, at least one. *)
Definition image_occurrence (html x : jsstring) : Prop :=
  exists p tail q,
    html = p ++ x ++ q /\ x = image_prefix ++ tail /\ tail <> [] /\
    Forall (fun c => image_url_char c = true) tail /\
    (forall c q', q = c :: q' -> image_url_char c = false).

Definition has_image_url (html : jsstring) : Prop :=
  exists p c q, html = p ++ image_prefix ++ c :: q /\ image_url_char c = true.

(** [x] is the leftmost image URL of [s], between [p] and [q]: no image URL
    begins inside [p], and [x] runs as far as URL characters go. *)
Definition first_image_at (s p x q : jsstring) : Prop :=
  s = p ++ x ++ q /\
  (exists tail, x = image_prefix ++ tail /\ tail <> [] /\
                Forall (fun c => image_url_char c = true) tail) /\
  (forall c q', q = c :: q' -> image_url_char c = false) /\
  (forall p' c q', s = p' ++ image_prefix ++ c :: q' -> image_url_char c = true ->
                   length p <= length p').

(** The image URLs of a text in reading order, every one of them: the
    leftmost one, then those of the text that follows it. *)
Inductive image_urls : jsstring -> list jsstring -> Prop :=
| urls_none (s : jsstring) : ~ has_image_url s -> image_urls s []
| urls_cons (s p x q : jsstring) (l : list jsstring) :
    first_image_at s p x q -> image_urls q l -> image_urls s (x :: l).

(** The gate of [fetchVintedListing] tests its fields with [!]: absent
    means falsy ([null], or an empty string). *)
Definition absent (v : value) : Prop := truthy v = false.
Definition present (v : value) : Prop := truthy v = true.

(* ================================================================= *)
(** * Scripted runtimes for the worked examples *)

Fixpoint lookup {A : Type} (table : list (jsstring * A)) (k : jsstring) : option A :=
  match table with
  | (k', a) :: rest => if jsstring_eqb k' k then Some a else lookup rest k
  | [] => None
  end.

(** A runtime that knows the pages and the JSON texts of one example:
    every other URL is unreachable, every other text is not JSON. No example
    prints a number or downloads an image, so the two remaining built-ins
    are never called and are left trivial. *)
Definition scripted (pages : list (jsstring * Response))
           (jsons : list (jsstring * value)) : Runtime :=
  mkRuntime
    (lookup jsons)
    (fun _ => str "NaN")
    (fun bytes => bytes)
    (fun rq =>
       match target rq with
       | VStr u =>
           match lookup pages u with
           | Some r => Return r
           | None => Throw (TypeError (str "fetch failed"))
           end
       | _ => Throw (TypeError (str "Failed to parse URL"))
       end).

Definition listing_url : jsstring := str "https://www.vinted.fr/items/1-wool-coat".

Definition post (u : jsstring) : HttpRequest :=
  mkHttpRequest (str "POST") (VObj [(str "url", VStr u)]).

(** A page with an Open Graph title and no structured data. *)
Definition page_og_title : jsstring :=
  strq "<html><head><meta property=`og:title` content=`Wool Coat`></head></html>".

Definition rt_og_title : Runtime :=
  scripted [(listing_url, mkResponse true 200 page_og_title)] [].

(** What is extracted from it. *)
Definition listing_og_title : ListingData :=
  mkListing (VStr (str "Wool Coat")) VNull VNull VNull VNull [] (VStr listing_url).

(** A page whose structured data gives the condition as a number. *)
Definition json_numeric_condition : jsstring :=
  strq "{`name`:`Wool Coat`,`itemCondition`:5}".

Definition page_numeric_condition : jsstring :=
  strq "<script type=`application/ld+json`>" ++ json_numeric_condition
  ++ str "</script>".

Definition rt_numeric_condition : Runtime :=
  scripted [(listing_url, mkResponse true 200 page_numeric_condition)]
           [(json_numeric_condition,
             VObj [(str "name", VStr (str "Wool Coat"));
                   (str "itemCondition", VNum 5)])].

(** The listing is gone: the GET answers 404. *)
Definition rt_not_found : Runtime :=
  scripted [(listing_url, mkResponse false 404 (str "Not Found"))] [].

Definition env_no_keys : Env := mkEnv None None.

(** The GET of the listing page, as [fetchVintedListing] sends it. *)
Definition get_listing (url : value) : Request :=
  mkRequest (str "GET") url browser_headers None.

Definition missing_groq_key : jsstring :=
  str "GROQ_API_KEY environment variable not set".

Definition extraction_error : exn :=
  Error (str "Could not extract listing data. The listing may be unavailable.").

(* ================================================================= *)
(** * The environment test endpoint *)

(** [api/test.js]: reports whether the Groq key is configured. *)
Module EnvTest.

(** The object given to [res.json]. *)
Record Report : Type := mkReport {
  groqKeySet : bool;
  keyLength : nat;
  note : jsstring           (* the field [message] *)
}.

Definition handler (env : Env) (req : HttpRequest) : N * Report :=
  let hasKey :=
    match GROQ_API_KEY env with
    | Some (_ :: _) => true            (* !! of a non-empty string *)
    | _ => false
    end in
  let keyLength :=
    match GROQ_API_KEY env with
    | Some k => length k               (* a length of 0 is falsy: [|| 0] gives 0 *)
    | None => 0
    end in
  (200%N,
   mkReport hasKey keyLength
     (if hasKey then str "API key is configured" else str "API key is MISSING")).

End EnvTest.

(* ================================================================= *)
(** * More scripted runtimes *)

(** The POST of [analyzeWithGroq]. *)
Definition groq_request (key prompt : jsstring) : Request :=
  mkRequest (str "POST") (VStr Groq.GROQ_API_URL)
    [ (str "Authorization", str "Bearer " ++ key); content_type_json ]
    (Some (VObj
      [ (str "model", VStr (str "llama-3.3-70b-versatile"));
        (str "messages",
         VArr [ VObj [ (str "role", VStr (str "system"));
                       (str "content", VStr (str
                          "You are an expert at evaluating secondhand clothing deals. Be concise and helpful.")) ];
                VObj [ (str "role", VStr (str "user"));
                       (str "content", VStr prompt) ] ]);
        (str "temperature", VNum 0x1.6666666666666p-1 (* 0.7 *));
        (str "max_tokens", VNum 500) ])).

(** The POST of [analyzeWithGemini], with the parts it was given. *)
Definition gemini_request (key : option jsstring) (parts : list value) : Request :=
  mkRequest (str "POST")
    (VStr (Gemini.GEMINI_API_URL ++ str "?key=" ++
           match key with
           | Some k => k
           | None => str "undefined"
           end))
    [content_type_json]
    (Some (VObj [(str "contents", VArr [VObj [(str "parts", VArr parts)]]);
                 (str "generationConfig",
                  VObj [(str "temperature", VNum 0x1.6666666666666p-1 (* 0.7 *));
                        (str "maxOutputTokens", VNum 1024)])])).

Definition text_part (prompt : jsstring) : value :=
  VObj [(str "text", VStr prompt)].

Definition image_part (data : jsstring) : value :=
  VObj [(str "inlineData",
         VObj [(str "mimeType", VStr (str "image/webp"));
               (str "data", VStr data)])].

Definition get_image (image : jsstring) : Request :=
  mkRequest (str "GET") (VStr image) [] None.

(** A reply of the model, and the provider's JSON around it. *)
Definition model_reply : jsstring :=
  str "RATING: 4" ++ [10%N] ++ str "ASSESSMENT: Good deal.".

Definition groq_json_text : jsstring :=
  strq "{`choices`:[{`message`:{`content`:`RATING: 4\nASSESSMENT: Good deal.`}}]}".

Definition groq_json : value :=
  VObj [(str "choices",
         VArr [VObj [(str "message", VObj [(str "content", VStr model_reply)])]])].

Definition gemini_json_text : jsstring :=
  strq "{`candidates`:[{`content`:{`parts`:[{`text`:`RATING: 4\nASSESSMENT: Good deal.`}]}}]}".

Definition gemini_json : value :=
  VObj [(str "candidates",
         VArr [VObj [(str "content",
                      VObj [(str "parts", VArr [VObj [(str "text", VStr model_reply)]])])]])].

Definition env_keys : Env := mkEnv (Some (str "AIza-test")) (Some (str "gsk_test")).

(** The listing page with the Open Graph title, and a provider that
    answers. *)
Definition rt_providers_ok : Runtime :=
  scripted
    [ (listing_url, mkResponse true 200 page_og_title);
      (Groq.GROQ_API_URL, mkResponse true 200 groq_json_text);
      (Gemini.GEMINI_API_URL ++ str "?key=AIza-test", mkResponse true 200 gemini_json_text) ]
    [ (groq_json_text, groq_json); (gemini_json_text, gemini_json) ].

(** The same, with a provider that answers 429. *)
Definition rt_provider_busy : Runtime :=
  scripted
    [ (listing_url, mkResponse true 200 page_og_title);
      (Groq.GROQ_API_URL, mkResponse false 429 (str "rate limit reached"));
      (Gemini.GEMINI_API_URL ++ str "?key=AIza-test",
       mkResponse false 429 (str "rate limit reached")) ]
    [].

(** A provider that answers with no choice at all. *)
Definition rt_no_choices : Runtime :=
  scripted [(Groq.GROQ_API_URL, mkResponse true 200 (strq "{`choices`:[]}"))]
           [(strq "{`choices`:[]}", VObj [(str "choices", VArr [])])].

(** A listing with one image; the image host is unreachable in
    [rt_image_down] and answers 404 in [rt_image_404]. *)
Definition image_url : jsstring := str "https://images1.vinted.net/t/01_coat.webp".

Definition listing_with_image : ListingData :=
  mkListing (VStr (str "Wool Coat")) VNull (VStr (euro ++ str "45")) VNull VNull
            [image_url] (VStr listing_url).

Definition rt_image_down : Runtime :=
  scripted
    [ (Gemini.GEMINI_API_URL ++ str "?key=AIza-test", mkResponse true 200 gemini_json_text) ]
    [ (gemini_json_text, gemini_json) ].

Definition rt_image_404 : Runtime :=
  scripted
    [ (image_url, mkResponse false 404 (str "Not Found"));
      (Gemini.GEMINI_API_URL ++ str "?key=AIza-test", mkResponse true 200 gemini_json_text) ]
    [ (gemini_json_text, gemini_json) ].

(** What a response of the handler's [try] block looks like. *)
Definition well_formed_response (resp : HttpResponse) : Prop :=
  (code resp = 200%N /\
   exists r a t b p i, json resp = ResultBody r a t b p i) \/
  (code resp = 500%N /\ exists m, json resp = ErrorBody m /\ m <> []).

(** The reply text in the provider's JSON: [result.choices?.[0]?.message?.content]
    of the Groq variant, given [result.choices]. *)
Definition groq_content (choices : value) : value :=
  opt_member (opt_member (opt_first choices) (str "message")) (str "content").

(** [result.candidates?.[0]?.content?.parts?.[0]?.text] of the Gemini
    variant, given [result.candidates]. *)
Definition gemini_text (candidates : value) : value :=
  opt_member (opt_first (opt_member (opt_member (opt_first candidates)
    (str "content")) (str "parts"))) (str "text").

(** How [analyzeWithGroq] ends once its request is sent. *)
Definition groq_outcome (rt : Runtime) (rq : Request) : outcome AnalysisResult :=
  bind (fetch rt rq) (fun response =>
  if negb (ok response) then
    Throw (Error (str "AI analysis failed: " ++ N_toString (status response)
                  ++ str " - " ++ firstn 200 (text response)))
  else
    bind (response_json rt response) (fun result =>
    bind (member result (str "choices")) (fun choices =>
    parse_reply parseAIResponse (groq_content choices)))).

(** How [analyzeWithGemini] ends once its request is sent. *)
Definition gemini_outcome (rt : Runtime) (rq : Request) : outcome AnalysisResult :=
  bind (fetch rt rq) (fun response =>
  if negb (ok response) then Throw (Error (str "AI analysis failed"))
  else
    bind (response_json rt response) (fun result =>
    bind (member result (str "candidates")) (fun candidates =>
    parse_reply parseGeminiResponse (gemini_text candidates)))).

(** The image download of [analyzeWithGemini]: the request it makes, and the
    parts of the model request that come out. *)
Definition gemini_image_requests (listing : ListingData) : list Request :=
  match images listing with
  | image :: _ => [get_image image]
  | [] => []
  end.

Definition gemini_parts (rt : Runtime) (listing : ListingData) (prompt : jsstring)
  : list value :=
  match images listing with
  | image :: _ =>
      match fetch rt (get_image image) with
      | Return imageResponse =>
          [image_part (base64 rt (text imageResponse)); text_part prompt]
      | Throw _ => [text_part prompt]
      end
  | [] => [text_part prompt]
  end.

(* ================================================================= *)
(** * The language of a pattern *)

(** [lang ic r w cs]: the word [w] is matched by the pattern [r] (under the
    flag [i] when [ic]), its groups capturing [cs], in order. This is the
    declarative reading of a pattern; the matcher is checked against it. *)
Inductive lang (ic : bool) : regex -> jsstring -> list jsstring -> Prop :=
| L_eps : lang ic Eps [] []
| L_chr (a c : N) : chr_eqb ic a c = true -> lang ic (Chr a) [c] []
| L_cls (p : N -> bool) (c : N) : p c = true -> lang ic (Cls p) [c] []
| L_bol : lang ic Bol [] []
| L_seq (r1 r2 : regex) (w1 w2 : jsstring) (c1 c2 : list jsstring) :
    lang ic r1 w1 c1 -> lang ic r2 w2 c2 ->
    lang ic (Seq r1 r2) (w1 ++ w2) (c1 ++ c2)
| L_star (p : N -> bool) (w : jsstring) :
    Forall (fun c => p c = true) w -> lang ic (Star p) w []
| L_star_lazy (p : N -> bool) (w : jsstring) :
    Forall (fun c => p c = true) w -> lang ic (StarLazy p) w []
| L_opt_some (r : regex) (w : jsstring) (cs : list jsstring) :
    lang ic r w cs -> lang ic (Opt r) w cs
| L_opt_none (r : regex) : lang ic (Opt r) [] []
| L_grp (r : regex) (w : jsstring) (cs : list jsstring) :
    lang ic r w cs -> lang ic (Grp r) w (cs ++ [w]).

(** A field taken from the page by one of the [content=] or [name:]
    patterns: [null], or a non-empty text without double quote that stands
    in the page right before a double quote. *)
Definition quoted_in (html g : jsstring) : Prop :=
  g <> [] /\ Forall (fun c => not_quote c = true) g /\
  exists p q, html = p ++ g ++ 34%N :: q.

Definition pattern_field (html : jsstring) (v : value) : Prop :=
  v = VNull \/ exists g, v = VStr g /\ quoted_in html g.

(** A decimal number as the price pattern captures it: digits, then
    possibly a dot and digits. *)
Definition decimal_text (g : jsstring) : Prop :=
  exists ds frac,
    g = ds ++ frac /\ ds <> [] /\ Forall (fun c => is_digit c = true) ds /\
    (frac = [] \/
     exists fs, frac = 46%N :: fs /\ fs <> [] /\ Forall (fun c => is_digit c = true) fs).

(** The opening and the closing tag of a structured-data block. *)
Definition json_ld_open : jsstring := strq "<script type=`application/ld+json`>".
Definition json_ld_close : jsstring := str "</script>".

(** The meta tags of the title and of the description, up to the content. *)
Definition og_title_open : jsstring := strq "<meta property=`og:title` content=`".
Definition og_description_open : jsstring :=
  strq "<meta property=`og:description` content=`".

(** [pat] occurs in [s] at the position that follows [p]. *)
Definition occurs_at (pat s p : jsstring) : Prop := exists q, s = p ++ pat ++ q.

(** A page whose structured data is not JSON. *)
Definition page_bad_json : jsstring :=
  strq "<script type=`application/ld+json`>{name: Wool Coat</script><meta property=`og:title` content=`Wool Coat`>".

Definition rt_bad_json : Runtime :=
  scripted [(listing_url, mkResponse true 200 page_bad_json)] [].

(** A page with two structured-data blocks, and a runtime that reads both. *)
Definition page_two_blocks : jsstring :=
  strq "<script type=`application/ld+json`>{`name`:`Wool Coat`}</script><script type=`application/ld+json`>{`name`:`Silk Scarf`}</script>".

Definition rt_two_blocks : Runtime :=
  scripted [(listing_url, mkResponse true 200 page_two_blocks)]
           [(strq "{`name`:`Wool Coat`}", VObj [(str "name", VStr (str "Wool Coat"))]);
            (strq "{`name`:`Silk Scarf`}", VObj [(str "name", VStr (str "Silk Scarf"))])].

(** The prefix that [extractCondition] removes. *)
Definition schema_org : jsstring := str "https://schema.org/".

(* ================================================================= *)
(** * The front end *)

(** [s.includes(pat)]. *)
Fixpoint includes (pat s : jsstring) : bool :=
  match strip_prefix pat s with
  | Some _ => true
  | None => match s with
            | _ :: s' => includes pat s'
            | [] => false
            end
  end.

(** The conversion of a string to scalar values that the DOM applies to a
    URL attribute: a surrogate without its partner becomes U+FFFD. *)
Definition is_high_surrogate (c : N) : bool := ((55296 <=? c) && (c <=? 56319))%N.
Definition is_low_surrogate (c : N) : bool := ((56320 <=? c) && (c <=? 57343))%N.

Fixpoint scalar_values (s : jsstring) : jsstring :=
  match s with
  | [] => []
  | c :: s' =>
      if is_high_surrogate c then
        match s' with
        | d :: s'' =>
            if is_low_surrogate d then c :: d :: scalar_values s''
            else 65533%N :: scalar_values s'
        | [] => [65533%N]
        end
      else if is_low_surrogate c then 65533%N :: scalar_values s'
      else c :: scalar_values s'
  end.

Module App.

(** The four sections of the page ([inputSection], [loading],
    [resultsSection], [error]). The elements that [getElementById] looks up
    are taken to exist, [urlInput] to be a text input and [itemImage] an
    image. *)
Inductive panel : Type :=
| inputSection
| loading
| resultsSection
| error.

(** What a [textContent] that is not always a text receives: a text, or a
    property that every object inherits (a function, or the prototype
    itself), which the DOM prints in its own way. *)
Inductive content : Type :=
| Text (s : jsstring)
| Builtin (name : jsstring).

(** The part of the document that the script reads and writes. The
    properties hold what the DOM keeps of an assignment, that is, its
    argument converted to a string. *)
Record Page : Type := mkPage {
  inputSection_hidden : bool;   (* [inputSection.classList] holds [hidden] *)
  loading_hidden : bool;
  resultsSection_hidden : bool;
  error_hidden : bool;
  urlInput_value : jsstring;
  urlInput_focus_calls : nat;   (* how often [urlInput.focus()] was called *)
  analyzeBtn_disabled : bool;
  rating_textContent : jsstring;
  rating_className : jsstring;
  ratingLabel_textContent : content;
  itemImage_src : jsstring;
  itemImage_style_display : jsstring;
  itemTitle_textContent : jsstring;
  itemBrand_textContent : jsstring;
  itemPrice_textContent : jsstring;
  assessmentText_textContent : jsstring;
  errorMessage_textContent : jsstring
}.

Definition set_inputSection_hidden (x : bool) (pg : Page) : Page :=
  mkPage x (loading_hidden pg) (resultsSection_hidden pg) (error_hidden pg)
    (urlInput_value pg) (urlInput_focus_calls pg) (analyzeBtn_disabled pg)
    (rating_textContent pg) (rating_className pg) (ratingLabel_textContent pg)
    (itemImage_src pg) (itemImage_style_display pg) (itemTitle_textContent pg)
    (itemBrand_textContent pg) (itemPrice_textContent pg)
    (assessmentText_textContent pg) (errorMessage_textContent pg).

Definition set_loading_hidden (x : bool) (pg : Page) : Page :=
  mkPage (inputSection_hidden pg) x (resultsSection_hidden pg)
    (error_hidden pg) (urlInput_value pg) (urlInput_focus_calls pg)
    (analyzeBtn_disabled pg) (rating_textContent pg) (rating_className pg)
    (ratingLabel_textContent pg) (itemImage_src pg)
    (itemImage_style_display pg) (itemTitle_textContent pg)
    (itemBrand_textContent pg) (itemPrice_textContent pg)
    (assessmentText_textContent pg) (errorMessage_textContent pg).

Definition set_resultsSection_hidden (x : bool) (pg : Page) : Page :=
  mkPage (inputSection_hidden pg) (loading_hidden pg) x (error_hidden pg)
    (urlInput_value pg) (urlInput_focus_calls pg) (analyzeBtn_disabled pg)
    (rating_textContent pg) (rating_className pg) (ratingLabel_textContent pg)
    (itemImage_src pg) (itemImage_style_display pg) (itemTitle_textContent pg)
    (itemBrand_textContent pg) (itemPrice_textContent pg)
    (assessmentText_textContent pg) (errorMessage_textContent pg).

Definition set_error_hidden (x : bool) (pg : Page) : Page :=
  mkPage (inputSection_hidden pg) (loading_hidden pg)
    (resultsSection_hidden pg) x (urlInput_value pg) (urlInput_focus_calls pg)
    (analyzeBtn_disabled pg) (rating_textContent pg) (rating_className pg)
    (ratingLabel_textContent pg) (itemImage_src pg)
    (itemImage_style_display pg) (itemTitle_textContent pg)
    (itemBrand_textContent pg) (itemPrice_textContent pg)
    (assessmentText_textContent pg) (errorMessage_textContent pg).

Definition set_urlInput_value (x : jsstring) (pg : Page) : Page :=
  mkPage (inputSection_hidden pg) (loading_hidden pg)
    (resultsSection_hidden pg) (error_hidden pg) x (urlInput_focus_calls pg)
    (analyzeBtn_disabled pg) (rating_textContent pg) (rating_className pg)
    (ratingLabel_textContent pg) (itemImage_src pg)
    (itemImage_style_display pg) (itemTitle_textContent pg)
    (itemBrand_textContent pg) (itemPrice_textContent pg)
    (assessmentText_textContent pg) (errorMessage_textContent pg).

Definition set_urlInput_focus_calls (x : nat) (pg : Page) : Page :=
  mkPage (inputSection_hidden pg) (loading_hidden pg)
    (resultsSection_hidden pg) (error_hidden pg) (urlInput_value pg) x
    (analyzeBtn_disabled pg) (rating_textContent pg) (rating_className pg)
    (ratingLabel_textContent pg) (itemImage_src pg)
    (itemImage_style_display pg) (itemTitle_textContent pg)
    (itemBrand_textContent pg) (itemPrice_textContent pg)
    (assessmentText_textContent pg) (errorMessage_textContent pg).

Definition set_analyzeBtn_disabled (x : bool) (pg : Page) : Page :=
  mkPage (inputSection_hidden pg) (loading_hidden pg)
    (resultsSection_hidden pg) (error_hidden pg) (urlInput_value pg)
    (urlInput_focus_calls pg) x (rating_textContent pg) (rating_className pg)
    (ratingLabel_textContent pg) (itemImage_src pg)
    (itemImage_style_display pg) (itemTitle_textContent pg)
    (itemBrand_textContent pg) (itemPrice_textContent pg)
    (assessmentText_textContent pg) (errorMessage_textContent pg).

Definition set_rating_textContent (x : jsstring) (pg : Page) : Page :=
  mkPage (inputSection_hidden pg) (loading_hidden pg)
    (resultsSection_hidden pg) (error_hidden pg) (urlInput_value pg)
    (urlInput_focus_calls pg) (analyzeBtn_disabled pg) x (rating_className pg)
    (ratingLabel_textContent pg) (itemImage_src pg)
    (itemImage_style_display pg) (itemTitle_textContent pg)
    (itemBrand_textContent pg) (itemPrice_textContent pg)
    (assessmentText_textContent pg) (errorMessage_textContent pg).

Definition set_rating_className (x : jsstring) (pg : Page) : Page :=
  mkPage (inputSection_hidden pg) (loading_hidden pg)
    (resultsSection_hidden pg) (error_hidden pg) (urlInput_value pg)
    (urlInput_focus_calls pg) (analyzeBtn_disabled pg) (rating_textContent pg)
    x (ratingLabel_textContent pg) (itemImage_src pg)
    (itemImage_style_display pg) (itemTitle_textContent pg)
    (itemBrand_textContent pg) (itemPrice_textContent pg)
    (assessmentText_textContent pg) (errorMessage_textContent pg).

Definition set_ratingLabel_textContent (x : content) (pg : Page) : Page :=
  mkPage (inputSection_hidden pg) (loading_hidden pg)
    (resultsSection_hidden pg) (error_hidden pg) (urlInput_value pg)
    (urlInput_focus_calls pg) (analyzeBtn_disabled pg) (rating_textContent pg)
    (rating_className pg) x (itemImage_src pg) (itemImage_style_display pg)
    (itemTitle_textContent pg) (itemBrand_textContent pg)
    (itemPrice_textContent pg) (assessmentText_textContent pg)
    (errorMessage_textContent pg).

Definition set_itemImage_src (x : jsstring) (pg : Page) : Page :=
  mkPage (inputSection_hidden pg) (loading_hidden pg)
    (resultsSection_hidden pg) (error_hidden pg) (urlInput_value pg)
    (urlInput_focus_calls pg) (analyzeBtn_disabled pg) (rating_textContent pg)
    (rating_className pg) (ratingLabel_textContent pg) x
    (itemImage_style_display pg) (itemTitle_textContent pg)
    (itemBrand_textContent pg) (itemPrice_textContent pg)
    (assessmentText_textContent pg) (errorMessage_textContent pg).

Definition set_itemImage_style_display (x : jsstring) (pg : Page) : Page :=
  mkPage (inputSection_hidden pg) (loading_hidden pg)
    (resultsSection_hidden pg) (error_hidden pg) (urlInput_value pg)
    (urlInput_focus_calls pg) (analyzeBtn_disabled pg) (rating_textContent pg)
    (rating_className pg) (ratingLabel_textContent pg) (itemImage_src pg) x
    (itemTitle_textContent pg) (itemBrand_textContent pg)
    (itemPrice_textContent pg) (assessmentText_textContent pg)
    (errorMessage_textContent pg).

Definition set_itemTitle_textContent (x : jsstring) (pg : Page) : Page :=
  mkPage (inputSection_hidden pg) (loading_hidden pg)
    (resultsSection_hidden pg) (error_hidden pg) (urlInput_value pg)
    (urlInput_focus_calls pg) (analyzeBtn_disabled pg) (rating_textContent pg)
    (rating_className pg) (ratingLabel_textContent pg) (itemImage_src pg)
    (itemImage_style_display pg) x (itemBrand_textContent pg)
    (itemPrice_textContent pg) (assessmentText_textContent pg)
    (errorMessage_textContent pg).

Definition set_itemBrand_textContent (x : jsstring) (pg : Page) : Page :=
  mkPage (inputSection_hidden pg) (loading_hidden pg)
    (resultsSection_hidden pg) (error_hidden pg) (urlInput_value pg)
    (urlInput_focus_calls pg) (analyzeBtn_disabled pg) (rating_textContent pg)
    (rating_className pg) (ratingLabel_textContent pg) (itemImage_src pg)
    (itemImage_style_display pg) (itemTitle_textContent pg) x
    (itemPrice_textContent pg) (assessmentText_textContent pg)
    (errorMessage_textContent pg).

Definition set_itemPrice_textContent (x : jsstring) (pg : Page) : Page :=
  mkPage (inputSection_hidden pg) (loading_hidden pg)
    (resultsSection_hidden pg) (error_hidden pg) (urlInput_value pg)
    (urlInput_focus_calls pg) (analyzeBtn_disabled pg) (rating_textContent pg)
    (rating_className pg) (ratingLabel_textContent pg) (itemImage_src pg)
    (itemImage_style_display pg) (itemTitle_textContent pg)
    (itemBrand_textContent pg) x (assessmentText_textContent pg)
    (errorMessage_textContent pg).

Definition set_assessmentText_textContent (x : jsstring) (pg : Page) : Page :=
  mkPage (inputSection_hidden pg) (loading_hidden pg)
    (resultsSection_hidden pg) (error_hidden pg) (urlInput_value pg)
    (urlInput_focus_calls pg) (analyzeBtn_disabled pg) (rating_textContent pg)
    (rating_className pg) (ratingLabel_textContent pg) (itemImage_src pg)
    (itemImage_style_display pg) (itemTitle_textContent pg)
    (itemBrand_textContent pg) (itemPrice_textContent pg) x
    (errorMessage_textContent pg).

Definition set_errorMessage_textContent (x : jsstring) (pg : Page) : Page :=
  mkPage (inputSection_hidden pg) (loading_hidden pg)
    (resultsSection_hidden pg) (error_hidden pg) (urlInput_value pg)
    (urlInput_focus_calls pg) (analyzeBtn_disabled pg) (rating_textContent pg)
    (rating_className pg) (ratingLabel_textContent pg) (itemImage_src pg)
    (itemImage_style_display pg) (itemTitle_textContent pg)
    (itemBrand_textContent pg) (itemPrice_textContent pg)
    (assessmentText_textContent pg) x.
(** A computation on the page that returns or throws; what it has written
    before it throws stays written. *)
Definition dom (A : Type) : Type := Page -> Page * outcome A.

Definition dom_lift {A : Type} (o : outcome A) : dom A := fun pg => (pg, o).

Definition dom_set (f : Page -> Page) : dom unit := fun pg => (f pg, Return tt).

Definition dom_bind {A B : Type} (m : dom A) (f : A -> dom B) : dom B :=
  fun pg =>
    match m pg with
    | (pg', Return a) => f a pg'
    | (pg', Throw e) => (pg', Throw e)
    end.

Declare Scope dom_scope.
Delimit Scope dom_scope with dom.
Notation "x <- m ;; k" := (dom_bind m (fun x => k))
  (at level 61, m at next level, right associativity) : dom_scope.

(** The conversion of the value assigned to [textContent]: [null] and
    [undefined] empty it, anything else goes through ToString. *)
Definition DOMString_or_null (rt : Runtime) (v : value) : outcome jsstring :=
  match v with
  | VUndefined | VNull => Return []
  | _ => ToString rt v
  end.

Definition classList_add_hidden (section : panel) (pg : Page) : Page :=
  match section with
  | inputSection => set_inputSection_hidden true pg
  | loading => set_loading_hidden true pg
  | resultsSection => set_resultsSection_hidden true pg
  | error => set_error_hidden true pg
  end.

Definition classList_remove_hidden (section : panel) (pg : Page) : Page :=
  match section with
  | inputSection => set_inputSection_hidden false pg
  | loading => set_loading_hidden false pg
  | resultsSection => set_resultsSection_hidden false pg
  | error => set_error_hidden false pg
  end.

Definition urlInput_focus (pg : Page) : Page :=
  set_urlInput_focus_calls (S (urlInput_focus_calls pg)) pg.

(* STATE MANAGEMENT *)
Definition showSection (section : panel) (pg : Page) : Page :=
  let pg := classList_add_hidden inputSection pg in
  let pg := classList_add_hidden loading pg in
  let pg := classList_add_hidden resultsSection pg in
  let pg := classList_add_hidden error pg in
  classList_remove_hidden section pg.

(* RATING LABELS *)
Definition ratingLabels : list (jsstring * jsstring) :=
  [ (str "5", str "Absolute Steal!");
    (str "4", str "Great Deal");
    (str "3", str "Fair Price");
    (str "2", str "Slightly Overpriced");
    (str "1", str "Overpriced") ].

(** The properties that [ratingLabels] inherits from [Object.prototype]. *)
Definition Object_prototype : list jsstring :=
  [ str "constructor"; str "hasOwnProperty"; str "isPrototypeOf";
    str "propertyIsEnumerable"; str "toLocaleString"; str "toString";
    str "valueOf"; str "__proto__"; str "__defineGetter__";
    str "__defineSetter__"; str "__lookupGetter__"; str "__lookupSetter__" ].

(** [ratingLabels[key] || 'Unknown'], [key] being the property key that the
    rating converts to. *)
Definition rating_label (key : jsstring) : content :=
  match lookup ratingLabels key with
  | Some label => if truthy (VStr label) then Text label else Text (str "Unknown")
  | None =>
      if existsb (jsstring_eqb key) Object_prototype then Builtin key
      else Text (str "Unknown")
  end.

(* API CALL *)
Definition analyzeUrl (rt : Runtime) (url : jsstring) : io value :=
  (response <- await_fetch rt
     (mkRequest (str "POST") (VStr (str "/api/analyze"))
        [ content_type_json ]
        (Some (VObj [ (str "url", VStr url) ]))) ;;
   if negb (ok response) then
     errorData <- io_pure (response_json rt response) ;;
     error_ <- io_pure (member errorData (str "error")) ;;
     message_ <- io_pure (ToString rt
                   (or_else error_ (VStr (str "Failed to analyze listing")))) ;;
     io_pure (Throw (Error message_))
   else
     io_pure (response_json rt response))%io.

(* DISPLAY RESULTS *)
Definition displayResults (rt : Runtime) (data : value) : dom unit :=
  ((* Set rating *)
   rating <- dom_lift (member data (str "rating")) ;;
   text <- dom_lift (DOMString_or_null rt rating) ;;
   _ <- dom_set (set_rating_textContent text) ;;
   rating <- dom_lift (member data (str "rating")) ;;
   suffix <- dom_lift (ToString rt rating) ;;
   _ <- dom_set (set_rating_className (str "rating rating-" ++ suffix)) ;;
   rating <- dom_lift (member data (str "rating")) ;;
   key <- dom_lift (ToString rt rating) ;;
   _ <- dom_set (set_ratingLabel_textContent (rating_label key)) ;;
   (* Set item info *)
   item <- dom_lift (member data (str "item")) ;;
   title <- dom_lift (member item (str "title")) ;;
   text <- dom_lift (DOMString_or_null rt (or_else title (VStr (str "Unknown Item")))) ;;
   _ <- dom_set (set_itemTitle_textContent text) ;;
   item <- dom_lift (member data (str "item")) ;;
   brand <- dom_lift (member item (str "brand")) ;;
   text <- dom_lift (DOMString_or_null rt (or_else brand (VStr []))) ;;
   _ <- dom_set (set_itemBrand_textContent text) ;;
   item <- dom_lift (member data (str "item")) ;;
   price <- dom_lift (member item (str "price")) ;;
   text <- dom_lift (DOMString_or_null rt (or_else price (VStr []))) ;;
   _ <- dom_set (set_itemPrice_textContent text) ;;
   item <- dom_lift (member data (str "item")) ;;
   image <- dom_lift (member item (str "image")) ;;
   _ <- (if truthy image then
           item <- dom_lift (member data (str "item")) ;;
           image <- dom_lift (member item (str "image")) ;;
           src <- dom_lift (ToString rt image) ;;
           _ <- dom_set (set_itemImage_src (scalar_values src)) ;;
           dom_set (set_itemImage_style_display (str "block"))
         else
           dom_set (set_itemImage_style_display (str "none"))) ;;
   (* Set assessment *)
   assessment <- dom_lift (member data (str "assessment")) ;;
   text <- dom_lift (DOMString_or_null rt assessment) ;;
   _ <- dom_set (set_assessmentText_textContent text) ;;
   dom_set (showSection resultsSection))%dom.

Definition displayError (message : jsstring) (pg : Page) : Page :=
  let pg := set_errorMessage_textContent message pg in
  showSection error pg.

Definition reset (pg : Page) : Page :=
  let pg := set_urlInput_value [] pg in
  let pg := showSection inputSection pg in
  urlInput_focus pg.

(* EVENT HANDLERS *)

(** [handleAnalyze], from the click to the end of its [finally]: the page
    it leaves and the requests it sent. No other event is handled while it
    waits for the answer. *)
Definition handleAnalyze (rt : Runtime) (pg : Page) : Page * list Request :=
  let url := trim (urlInput_value pg) in
  if negb (truthy (VStr url)) then
    (urlInput_focus pg, [])
  else
  (* Basic URL validation *)
  if negb (includes (str "vinted.") url) then
    (displayError (str "Please enter a valid Vinted URL") pg, [])
  else
    let pg := showSection loading pg in
    let pg := set_analyzeBtn_disabled true pg in
    let '(pg, sent) :=
      match analyzeUrl rt url with
      | (sent, Return result) =>
          match displayResults rt result pg with
          | (pg, Return _) => (pg, sent)
          | (pg, Throw err) => (displayError (message err) pg, sent)
          end
      | (sent, Throw err) => (displayError (message err) pg, sent)
      end in
    (set_analyzeBtn_disabled false pg, sent).

(* EVENT LISTENERS *)

(** What the user does: the two listeners of the URL field and of the
    analyze button, the shared listener of the reset and retry buttons,
    and the typing that changes the field. A disabled button fires no
    click. *)
Inductive event : Type :=
| click_analyzeBtn
| keypress_urlInput (key : jsstring)
| click_resetBtn
| click_retryBtn
| type_urlInput (text : jsstring).

Definition dispatch (rt : Runtime) (e : event) (pg : Page) : Page * list Request :=
  match e with
  | click_analyzeBtn =>
      if analyzeBtn_disabled pg then (pg, []) else handleAnalyze rt pg
  | keypress_urlInput key =>
      if jsstring_eqb key (str "Enter") then handleAnalyze rt pg else (pg, [])
  | click_resetBtn | click_retryBtn => (reset pg, [])
  | type_urlInput text => (set_urlInput_value text pg, [])
  end.

(** A session: each event with the runtime as it is when the event is
    handled. *)
Fixpoint session (events : list (Runtime * event)) (pg : Page)
  : Page * list Request :=
  match events with
  | [] => (pg, [])
  | (rt, e) :: rest =>
      let '(pg', sent) := dispatch rt e pg in
      let '(pg'', sent') := session rest pg' in
      (pg'', sent ++ sent')
  end.

(** ** The vocabulary of the front-end properties *)

(** The request of [analyzeUrl] for a URL. *)
Definition api_request (url : jsstring) : Request :=
  mkRequest (str "POST") (VStr (str "/api/analyze")) [content_type_json]
            (Some (VObj [(str "url", VStr url)])).

Definition hidden (pg : Page) (section : panel) : bool :=
  match section with
  | inputSection => inputSection_hidden pg
  | loading => loading_hidden pg
  | resultsSection => resultsSection_hidden pg
  | error => error_hidden pg
  end.

(** [section] is the one section on display. *)
Definition shows (pg : Page) (section : panel) : Prop :=
  forall other, hidden pg other = false <-> other = section.

(** The text of the field is a URL that [handleAnalyze] lets through. *)
Definition accepted (url : jsstring) : Prop :=
  url <> [] /\ exists p, occurs_at (str "vinted.") url p.

(** The page between two events: the button is enabled, and the page
    shows the form, the results or an error, nothing else. *)
Definition at_rest (pg : Page) : Prop :=
  analyzeBtn_disabled pg = false /\
  (shows pg inputSection \/ shows pg resultsSection \/ shows pg error).

(** The body of a 200 answer of the handlers, as [response.json()] reads
    it back. *)
Definition api_body (rating : value) (assessment : jsstring)
           (title brand price image : value) : value :=
  VObj [ (str "rating", rating);
         (str "assessment", VStr assessment);
         (str "item", VObj [ (str "title", title);
                             (str "brand", brand);
                             (str "price", price);
                             (str "image", image) ]) ].

Definition text_or_null (v : value) : Prop := v = VNull \/ exists s, v = VStr s.

(** What is displayed for a field that is a text or [null]: the text, or
    the fallback when there is none or it is empty. *)
Definition shown (v : value) (fallback : jsstring) : jsstring :=
  match v with
  | VStr (c :: s) => c :: s
  | _ => fallback
  end.

(** A page as it may be loaded, the form on display. *)
Definition page_loaded : Page :=
  mkPage false true true true [] 1 false [] [] (Text []) [] [] [] [] [] [] [].

End App.

(** Runtimes for the examples of the front end: the answer of the
    endpoint to the request for the listing URL and its JSON reading; the
    rating 4 prints as the digit. *)
Definition scripted_api (answer : outcome Response) (jsons : list (jsstring * value))
  : Runtime :=
  mkRuntime
    (lookup jsons)
    (fun x => if PrimFloat.eqb x 4 then str "4" else str "NaN")
    (fun bytes => bytes)
    (fun _ => answer).

Definition api_result_text : jsstring :=
  strq "{`rating`:4,`assessment`:`Fair for wool.`,`item`:{`title`:`Wool Coat`,`brand`:null,`price`:null,`image`:null}}".

Definition api_result : value :=
  App.api_body (VNum 4) (str "Fair for wool.") (VStr (str "Wool Coat"))
               VNull VNull VNull.

Definition rt_api_ok : Runtime :=
  scripted_api (Return (mkResponse true 200 api_result_text))
               [(api_result_text, api_result)].

Definition api_error_text : jsstring :=
  strq "{`error`:`Failed to fetch Vinted listing`}".

Definition rt_api_error : Runtime :=
  scripted_api (Return (mkResponse false 500 api_error_text))
               [(api_error_text,
                 VObj [(str "error", VStr (str "Failed to fetch Vinted listing"))])].

Definition rt_api_down : Runtime :=
  scripted_api (Throw (TypeError (str "Failed to fetch"))) [].

(** The form with the listing URL typed in, spaces around it. *)
Definition page_typed : App.Page :=
  App.set_urlInput_value (str "  " ++ listing_url ++ str " ") App.page_loaded.

(* ================================================================= *)
(** * Auxiliary definitions of the proofs *)

Unset Implicit Arguments.

(** The prefix of the literal [pat] removed from [s], characters compared as
    the matcher compares them. *)
Fixpoint strip_lit (ic : bool) (pat s : jsstring) : option jsstring :=
  match pat, s with
  | [], _ => Some s
  | a :: pat', c :: s' => if chr_eqb ic a c then strip_lit ic pat' s' else None
  | _ :: _, [] => None
  end.

(** The controls of the page, which the display functions leave alone. *)
Definition same_controls (pg pg' : App.Page) : Prop :=
  App.urlInput_value pg' = App.urlInput_value pg /\
  App.urlInput_focus_calls pg' = App.urlInput_focus_calls pg /\
  App.analyzeBtn_disabled pg' = App.analyzeBtn_disabled pg.

(** The page after the answer: the results, or the error that the request
    or the display ran into. *)
Definition answered (rt : Runtime) (url : jsstring) (pg : App.Page) : App.Page :=
  match snd (App.analyzeUrl rt url) with
  | Return result =>
      match App.displayResults rt result pg with
      | (pg', Return _) => pg'
      | (pg', Throw err) => App.displayError (message err) pg'
      end
  | Throw err => App.displayError (message err) pg
  end.

(** [s'] is what is left of [s] after some prefix. *)
Definition suffix_of (s' s : jsstring) : Prop := exists p, s = p ++ s'.

(** Between the pattern characters of the two markers ([:] and the
    upper-case letters) and their case variants there is neither white space
    nor a digit. *)
Definition marker_char (a : N) : Prop := (58 <= a <= 90)%N.

(** [RATING:\s*\d] tried at the start of [s]: the digit and what follows. *)
Definition rating_here (s : jsstring) : option (N * jsstring) :=
  match strip_lit true (str "RATING:") s with
  | Some r =>
      match skip_while is_space r with
      | d :: r' => if is_digit d then Some (d, r') else None
      | [] => None
      end
  | None => None
  end.

(** What [ASSESSMENT:\s*([\s\S]+)] captures from the text [r] that follows
    the marker: all of it after the leading white space, or, when there is
    nothing else, the last white-space character (the one that [\s*] gives
    back to [[\s\S]+]). *)
Definition assessment_capture (r : jsstring) : jsstring :=
  match skip_while is_space r with
  | [] => [last r 0%N]
  | r' => r'
  end.

(** The leftmost position where [here] succeeds, with the text before it. *)
Fixpoint split_first {A : Type} (here : jsstring -> option A) (s : jsstring)
  : option (jsstring * A) :=
  match here s with
  | Some a => Some ([], a)
  | None =>
      match s with
      | [] => None
      | c :: t =>
          match split_first here t with
          | Some (p, a) => Some (c :: p, a)
          | None => None
          end
      end
  end.

(** The image pattern tried at the start of [s]: what follows the URL. *)
Definition image_here (s : jsstring) : option jsstring :=
  match strip_lit false image_prefix s with
  | Some (c :: t) =>
      if image_url_char c then Some (skip_while image_url_char t) else None
  | _ => None
  end.

(* ================================================================= *)
(** * Lemmas on strings *)

Lemma suffix_of_refl (s : jsstring) : suffix_of s s.
Proof. now exists []. Qed.

Lemma suffix_of_trans (a b c : jsstring) :
  suffix_of a b -> suffix_of b c -> suffix_of a c.
Proof.
  intros [p Hp] [q Hq]. exists (q ++ p). subst. now rewrite app_assoc.
Qed.

Lemma suffix_of_cons (c : N) (s' s : jsstring) :
  suffix_of s' s -> suffix_of s' (c :: s).
Proof. intros [p Hp]. exists (c :: p). now subst. Qed.

Lemma suffix_of_length (s' s : jsstring) :
  suffix_of s' s -> length s' <= length s.
Proof. intros [p ->]. rewrite length_app. lia. Qed.

Lemma firstn_suffix (s' s : jsstring) :
  suffix_of s' s -> firstn (length s - length s') s ++ s' = s.
Proof.
  intros [p ->]. rewrite length_app.
  replace (length p + length s' - length s') with (length p + 0) by lia.
  now rewrite firstn_app_2, firstn_O, app_nil_r.
Qed.

Lemma firstn_suffix_eq (p s' : jsstring) :
  firstn (length (p ++ s') - length s') (p ++ s') = p.
Proof.
  rewrite length_app.
  replace (length p + length s' - length s') with (length p + 0) by lia.
  now rewrite firstn_app_2, firstn_O, app_nil_r.
Qed.

Lemma app_eq_length (A : Type) (a b c d : list A) :
  a ++ b = c ++ d -> length a = length c -> a = c /\ b = d.
Proof.
  revert c. induction a as [|x a IH]; intros [|y c] H L; simpl in *;
    try discriminate; auto.
  injection H as -> H. injection L as L.
  destruct (IH c H L) as [-> ->]. auto.
Qed.

Lemma app_split_shorter (A : Type) (a b c d : list A) :
  a ++ b = c ++ d -> length c < length a ->
  exists u, u <> [] /\ a = c ++ u /\ d = u ++ b.
Proof.
  intros H L. destruct (app_eq_app _ _ _ _ H) as [u [[-> ->] | [-> ->]]].
  - exists u. split; auto. intros ->. rewrite app_nil_r in L. lia.
  - rewrite length_app in L. lia.
Qed.

Lemma skip_while_split (f : N -> bool) (s : jsstring) :
  exists p, s = p ++ skip_while f s /\ Forall (fun c => f c = true) p.
Proof.
  induction s as [|c s [p [Hp Fp]]]; simpl.
  - exists []. auto.
  - destruct (f c) eqn:E.
    + exists (c :: p). split; [now rewrite Hp at 1 | now constructor].
    + exists []. auto.
Qed.

Lemma skip_while_suffix (f : N -> bool) (s : jsstring) :
  suffix_of (skip_while f s) s.
Proof. destruct (skip_while_split f s) as [p [H _]]. now exists p. Qed.

Lemma skip_while_head (f : N -> bool) (s : jsstring) (c : N) (t : jsstring) :
  skip_while f s = c :: t -> f c = false.
Proof.
  induction s as [|x s IH]; simpl; [discriminate|].
  destruct (f x) eqn:E; auto. now intros [= -> _].
Qed.

Lemma skip_while_all (f : N -> bool) (ws s : jsstring) :
  Forall (fun c => f c = true) ws -> skip_while f (ws ++ s) = skip_while f s.
Proof. induction 1 as [|c ws Hc _ IH]; simpl; auto. now rewrite Hc. Qed.

Lemma skip_while_stop (f : N -> bool) (c : N) (t : jsstring) :
  f c = false -> skip_while f (c :: t) = c :: t.
Proof. simpl. now intros ->. Qed.

Lemma skip_while_idem (f : N -> bool) (s : jsstring) :
  skip_while f (skip_while f s) = skip_while f s.
Proof.
  destruct (skip_while f s) as [|c t] eqn:E; auto.
  apply skip_while_stop. eapply skip_while_head; eauto.
Qed.

Lemma skip_while_app (f : N -> bool) (a b : jsstring) :
  skip_while f (a ++ b) =
  match skip_while f a with
  | [] => skip_while f b
  | y => y ++ b
  end.
Proof.
  induction a as [|c a IH]; simpl; auto.
  destruct (f c); auto.
Qed.

Lemma marker_chars_rating : Forall marker_char (str "RATING:").
Proof. repeat constructor; unfold marker_char; simpl; lia. Qed.

Lemma marker_chars_assessment : Forall marker_char (str "ASSESSMENT:").
Proof. repeat constructor; unfold marker_char; simpl; lia. Qed.

Ltac bool_to_prop :=
  repeat match goal with
  | H : _ && _ = true |- _ => apply andb_true_iff in H; destruct H
  | H : _ || _ = true |- _ => apply orb_true_iff in H; destruct H
  | H : _ && _ = false |- _ => apply andb_false_iff in H; destruct H
  | H : _ || _ = false |- _ => apply orb_false_iff in H; destruct H
  | H : negb _ = true |- _ => apply negb_true_iff in H
  | H : negb _ = false |- _ => apply negb_false_iff in H
  | H : (_ <=? _)%N = true |- _ => apply N.leb_le in H
  | H : (_ <=? _)%N = false |- _ => apply N.leb_gt in H
  | H : (_ =? _)%N = true |- _ => apply N.eqb_eq in H
  | H : (_ =? _)%N = false |- _ => apply N.eqb_neq in H
  end.

Lemma chr_eqb_same_letter (a c : N) :
  marker_char a -> (chr_eqb true a c = true <-> same_letter a c).
Proof.
  unfold marker_char, chr_eqb, canonicalize, same_letter. intros Ha.
  destruct ((97 <=? a) && (a <=? 122))%N eqn:Ea; bool_to_prop; try lia;
  destruct ((97 <=? c) && (c <=? 122))%N eqn:Ec; bool_to_prop;
    rewrite N.eqb_eq; lia.
Qed.

Lemma same_letter_range (a c : N) :
  marker_char a -> same_letter a c -> (58 <= c <= 122)%N.
Proof. unfold marker_char, same_letter. lia. Qed.

Lemma range_not_space (c : N) : (58 <= c <= 122)%N -> is_space c = false.
Proof.
  intros H. unfold is_space.
  repeat (apply orb_false_iff; split);
    try (apply andb_false_iff);
    rewrite ?N.leb_gt, ?N.eqb_neq; lia.
Qed.

Lemma range_not_digit (c : N) : (58 <= c <= 122)%N -> is_digit c = false.
Proof.
  intros H. unfold is_digit. apply andb_false_iff. rewrite !N.leb_gt. lia.
Qed.

Lemma digit_not_space (d : N) : is_digit d = true -> is_space d = false.
Proof.
  unfold is_digit, is_space. intros H. bool_to_prop.
  repeat (apply orb_false_iff; split);
    try (apply andb_false_iff);
    rewrite ?N.leb_gt, ?N.eqb_neq; lia.
Qed.

Lemma is_marker_length (pat m : jsstring) :
  is_marker pat m -> length m = length pat.
Proof. induction 1; simpl; auto. Qed.

Lemma is_marker_range (pat m : jsstring) :
  Forall marker_char pat -> is_marker pat m ->
  Forall (fun c => (58 <= c <= 122)%N) m.
Proof.
  intros Hp Hm. induction Hm as [|a c pat m Hac _ IH]; constructor.
  - inversion Hp; subst. eapply same_letter_range; eauto.
  - inversion Hp; subst. auto.
Qed.

(** [strip_lit] under the [i] flag finds exactly the markers. *)
Lemma strip_lit_marker (pat s r : jsstring) :
  Forall marker_char pat ->
  (strip_lit true pat s = Some r <-> exists m, s = m ++ r /\ is_marker pat m).
Proof.
  intros Hp. revert s. induction Hp as [|a pat Ha Hp IH]; intros s.
  - simpl. split.
    + intros [= ->]. exists []. split; auto. constructor.
    + intros [m [-> Hm]]. inversion Hm. reflexivity.
  - destruct s as [|c s]; simpl.
    + split; [discriminate|]. intros [m [E Hm]]. inversion Hm; subst. discriminate.
    + destruct (chr_eqb true a c) eqn:E.
      * rewrite IH. apply chr_eqb_same_letter in E; auto. split.
        -- intros [m [-> Hm]]. exists (c :: m). split; auto. now constructor.
        -- intros [m [E' Hm]]. inversion Hm; subst. injection E' as -> ->.
           eauto.
      * split; [discriminate|]. intros [m [E' Hm]]. inversion Hm; subst.
        injection E' as -> ->.
        match goal with H : same_letter _ _ |- _ =>
          apply chr_eqb_same_letter in H; auto; congruence end.
Qed.

Lemma strip_lit_skipn (ic : bool) (pat s r : jsstring) :
  strip_lit ic pat s = Some r ->
  r = skipn (length pat) s /\ length pat <= length s.
Proof.
  revert s. induction pat as [|a pat IH]; intros s; simpl.
  - intros [= ->]. split; auto. lia.
  - destruct s as [|c s]; [discriminate|].
    destruct (chr_eqb ic a c); [|discriminate].
    intros H. destruct (IH _ H). split; auto. simpl. lia.
Qed.

(** When the literal fails on [u] it fails on [u ++ z] too, unless [u] ran
    out first: then the rest of the literal is tried on [z]. *)
Lemma strip_lit_app_none (ic : bool) (pat u z : jsstring) :
  strip_lit ic pat u = None ->
  strip_lit ic pat (u ++ z) = None \/
  exists pat1 pat2, pat = pat1 ++ pat2 /\ length pat1 = length u /\
                    strip_lit ic pat (u ++ z) = strip_lit ic pat2 z.
Proof.
  revert u. induction pat as [|a pat IH]; intros u; simpl; [discriminate|].
  destruct u as [|c u]; simpl.
  - intros _. right. exists [], (a :: pat). auto.
  - destruct (chr_eqb ic a c); auto. intros H.
    destruct (IH _ H) as [H1 | [p1 [p2 [-> [L E]]]]]; auto.
    right. exists (a :: p1), p2. simpl. auto.
Qed.

Lemma strip_lit_app_some (ic : bool) (pat u z r : jsstring) :
  strip_lit ic pat u = Some r -> strip_lit ic pat (u ++ z) = Some (r ++ z).
Proof.
  revert u. induction pat as [|a pat IH]; intros u; simpl.
  - now intros [= ->].
  - destruct u as [|c u]; [discriminate|]. simpl.
    destruct (chr_eqb ic a c); [apply IH | discriminate].
Qed.

(* ================================================================= *)
(** * Lemmas on the matcher *)

Section MatcherLemmas.

Variable ic : bool.
Variable inp : jsstring.

Lemma rmatch_lit (pat s : jsstring) (caps : list jsstring) (k : mcont) :
  rmatch ic inp (lit pat) s caps k =
  match strip_lit ic pat s with
  | Some r => k r caps
  | None => None
  end.
Proof.
  revert s. induction pat as [|a pat IH]; intros s; simpl; auto.
  destruct s as [|c s]; auto. destruct (chr_eqb ic a c); auto.
Qed.

(** A greedy star followed by something that cannot start with a character
    of the class never gives a character back. *)
Lemma star_greedy_disjoint (p : N -> bool) (s : jsstring)
      (caps : list jsstring) (k : mcont) :
  (forall c t, p c = true -> k (c :: t) caps = None) ->
  star_greedy p s caps k = k (skip_while p s) caps.
Proof.
  intros Hk. induction s as [|c s IH]; simpl; auto.
  destruct (p c) eqn:E; auto. rewrite IH.
  destruct (k (skip_while p s) caps); auto.
Qed.

(** The longest run is tried first. *)
Lemma star_greedy_first (p : N -> bool) (s : jsstring)
      (caps : list jsstring) (k : mcont) (res : mres) :
  k (skip_while p s) caps = Some res -> star_greedy p s caps k = Some res.
Proof.
  induction s as [|c s IH]; simpl; auto.
  destruct (p c); auto. intros H. now rewrite (IH H).
Qed.

Lemma star_greedy_inv (p : N -> bool) (s : jsstring)
      (caps : list jsstring) (k : mcont) (res : mres) :
  star_greedy p s caps k = Some res ->
  exists s', suffix_of s' s /\ k s' caps = Some res.
Proof.
  induction s as [|c s IH]; simpl.
  - intros H. exists []. split; auto using suffix_of_refl.
  - destruct (p c).
    + destruct (star_greedy p s caps k) eqn:E.
      * intros [= ->]. destruct (IH eq_refl) as [s' [Hs Hk]].
        exists s'. split; auto using suffix_of_cons.
      * intros H. exists (c :: s). split; auto using suffix_of_refl.
    + intros H. exists (c :: s). split; auto using suffix_of_refl.
Qed.

Lemma star_lazy_inv (p : N -> bool) (s : jsstring)
      (caps : list jsstring) (k : mcont) (res : mres) :
  star_lazy p s caps k = Some res ->
  exists s', suffix_of s' s /\ k s' caps = Some res.
Proof.
  induction s as [|c s IH]; simpl.
  - destruct (k [] caps) eqn:E; [|discriminate].
    intros [= ->]. exists []. split; auto using suffix_of_refl.
  - destruct (k (c :: s) caps) eqn:E.
    + intros [= ->]. exists (c :: s). split; auto using suffix_of_refl.
    + destruct (p c); [|discriminate]. intros H.
      destruct (IH H) as [s' [Hs Hk]]. exists s'. split; auto using suffix_of_cons.
Qed.

(** Whatever the pattern, a match goes on with the continuation on a suffix
    of the input. *)
Lemma rmatch_inv (r : regex) :
  forall (s : jsstring) (caps : list jsstring) (k : mcont) (res : mres),
    rmatch ic inp r s caps k = Some res ->
    exists s' caps', suffix_of s' s /\ k s' caps' = Some res.
Proof.
  induction r as [ | a | p | | r1 IH1 r2 IH2 | p | p | r IH | r IH ];
    intros s caps k res; simpl.
  - intros H. exists s, caps. auto using suffix_of_refl.
  - destruct s as [|c s]; [discriminate|].
    destruct (chr_eqb ic a c); [|discriminate].
    intros H. exists s, caps. split; auto. now exists [c].
  - destruct s as [|c s]; [discriminate|].
    destruct (p c); [|discriminate].
    intros H. exists s, caps. split; auto. now exists [c].
  - destruct (Nat.eqb (length s) (length inp)); [|discriminate].
    intros H. exists s, caps. auto using suffix_of_refl.
  - intros H. destruct (IH1 _ _ _ _ H) as [s1 [c1 [S1 H1]]].
    destruct (IH2 _ _ _ _ H1) as [s2 [c2 [S2 H2]]].
    exists s2, c2. split; auto. eapply suffix_of_trans; eauto.
  - intros H. destruct (star_greedy_inv _ _ _ _ _ H) as [s' [Hs Hk]]. eauto.
  - intros H. destruct (star_lazy_inv _ _ _ _ _ H) as [s' [Hs Hk]]. eauto.
  - destruct (rmatch ic inp r s caps k) eqn:E.
    + intros [= ->]. eauto.
    + intros H. exists s, caps. auto using suffix_of_refl.
  - intros H. destruct (IH _ _ _ _ H) as [s' [c' [Hs Hk]]]. eauto.
Qed.

Lemma match_here_suffix (r : regex) (s s' : jsstring) (caps : list jsstring) :
  match_here ic inp r s = Some (s', caps) -> suffix_of s' s.
Proof.
  unfold match_here. intros H.
  destruct (rmatch_inv _ _ _ _ _ H) as [s1 [c1 [Hs [= -> ->]]]]. exact Hs.
Qed.

(** What [search] finds is the leftmost position where the pattern
    matches. *)
Lemma search_some (r : regex) (s : jsstring) (m : MatchResult) :
  search ic inp r s = Some m ->
  s = before m ++ matched m ++ after m /\
  match_here ic inp r (matched m ++ after m) = Some (after m, groups m) /\
  (forall p q, s = p ++ q -> length p < length (before m) ->
               match_here ic inp r q = None).
Proof.
  assert (Here : forall q s' caps,
             match_here ic inp r q = Some (s', caps) ->
             let m := mkMatch [] (firstn (length q - length s') q) caps s' in
             q = before m ++ matched m ++ after m /\
             match_here ic inp r (matched m ++ after m) = Some (after m, groups m) /\
             (forall p q', q = p ++ q' -> length p < length (before m) ->
                           match_here ic inp r q' = None)).
  { intros q s' caps E. cbn [before matched after groups app].
    rewrite (firstn_suffix _ _ (match_here_suffix _ _ _ _ E)).
    split; [|split]; auto. intros p q' _ L. simpl in L. lia. }
  revert m. induction s as [|c s IH]; intros m; cbn [search].
  - destruct (match_here ic inp r []) as [[s' caps]|] eqn:E; [|discriminate].
    intros [= <-]. exact (Here _ _ _ E).
  - destruct (match_here ic inp r (c :: s)) as [[s' caps]|] eqn:E.
    + intros [= <-]. exact (Here _ _ _ E).
    + destruct (search ic inp r s) as [m'|] eqn:Es; [|discriminate].
      intros [= <-]. cbn [before matched after groups].
      destruct (IH _ eq_refl) as [H1 [H2 H3]].
      split; [|split]; auto.
      * simpl. now rewrite H1 at 1.
      * intros [|x p] q Hq L; simpl in *.
        -- now subst q.
        -- injection Hq as -> Hq. apply (H3 p q Hq). lia.
Qed.

Lemma search_none (r : regex) (s : jsstring) :
  search ic inp r s = None ->
  forall p q, s = p ++ q -> match_here ic inp r q = None.
Proof.
  induction s as [|c s IH]; simpl.
  - destruct (match_here ic inp r []) as [[s' caps]|] eqn:E; [discriminate|].
    intros _ [|x p] q Hq; simpl in Hq; [now subst q | discriminate].
  - destruct (match_here ic inp r (c :: s)) as [[s' caps]|] eqn:E; [discriminate|].
    destruct (search ic inp r s) as [m'|] eqn:Es; [discriminate|].
    intros _ [|x p] q Hq; simpl in *.
    + now subst q.
    + injection Hq as -> Hq. eapply IH; eauto.
Qed.

(** The leftmost matching position is where [search] stops. *)
Lemma search_at (r : regex) (p q s' : jsstring) (caps : list jsstring) :
  match_here ic inp r q = Some (s', caps) ->
  (forall p' q', p ++ q = p' ++ q' -> length p' < length p ->
                 match_here ic inp r q' = None) ->
  search ic inp r (p ++ q) =
  Some (mkMatch p (firstn (length q - length s') q) caps s').
Proof.
  intros Hq. induction p as [|c p IH]; intros Hmin; simpl.
  - destruct q as [|x q]; simpl; now rewrite Hq.
  - rewrite (Hmin [] (c :: p ++ q) eq_refl) by (simpl; lia).
    rewrite IH; auto.
    intros p' q' E L. apply (Hmin (c :: p') q'); simpl; [now rewrite E | lia].
Qed.

End MatcherLemmas.

(* ================================================================= *)
(** * The patterns of the reply parser, position by position *)

Lemma space_not_digit (c : N) : is_space c = true -> is_digit c = false.
Proof.
  intros H. destruct (is_digit c) eqn:E; auto.
  apply digit_not_space in E. congruence.
Qed.

Lemma firstn_cons_rest (d : N) (r : jsstring) :
  firstn (length (d :: r) - length r) (d :: r) = [d].
Proof. exact (firstn_suffix_eq [d] r). Qed.

Lemma match_here_rating (inp s : jsstring) :
  match_here true inp (source re_rating) s =
  match rating_here s with
  | Some (d, r') => Some (r', [[d]])
  | None => None
  end.
Proof.
  unfold match_here, rating_here. cbn [source re_rating rmatch].
  rewrite rmatch_lit. destruct (strip_lit true (str "RATING:") s) as [r|]; auto.
  rewrite star_greedy_disjoint.
  - destruct (skip_while is_space r) as [|d r']; auto.
    destruct (is_digit d); auto.
    now rewrite firstn_cons_rest.
  - intros c t Hc. now rewrite (space_not_digit _ Hc).
Qed.

Lemma match_here_rating_strip (inp s : jsstring) :
  match_here true inp (source re_rating_strip) s =
  match rating_here s with
  | Some (d, r') => Some (r', [])
  | None => None
  end.
Proof.
  unfold match_here, rating_here. cbn [source re_rating_strip rmatch].
  rewrite rmatch_lit. destruct (strip_lit true (str "RATING:") s) as [r|]; auto.
  rewrite star_greedy_disjoint.
  - destruct (skip_while is_space r) as [|d r']; auto.
    destruct (is_digit d); auto.
  - intros c t Hc. now rewrite (space_not_digit _ Hc).
Qed.

(** [rating_here] finds exactly the occurrences of the specification. *)
Lemma rating_here_spec (s : jsstring) (d : N) (rest : jsstring) :
  rating_here s = Some (d, rest) <-> rating_at s [] d rest.
Proof.
  unfold rating_here, rating_at. split.
  - destruct (strip_lit true (str "RATING:") s) as [r|] eqn:E; [|discriminate].
    apply strip_lit_marker in E; auto using marker_chars_rating.
    destruct E as [m [-> Hm]].
    destruct (skip_while_split is_space r) as [ws [Hr Hws]].
    destruct (skip_while is_space r) as [|d' r'] eqn:Es; [discriminate|].
    destruct (is_digit d') eqn:Ed; [|discriminate].
    intros [= -> ->]. exists m, ws. simpl. rewrite <- Hr. auto.
  - intros [m [ws [E [Hm [Hws Hd]]]]]. simpl in E. subst s.
    assert (S : strip_lit true (str "RATING:") (m ++ ws ++ d :: rest)
                = Some (ws ++ d :: rest)).
    { apply strip_lit_marker; eauto using marker_chars_rating. }
    rewrite S. rewrite skip_while_all by exact Hws.
    rewrite skip_while_stop by now apply digit_not_space.
    now rewrite Hd.
Qed.

(** An occurrence that starts inside [u] and is not complete there cannot be
    completed by a marker that follows [u]. *)
Lemma rating_here_app (u m z : jsstring) :
  u <> [] -> is_marker (str "RATING:") m ->
  rating_here u = None -> rating_here (u ++ m ++ z) = None.
Proof.
  intros Hu Hm. unfold rating_here.
  pose proof (is_marker_range _ _ marker_chars_rating Hm) as Rm.
  pose proof (is_marker_length _ _ Hm) as Lm.
  assert (Hhead : forall n, n < length m ->
            match skip_while is_space (skipn n m ++ z) with
            | d :: _ => if is_digit d then Some tt else None
            | [] => None
            end = None).
  { intros n Hn. destruct (skipn n m) as [|c t] eqn:Ec.
    - apply (f_equal (@length _)) in Ec. rewrite length_skipn in Ec.
      simpl in Ec. lia.
    - assert (Hc : (58 <= c <= 122)%N).
      { rewrite Forall_forall in Rm. apply Rm.
        rewrite <- (firstn_skipn n m). apply in_or_app. right.
        rewrite Ec. now left. }
      simpl app. rewrite skip_while_stop by now apply range_not_space.
      now rewrite range_not_digit. }
  destruct (strip_lit true (str "RATING:") u) as [r|] eqn:E.
  - rewrite (strip_lit_app_some _ _ _ (m ++ z) _ E), skip_while_app.
    destruct (skip_while is_space r) as [|d r'] eqn:Er.
    + intros _. assert (L0 : 0 < length m) by (rewrite Lm; simpl; lia).
      specialize (Hhead 0 L0). simpl skipn in Hhead.
      destruct (skip_while is_space (m ++ z)) as [|d t]; auto.
      destruct (is_digit d); [discriminate | auto].
    + simpl. destruct (is_digit d); [discriminate | auto].
  - intros _.
    destruct (strip_lit_app_none _ _ _ (m ++ z) E) as [-> | [p1 [p2 [Ep [Lp ->]]]]]; auto.
    destruct (strip_lit true p2 (m ++ z)) as [r|] eqn:E2; auto.
    apply strip_lit_skipn in E2. destruct E2 as [-> L2].
    assert (length p2 < length m).
    { apply (f_equal (@length _)) in Ep. rewrite length_app in Ep.
      rewrite Lm, Ep. destruct u; [congruence | simpl in Lp; lia]. }
    rewrite skipn_app. replace (length p2 - length m) with 0 by lia.
    simpl skipn. specialize (Hhead (length p2) H).
    destruct (skip_while is_space (skipn (length p2) m ++ z)) as [|d t]; auto.
    destruct (is_digit d); auto. discriminate.
Qed.

Lemma rating_at_here (text pre : jsstring) (d : N) (rest : jsstring) :
  rating_at text pre d rest <->
  exists q, text = pre ++ q /\ rating_here q = Some (d, rest).
Proof.
  split.
  - intros [m [ws [E H]]]. exists (m ++ ws ++ d :: rest). split; auto.
    apply rating_here_spec. exists m, ws. auto.
  - intros [q [E H]]. apply rating_here_spec in H.
    destruct H as [m [ws [Eq H]]]. exists m, ws. simpl in Eq. subst. auto.
Qed.

Section RatingSearch.

(** Both rating patterns match where [rating_here] does; they differ in
    what they capture. *)
Variable inp : jsstring.
Variable r : regex.
Variable caps_of : N -> list jsstring.
Hypothesis r_here : forall s,
  match_here true inp r s =
  match rating_here s with
  | Some (d, r') => Some (r', caps_of d)
  | None => None
  end.

Lemma search_first_rating (text pre : jsstring) (d : N) (rest : jsstring) :
  first_rating_at text pre d rest ->
  exists mt, search true inp r text = Some (mkMatch pre mt (caps_of d) rest).
Proof.
  intros [Hat Hmin]. apply rating_at_here in Hat. destruct Hat as [q [-> Hq]].
  eexists. apply search_at.
  - now rewrite r_here, Hq.
  - intros p' q' E L. rewrite r_here.
    destruct (rating_here q') as [[d' r']|] eqn:E'; auto.
    assert (A : rating_at (pre ++ q) p' d' r') by (apply rating_at_here; eauto).
    apply Hmin in A. lia.
Qed.

Lemma search_no_rating (text : jsstring) :
  ~ has_rating text -> search true inp r text = None.
Proof.
  intros Hno. destruct (search true inp r text) as [m|] eqn:E; auto.
  apply search_some in E. destruct E as [E1 [E2 _]]. rewrite r_here in E2.
  destruct (rating_here (matched m ++ after m)) as [[d r']|] eqn:E'; [|discriminate].
  exfalso. apply Hno. exists (before m), d, r'. apply rating_at_here. eauto.
Qed.

Lemma search_rating_digit (text : jsstring) (m : MatchResult) :
  search true inp r text = Some m ->
  exists d, is_digit d = true /\ groups m = caps_of d.
Proof.
  intros E. apply search_some in E. destruct E as [_ [E2 _]].
  rewrite r_here in E2.
  destruct (rating_here (matched m ++ after m)) as [[d r']|] eqn:E'; [|discriminate].
  injection E2 as _ <-. exists d. split; auto.
  apply rating_here_spec in E'. destruct E' as [? [? [_ [_ [_ Hd]]]]]. exact Hd.
Qed.

End RatingSearch.

Lemma parseInt_digit (d : N) :
  is_digit d = true -> parseInt [d] = Int (digit_value d).
Proof.
  intros H. unfold is_digit in H. bool_to_prop.
  assert (Hd : (d = 48 \/ d = 49 \/ d = 50 \/ d = 51 \/ d = 52 \/ d = 53 \/
                d = 54 \/ d = 55 \/ d = 56 \/ d = 57)%N) by lia.
  repeat (destruct Hd as [-> | Hd]; [reflexivity|]). subst. reflexivity.
Qed.

Lemma digit_value_range (d : N) :
  is_digit d = true -> (0 <= digit_value d <= 9)%Z.
Proof. unfold is_digit, digit_value. intros H. bool_to_prop. lia. Qed.

(** The rating of a reply, from the leftmost occurrence when there is one. *)
Lemma rating_of_first (text pre : jsstring) (d : N) (rest : jsstring) :
  first_rating_at text pre d rest ->
  rating (parseAIResponse text) = Int (clamp (digit_value d)).
Proof.
  intros H.
  destruct (search_first_rating text (source re_rating) (fun d => [[d]])
              (match_here_rating text) _ _ _ _ H) as [mt E].
  unfold parseAIResponse. unfold exec at 1.
  change (flag_i re_rating) with true. rewrite E.
  cbn [rating]. unfold group. cbn [groups nth Nat.sub].
  destruct H as [[m [ws [_ [_ [_ Hd]]]]] _].
  now rewrite (parseInt_digit _ Hd).
Qed.

Lemma rating_of_none (text : jsstring) :
  ~ has_rating text -> rating (parseAIResponse text) = Int 3.
Proof.
  intros H.
  pose proof (search_no_rating text (source re_rating) (fun d => [[d]])
                (match_here_rating text) _ H) as E.
  unfold parseAIResponse. unfold exec at 1.
  change (flag_i re_rating) with true. now rewrite E.
Qed.

Lemma rating_in_range (text : jsstring) :
  exists n, rating (parseAIResponse text) = Int n /\ (1 <= n <= 5)%Z.
Proof.
  unfold parseAIResponse. cbn [rating].
  destruct (exec re_rating text) as [m|] eqn:E.
  - unfold exec in E.
    destruct (search_rating_digit text (source re_rating) (fun d => [[d]])
                (match_here_rating text) _ _ E) as [d [Hd Hg]].
    unfold group. rewrite Hg. cbn [nth Nat.sub].
    rewrite (parseInt_digit _ Hd). eexists. split; [reflexivity|].
    simpl. lia.
  - exists 3%Z. split; [reflexivity | lia].
Qed.

Lemma parseGeminiResponse_eq (text : jsstring) :
  parseGeminiResponse text = parseAIResponse text.
Proof. reflexivity. Qed.

(** After a text free of rating occurrences, the first occurrence is the one
    that starts right there: none can straddle the boundary. *)
Lemma first_rating_after (pre m ws : jsstring) (d : N) (rest : jsstring) :
  is_marker (str "RATING:") m -> all_space ws -> is_digit d = true ->
  ~ has_rating pre ->
  first_rating_at (pre ++ m ++ ws ++ d :: rest) pre d rest.
Proof.
  intros Hm Hws Hd Hno. split.
  - exists m, ws. auto.
  - intros pre' d' rest' Hat.
    destruct (Nat.lt_ge_cases (length pre') (length pre)) as [L|L]; auto.
    exfalso. apply rating_at_here in Hat. destruct Hat as [q' [E Hq']].
    destruct (app_split_shorter _ _ _ _ _ E L) as [u [Hu [Epre Eq]]].
    destruct (rating_here u) as [[d2 r2]|] eqn:Eu.
    + apply Hno. exists pre', d2, r2. apply rating_at_here. eauto.
    + subst q'. rewrite (rating_here_app u m (ws ++ d :: rest) Hu Hm Eu) in Hq'.
      discriminate.
Qed.

Lemma plus_any_group (inp s : jsstring) (caps : list jsstring) :
  rmatch true inp (Grp (Plus any_char)) s caps (fun s' caps' => Some (s', caps')) =
  match s with
  | [] => None
  | _ => Some ([], caps ++ [s])
  end.
Proof.
  cbn [rmatch Plus]. destruct s as [|c t]; auto.
  cbn [any_char].
  rewrite (star_greedy_first any_char t caps _ ([], caps ++ [c :: t])); auto.
  assert (E : skip_while any_char t = []) by (induction t; auto).
  rewrite E. rewrite Nat.sub_0_r, firstn_all. reflexivity.
Qed.

Lemma star_space_then_rest (r : jsstring) (k : mcont) :
  (forall s caps, k s caps = match s with
                             | [] => None
                             | _ => Some ([], caps ++ [s])
                             end) ->
  star_greedy is_space r [] k =
  match r with
  | [] => None
  | _ => Some ([], [assessment_capture r])
  end.
Proof.
  intros Hk. unfold assessment_capture.
  induction r as [|c t IH]; cbn [star_greedy].
  - now rewrite Hk.
  - cbn [skip_while]. destruct (is_space c) eqn:Ec.
    + rewrite IH. destruct t as [|x t']; [now rewrite Hk|].
      destruct (skip_while is_space (x :: t')); reflexivity.
    + now rewrite Hk.
Qed.

Lemma match_here_assessment (inp s : jsstring) :
  match_here true inp (source re_assessment) s =
  match strip_lit true (str "ASSESSMENT:") s with
  | Some (c :: r) => Some ([], [assessment_capture (c :: r)])
  | _ => None
  end.
Proof.
  unfold match_here. cbn [source re_assessment].
  change (rmatch true inp (Seq ?a (Seq ?b ?c)) s [] ?k)
    with (rmatch true inp a s []
            (fun s' caps' => rmatch true inp (Seq b c) s' caps' k)).
  rewrite rmatch_lit.
  destruct (strip_lit true (str "ASSESSMENT:") s) as [r|]; auto.
  change (rmatch true inp (Seq (Star is_space) ?c) r [] ?k)
    with (star_greedy is_space r [] (fun s' caps' => rmatch true inp c s' caps' k)).
  rewrite star_space_then_rest; [now destruct r|].
  intros s' caps. apply plus_any_group.
Qed.

(** Whatever the pattern captures, trimming it gives the trimmed rest. *)
Lemma trim_assessment_capture (r : jsstring) :
  r <> [] -> trim (assessment_capture r) = trim r.
Proof.
  intros Hr. unfold assessment_capture, trim.
  destruct (skip_while_split is_space r) as [p [Hp Fp]].
  destruct (skip_while is_space r) as [|c t] eqn:E.
  - unfold trimStart at 2. rewrite E. rewrite app_nil_r in Hp. subst p.
    assert (Hl : is_space (last r 0%N) = true).
    { destruct r as [|x r']; [congruence|].
      rewrite Forall_forall in Fp. apply Fp.
      destruct (exists_last Hr) as [r0 [z Hz]]. rewrite Hz.
      rewrite last_last. apply in_or_app. right. now left. }
    unfold trimStart. simpl. now rewrite Hl.
  - unfold trimStart at 2. rewrite E. unfold trimStart. now rewrite <- E, skip_while_idem.
Qed.

Lemma marker_at_here (pat text pre rest : jsstring) :
  Forall marker_char pat ->
  (marker_at pat text pre rest <->
   exists q, text = pre ++ q /\ strip_lit true pat q = Some rest).
Proof.
  intros Hp. split.
  - intros [m [E Hm]]. exists (m ++ rest). split; auto.
    apply strip_lit_marker; eauto.
  - intros [q [E Hq]]. apply strip_lit_marker in Hq; auto.
    destruct Hq as [m [-> Hm]]. exists m. auto.
Qed.

Lemma exec_assessment_first (text pre rest : jsstring) :
  first_marker_at (str "ASSESSMENT:") text pre rest -> rest <> [] ->
  exists mt, exec re_assessment text =
             Some (mkMatch pre mt [assessment_capture rest] []).
Proof.
  intros [Hat Hmin] Hrest.
  apply marker_at_here in Hat; auto using marker_chars_assessment.
  destruct Hat as [q [-> Hq]]. unfold exec.
  change (flag_i re_assessment) with true.
  eexists. apply search_at.
  - rewrite match_here_assessment, Hq. destruct rest; [congruence | reflexivity].
  - intros p' q' E L. rewrite match_here_assessment.
    destruct (strip_lit true (str "ASSESSMENT:") q') as [r'|] eqn:E'; auto.
    assert (A : marker_at (str "ASSESSMENT:") (pre ++ q) p' r').
    { apply marker_at_here; eauto using marker_chars_assessment. }
    apply Hmin in A. lia.
Qed.

Lemma exec_assessment_none (text : jsstring) :
  ~ has_marker (str "ASSESSMENT:") text -> exec re_assessment text = None.
Proof.
  intros Hno. unfold exec. change (flag_i re_assessment) with true.
  destruct (search true text (source re_assessment) text) as [m|] eqn:E; auto.
  apply search_some in E. destruct E as [E1 [E2 _]].
  rewrite match_here_assessment in E2.
  destruct (strip_lit true (str "ASSESSMENT:") (matched m ++ after m))
    as [r|] eqn:E'; [|discriminate].
  exfalso. apply Hno. exists (before m), r.
  apply marker_at_here; eauto using marker_chars_assessment.
Qed.

(* ================================================================= *)
(** * The clean-up of the assessment *)

Lemma space_not_mark (c : N) : is_space c = true -> is_dash_or_colon c = false.
Proof.
  unfold is_space, is_dash_or_colon. intros H.
  apply orb_false_iff. rewrite !N.eqb_neq. bool_to_prop; lia.
Qed.

Lemma match_here_cleanup (s : jsstring) :
  match_here false s (source re_cleanup) s =
  match skip_while is_space s with
  | c :: t => if is_dash_or_colon c then Some (skip_while is_space t, []) else None
  | [] => None
  end.
Proof.
  unfold match_here. cbn [source re_cleanup rmatch].
  rewrite Nat.eqb_refl. rewrite star_greedy_disjoint.
  - destruct (skip_while is_space s) as [|c t]; auto.
    destruct (is_dash_or_colon c); auto.
    now apply star_greedy_first.
  - intros c t Hc. now rewrite (space_not_mark _ Hc).
Qed.

(** [^] holds at the first position only. *)
Lemma search_bol_later (inp : jsstring) (r : regex) (q : jsstring) :
  length q < length inp -> search false inp (Seq Bol r) q = None.
Proof.
  induction q as [|c q IH]; intros L; cbn [search].
  - unfold match_here. cbn [rmatch].
    destruct (Nat.eqb_spec (length (@nil N)) (length inp)) as [E|E]; auto.
    simpl in *. lia.
  - unfold match_here. cbn [rmatch].
    destruct (Nat.eqb_spec (length (c :: q)) (length inp)) as [E|E]; [lia|].
    rewrite IH; auto. simpl in L. lia.
Qed.

Lemma cleanup_spec (s : jsstring) :
  replace_first_empty re_cleanup s = spec_strip_mark s.
Proof.
  unfold replace_first_empty, exec, spec_strip_mark.
  change (flag_i re_cleanup) with false.
  pose proof (match_here_cleanup s) as M.
  change (source re_cleanup) with
    (Seq Bol (Seq (Star is_space) (Seq (Cls is_dash_or_colon) (Star is_space)))) in *.
  destruct s as [|x s]; cbn [search]; rewrite M.
  - reflexivity.
  - destruct (skip_while is_space (x :: s)) as [|c t]; cbn [before after app].
    + rewrite search_bol_later; auto.
    + destruct (is_dash_or_colon c); auto.
      rewrite search_bol_later; auto.
Qed.

Lemma trimEnd_cons (c : N) (u : jsstring) :
  trimEnd (c :: u) =
  match trimEnd u with
  | [] => if is_space c then [] else [c]
  | y => c :: y
  end.
Proof.
  unfold trimEnd. simpl rev. rewrite skip_while_app.
  destruct (skip_while is_space (rev u)) as [|z w]; simpl.
  - destruct (is_space c); reflexivity.
  - rewrite rev_app_distr. simpl.
    destruct (rev w ++ [z]) eqn:E; auto.
    destruct (rev w); discriminate.
Qed.

Lemma trimEnd_last (s t : jsstring) (c : N) :
  trimEnd s = t ++ [c] -> is_space c = false.
Proof.
  unfold trimEnd. intros H.
  apply (f_equal (@rev _)) in H. rewrite rev_involutive, rev_app_distr in H.
  simpl in H. eapply skip_while_head; eauto.
Qed.

Lemma trimEnd_head (c : N) (u : jsstring) :
  is_space c = false -> exists y, trimEnd (c :: u) = c :: y.
Proof.
  intros Hc. rewrite trimEnd_cons. destruct (trimEnd u); rewrite ?Hc; eauto.
Qed.

Lemma trim_is_trimmed (s : jsstring) : is_trimmed (trim s).
Proof.
  unfold trim, trimStart. split.
  - intros c t E. destruct (skip_while is_space s) as [|x u] eqn:Es.
    + discriminate.
    + pose proof (skip_while_head _ _ _ _ Es) as Hx.
      destruct (trimEnd_head x u Hx) as [y Ey]. rewrite Ey in E.
      now injection E as <- _.
  - intros t c E. eapply trimEnd_last; eauto.
Qed.

Lemma trimmed_skip (s : jsstring) : is_trimmed s -> skip_while is_space s = s.
Proof.
  intros [H _]. destruct s as [|c t]; auto.
  apply skip_while_stop. eapply H; eauto.
Qed.

(** Cleaning a trimmed text leaves a trimmed text. *)
Lemma strip_mark_trimmed (s : jsstring) :
  is_trimmed s -> is_trimmed (spec_strip_mark s).
Proof.
  intros Hs. unfold spec_strip_mark. rewrite (trimmed_skip _ Hs).
  destruct s as [|c t]; auto.
  destruct (is_dash_or_colon c); auto. split.
  - intros x u E. eapply skip_while_head; eauto.
  - intros u x E. destruct (skip_while_suffix is_space t) as [p Hp].
    rewrite E in Hp. destruct Hs as [_ Hl].
    apply (Hl (c :: p ++ u) x). rewrite Hp. simpl. now rewrite app_assoc.
Qed.

(** On a trimmed text the clean-up removes at most the first character and
    the white space after it. *)
Lemma strip_mark_on_trimmed (s : jsstring) :
  is_trimmed s ->
  spec_strip_mark s =
  match s with
  | c :: t => if is_dash_or_colon c then trimStart t else s
  | [] => []
  end.
Proof.
  intros Hs. unfold spec_strip_mark. rewrite (trimmed_skip _ Hs).
  destruct s; reflexivity.
Qed.

(* ================================================================= *)
(** * The assessment of a reply *)

Lemma strip_first_rating (text pre : jsstring) (d : N) (rest : jsstring) :
  first_rating_at text pre d rest ->
  replace_first_empty re_rating_strip text = pre ++ rest.
Proof.
  intros H. unfold replace_first_empty, exec.
  change (flag_i re_rating_strip) with true.
  destruct (search_first_rating text (source re_rating_strip) (fun _ => [])
              (match_here_rating_strip text) _ _ _ _ H) as [mt E].
  now rewrite E.
Qed.

Lemma strip_no_rating (text : jsstring) :
  ~ has_rating text -> replace_first_empty re_rating_strip text = text.
Proof.
  intros H. unfold replace_first_empty, exec.
  change (flag_i re_rating_strip) with true.
  now rewrite (search_no_rating text (source re_rating_strip) (fun _ => [])
                 (match_here_rating_strip text) _ H).
Qed.

Lemma assessment_unfold (text : jsstring) :
  assessment (parseAIResponse text) =
  spec_strip_mark
    (match exec re_assessment text with
     | Some m => trim (group 1 m)
     | None => trim (replace_first_empty re_rating_strip text)
     end).
Proof. unfold parseAIResponse. cbn [assessment]. apply cleanup_spec. Qed.

Lemma assessment_after_marker (text pre rest : jsstring) :
  first_marker_at (str "ASSESSMENT:") text pre rest -> rest <> [] ->
  assessment (parseAIResponse text) = spec_strip_mark (trim rest).
Proof.
  intros H Hr. rewrite assessment_unfold.
  destruct (exec_assessment_first _ _ _ H Hr) as [mt ->].
  unfold group. cbn [groups nth Nat.sub].
  now rewrite trim_assessment_capture.
Qed.

Lemma assessment_is_trimmed (text : jsstring) :
  is_trimmed (assessment (parseAIResponse text)).
Proof.
  rewrite assessment_unfold. apply strip_mark_trimmed.
  destruct (exec re_assessment text); apply trim_is_trimmed.
Qed.

(* ================================================================= *)
(** * Deciding where the first occurrence is *)

Lemma split_first_some (A : Type) (here : jsstring -> option A)
      (s p : jsstring) (a : A) :
  split_first here s = Some (p, a) ->
  exists q, s = p ++ q /\ here q = Some a /\
            forall p' q', s = p' ++ q' -> length p' < length p -> here q' = None.
Proof.
  revert p. induction s as [|c s IH]; intros p; cbn [split_first].
  - destruct (here []) eqn:E; [|discriminate]. intros [= <- <-].
    exists []. split; [|split]; auto. intros p' q' _ L. simpl in L. lia.
  - destruct (here (c :: s)) eqn:E.
    + intros [= <- <-]. exists (c :: s). split; [|split]; auto.
      intros p' q' _ L. simpl in L. lia.
    + destruct (split_first here s) as [[p0 a0]|] eqn:Es; [|discriminate].
      intros [= <- <-]. destruct (IH _ eq_refl) as [q [-> [Hq Hmin]]].
      exists q. split; [|split]; auto.
      intros [|x p'] q' Hq' L; simpl in *.
      * now subst q'.
      * injection Hq' as -> Hq'. apply (Hmin p' q' Hq'). lia.
Qed.

Lemma split_first_none (A : Type) (here : jsstring -> option A) (s : jsstring) :
  split_first here s = None -> forall p q, s = p ++ q -> here q = None.
Proof.
  induction s as [|c s IH]; cbn [split_first].
  - destruct (here []) eqn:E; [discriminate|].
    intros _ [|x p] q Hq; simpl in Hq; [now subst q | discriminate].
  - destruct (here (c :: s)) eqn:E; [discriminate|].
    destruct (split_first here s) as [[p0 a0]|] eqn:Es; [discriminate|].
    intros _ [|x p] q Hq; simpl in Hq.
    + now subst q.
    + injection Hq as -> Hq. eapply IH; eauto.
Qed.

Lemma first_rating_decide (text pre : jsstring) (d : N) (rest : jsstring) :
  split_first rating_here text = Some (pre, (d, rest)) ->
  first_rating_at text pre d rest.
Proof.
  intros H. apply split_first_some in H. destruct H as [q [E [Hq Hmin]]]. split.
  - apply rating_at_here. eauto.
  - intros pre' d' rest' Hat. apply rating_at_here in Hat.
    destruct Hat as [q' [E' Hq']].
    destruct (Nat.lt_ge_cases (length pre') (length pre)) as [L|L]; auto.
    rewrite (Hmin _ _ E' L) in Hq'. discriminate.
Qed.

Lemma no_rating_decide (text : jsstring) :
  split_first rating_here text = None -> ~ has_rating text.
Proof.
  intros H [pre [d [rest Hat]]]. apply rating_at_here in Hat.
  destruct Hat as [q [E Hq]]. rewrite (split_first_none _ _ _ H _ _ E) in Hq.
  discriminate.
Qed.

Lemma has_rating_decide (text pre : jsstring) (d : N) (rest : jsstring) :
  split_first rating_here text = Some (pre, (d, rest)) -> has_rating text.
Proof. intros H. apply first_rating_decide in H. destruct H. now exists pre, d, rest. Qed.

Lemma first_marker_decide (pat text pre rest : jsstring) :
  Forall marker_char pat ->
  split_first (strip_lit true pat) text = Some (pre, rest) ->
  first_marker_at pat text pre rest.
Proof.
  intros Hp H. apply split_first_some in H. destruct H as [q [E [Hq Hmin]]]. split.
  - apply marker_at_here; eauto.
  - intros pre' rest' Hat. apply marker_at_here in Hat; auto.
    destruct Hat as [q' [E' Hq']].
    destruct (Nat.lt_ge_cases (length pre') (length pre)) as [L|L]; auto.
    rewrite (Hmin _ _ E' L) in Hq'. discriminate.
Qed.

Lemma no_marker_decide (pat text : jsstring) :
  Forall marker_char pat ->
  split_first (strip_lit true pat) text = None -> ~ has_marker pat text.
Proof.
  intros Hp H [pre [rest Hat]]. apply marker_at_here in Hat; auto.
  destruct Hat as [q [E Hq]]. rewrite (split_first_none _ _ _ H _ _ E) in Hq.
  discriminate.
Qed.

(** A text has no rating occurrence, or it has a leftmost one; likewise for
    a marker. *)
Lemma rating_cases (text : jsstring) :
  ~ has_rating text \/ exists pre d rest, first_rating_at text pre d rest.
Proof.
  destruct (split_first rating_here text) as [[pre [d rest]]|] eqn:E.
  - right. exists pre, d, rest. now apply first_rating_decide.
  - left. now apply no_rating_decide.
Qed.

Lemma has_rating_first (text : jsstring) :
  has_rating text -> exists pre d rest, first_rating_at text pre d rest.
Proof. intros H. destruct (rating_cases text) as [Hno|Hex]; [contradiction | exact Hex]. Qed.

Lemma marker_cases (pat text : jsstring) :
  Forall marker_char pat ->
  ~ has_marker pat text \/ exists pre rest, first_marker_at pat text pre rest.
Proof.
  intros Hp. destruct (split_first (strip_lit true pat) text) as [[pre rest]|] eqn:E.
  - right. exists pre, rest. now apply first_marker_decide.
  - left. now apply no_marker_decide.
Qed.

Lemma has_marker_first (pat text : jsstring) :
  Forall marker_char pat -> has_marker pat text ->
  exists pre rest, first_marker_at pat text pre rest.
Proof.
  intros Hp H. destruct (marker_cases pat text Hp) as [Hno|Hex];
    [contradiction | exact Hex].
Qed.

(** The leftmost occurrence is unique. *)
Lemma first_marker_unique (pat text pre rest pre' rest' : jsstring) :
  first_marker_at pat text pre rest -> first_marker_at pat text pre' rest' ->
  pre = pre' /\ rest = rest'.
Proof.
  intros [[m [E Hm]] Hmin] [[m' [E' Hm']] Hmin'].
  assert (L : length pre = length pre').
  { apply Nat.le_antisymm; [apply (Hmin pre' rest') | apply (Hmin' pre rest)];
      eexists; eauto. }
  rewrite E in E'. destruct (app_eq_length _ _ _ _ _ E' L) as [-> E2].
  split; auto.
  assert (L2 : length m = length m').
  { rewrite (is_marker_length _ _ Hm), (is_marker_length _ _ Hm'). reflexivity. }
  now destruct (app_eq_length _ _ _ _ _ E2 L2).
Qed.

(* ================================================================= *)
(** * The reply parser: the properties *)

(** C1. For every reply text, both parsers return a rating that is an
    integer between 1 and 5: it is 3 when the text has no [RATING:] marker
    (in any case) followed, after optional white space, by a digit, and
    otherwise it is the digit of the leftmost such occurrence clamped with
    [min] and [max] into [1,5]. *)
Theorem C1_rating_clamped (text : jsstring) :
  (exists n, rating (parseAIResponse text) = Int n /\ (1 <= n <= 5)%Z) /\
  (~ has_rating text -> rating (parseAIResponse text) = Int 3) /\
  (has_rating text -> exists pre d rest, first_rating_at text pre d rest) /\
  (forall pre d rest,
      first_rating_at text pre d rest ->
      rating (parseAIResponse text) = Int (Z.min 5 (Z.max 1 (digit_value d)))) /\
  rating (parseGeminiResponse text) = rating (parseAIResponse text).
Proof.
  split; [apply rating_in_range|].
  split; [apply rating_of_none|].
  split; [apply has_rating_first|].
  split; [|reflexivity].
  intros pre d rest H. exact (rating_of_first _ _ _ _ H).
Qed.

(** The examples of C1: 0 becomes 1, 7 becomes 5, a missing marker gives 3. *)
Example rating_examples :
  rating (parseAIResponse (str "RATING: 0")) = Int 1 /\
  rating (parseAIResponse (str "rating:7 ASSESSMENT: Too pricey.")) = Int 5 /\
  rating (parseAIResponse (str "A fair price, I would say.")) = Int 3 /\
  rating (parseGeminiResponse (str "RATING: six")) = Int 3.
Proof. repeat split; vm_compute; reflexivity. Qed.

(** C10. Only the first digit after the marker counts: whatever follows it
    (more digits included), the rating is that digit clamped. [RATING: 42]
    gives 4. *)
Theorem C10_first_digit_only (pre m ws : jsstring) (d : N) (rest : jsstring) :
  is_marker (str "RATING:") m -> all_space ws -> is_digit d = true ->
  ~ has_rating pre ->
  rating (parseAIResponse (pre ++ m ++ ws ++ d :: rest))
  = Int (Z.min 5 (Z.max 1 (digit_value d))) /\
  rating (parseGeminiResponse (pre ++ m ++ ws ++ d :: rest))
  = Int (Z.min 5 (Z.max 1 (digit_value d))).
Proof.
  intros Hm Hws Hd Hno.
  pose proof (first_rating_after pre m ws d rest Hm Hws Hd Hno) as H.
  split; exact (rating_of_first _ _ _ _ H).
Qed.

Lemma C10_first_digit_only_witness :
  rating (parseAIResponse (str "RATING: 42")) = Int 4 /\
  rating (parseGeminiResponse (str "RATING: 42")) = Int 4.
Proof.
  apply (C10_first_digit_only [] (str "RATING:") (str " ") 52 (str "2")).
  - repeat constructor.
  - repeat constructor.
  - reflexivity.
  - apply no_rating_decide. reflexivity.
Defined.

(** C3, as the code has it. For a reply with no [ASSESSMENT:] marker the
    assessment is the text with its leftmost [RATING:\s*\d] occurrence cut
    out (later occurrences stay), trimmed, with one leading [-] or [:] and
    the white space after it removed; a text with no such occurrence is
    only trimmed and cleaned. *)
Theorem C3_first_rating_stripped (text : jsstring) :
  ~ has_marker (str "ASSESSMENT:") text ->
  (forall pre d rest,
      first_rating_at text pre d rest ->
      assessment (parseAIResponse text) = spec_strip_mark (trim (pre ++ rest)) /\
      assessment (parseGeminiResponse text) = spec_strip_mark (trim (pre ++ rest))) /\
  (~ has_rating text ->
      assessment (parseAIResponse text) = spec_strip_mark (trim text) /\
      assessment (parseGeminiResponse text) = spec_strip_mark (trim text)).
Proof.
  intros Hno. split.
  - intros pre d rest H. change (parseGeminiResponse text) with (parseAIResponse text).
    rewrite assessment_unfold.
    rewrite (exec_assessment_none _ Hno), (strip_first_rating _ _ _ _ H). auto.
  - intros H. change (parseGeminiResponse text) with (parseAIResponse text).
    rewrite assessment_unfold.
    rewrite (exec_assessment_none _ Hno), (strip_no_rating _ H). auto.
Qed.

Lemma C3_first_rating_stripped_witness :
  assessment (parseAIResponse (str "RATING: 3 ok RATING: 4"))
  = spec_strip_mark (trim ([] ++ str " ok RATING: 4")) /\
  assessment (parseGeminiResponse (str "RATING: 3 ok RATING: 4"))
  = spec_strip_mark (trim ([] ++ str " ok RATING: 4")).
Proof.
  assert (Hno : ~ has_marker (str "ASSESSMENT:") (str "RATING: 3 ok RATING: 4")).
  { apply no_marker_decide; [exact marker_chars_assessment | reflexivity]. }
  apply (proj1 (C3_first_rating_stripped (str "RATING: 3 ok RATING: 4") Hno)
               [] 51%N (str " ok RATING: 4")).
  apply first_rating_decide. reflexivity.
Defined.

(** C3 as stated fails: a second occurrence of [RATING: <digit>] survives. *)
Lemma C3_counterexample :
  ~ has_marker (str "ASSESSMENT:") (str "RATING: 3 ok RATING: 4") /\
  assessment (parseAIResponse (str "RATING: 3 ok RATING: 4")) = str "ok RATING: 4" /\
  has_rating (assessment (parseAIResponse (str "RATING: 3 ok RATING: 4"))).
Proof.
  split; [|split].
  - apply no_marker_decide; [exact marker_chars_assessment | reflexivity].
  - reflexivity.
  - apply (has_rating_decide _ (str "ok ") 52%N []). reflexivity.
Qed.

(** A marker that ends the text gives the pattern nothing to capture, here
    or at any other position. *)
Lemma exec_assessment_at_end (text pre : jsstring) :
  first_marker_at (str "ASSESSMENT:") text pre [] ->
  exec re_assessment text = None.
Proof.
  intros [[m0 [E0 Hm0]] Hmin]. unfold exec. change (flag_i re_assessment) with true.
  destruct (search true text (source re_assessment) text) as [m|] eqn:E; auto.
  exfalso. apply search_some in E. destruct E as [E1 [E2 _]].
  rewrite match_here_assessment in E2.
  destruct (strip_lit true (str "ASSESSMENT:") (matched m ++ after m))
    as [[|c r]|] eqn:E'; try discriminate.
  assert (A : marker_at (str "ASSESSMENT:") text (before m) (c :: r)).
  { apply marker_at_here; eauto using marker_chars_assessment. }
  pose proof (Hmin _ _ A) as L. destruct A as [m1 [E3 Hm1]].
  apply is_marker_length in Hm0, Hm1.
  apply (f_equal (@length _)) in E0, E3.
  rewrite !length_app in E0, E3. cbn [length] in E0, E3. lia.
Qed.

(** C4, as the code has it. For a reply whose leftmost [ASSESSMENT:] marker
    is followed by at least one character, the assessment is the text after
    that marker, trimmed, with one leading [-] or [:] and the white space
    after it removed. When that marker ends the text, the pattern does not
    match and the reply is read as one without marker: its leftmost
    [RATING:\s*\d] occurrence is cut out, if it has one, and the text is
    trimmed and cleaned. *)
Theorem C4_assessment_after_marker (text pre rest : jsstring) :
  first_marker_at (str "ASSESSMENT:") text pre rest ->
  (rest <> [] ->
   assessment (parseAIResponse text) = spec_strip_mark (trim rest) /\
   assessment (parseGeminiResponse text) = spec_strip_mark (trim rest)) /\
  (rest = [] ->
   exec re_assessment text = None /\
   (forall rpre d rrest,
       first_rating_at text rpre d rrest ->
       assessment (parseAIResponse text) = spec_strip_mark (trim (rpre ++ rrest)) /\
       assessment (parseGeminiResponse text) = spec_strip_mark (trim (rpre ++ rrest))) /\
   (~ has_rating text ->
       assessment (parseAIResponse text) = spec_strip_mark (trim text) /\
       assessment (parseGeminiResponse text) = spec_strip_mark (trim text))).
Proof.
  intros H. split.
  - intros Hr. split; exact (assessment_after_marker _ _ _ H Hr).
  - intros ->. pose proof (exec_assessment_at_end text pre H) as Hnone.
    split; [exact Hnone|]. split.
    + intros rpre d rrest Hrt.
      change (parseGeminiResponse text) with (parseAIResponse text).
      rewrite assessment_unfold, Hnone, (strip_first_rating _ _ _ _ Hrt). auto.
    + intros Hno. change (parseGeminiResponse text) with (parseAIResponse text).
      rewrite assessment_unfold, Hnone, (strip_no_rating _ Hno). auto.
Qed.

Lemma C4_assessment_after_marker_witness :
  (assessment (parseAIResponse (str "RATING: 7 ASSESSMENT: - Too pricey. "))
   = spec_strip_mark (trim (str " - Too pricey. ")) /\
   assessment (parseGeminiResponse (str "RATING: 7 ASSESSMENT: - Too pricey. "))
   = spec_strip_mark (trim (str " - Too pricey. "))) /\
  (assessment (parseAIResponse (str "RATING: 2 so-so ASSESSMENT:"))
   = spec_strip_mark (trim ([] ++ str " so-so ASSESSMENT:")) /\
   assessment (parseGeminiResponse (str "RATING: 2 so-so ASSESSMENT:"))
   = spec_strip_mark (trim ([] ++ str " so-so ASSESSMENT:"))).
Proof.
  split.
  - apply (proj1 (C4_assessment_after_marker
                    (str "RATING: 7 ASSESSMENT: - Too pricey. ")
                    (str "RATING: 7 ") (str " - Too pricey. ")
                    ltac:(apply first_marker_decide;
                          [exact marker_chars_assessment | reflexivity]))).
    discriminate.
  - apply (proj1 (proj2 (proj2 (C4_assessment_after_marker
                    (str "RATING: 2 so-so ASSESSMENT:")
                    (str "RATING: 2 so-so ") []
                    ltac:(apply first_marker_decide;
                          [exact marker_chars_assessment | reflexivity])) eq_refl))
                [] 50%N (str " so-so ASSESSMENT:")).
    apply first_rating_decide. reflexivity.
Defined.

(** C4 as stated fails when the marker ends the text: nothing follows it,
    and the assessment is not the empty text but the whole reply. *)
Lemma C4_counterexample :
  first_marker_at (str "ASSESSMENT:") (str "Fine. ASSESSMENT:") (str "Fine. ") [] /\
  spec_strip_mark (trim []) = [] /\
  assessment (parseAIResponse (str "Fine. ASSESSMENT:")) = str "Fine. ASSESSMENT:".
Proof.
  split; [|split].
  - apply first_marker_decide; [exact marker_chars_assessment | reflexivity].
  - reflexivity.
  - reflexivity.
Qed.

(** C5, as the code has it. The assessment of every reply is trimmed: it
    neither starts nor ends with white space. (It can be empty.) *)
Theorem C5_assessment_trimmed (text : jsstring) :
  is_trimmed (assessment (parseAIResponse text)) /\
  is_trimmed (assessment (parseGeminiResponse text)).
Proof.
  split; apply assessment_is_trimmed.
Qed.

(** C5 as stated fails: a reply that is only a rating line has an empty
    assessment. *)
Lemma C5_counterexample :
  assessment (parseAIResponse (str "RATING: 3")) = [] /\
  assessment (parseGeminiResponse (str "RATING: 3")) = [].
Proof. split; reflexivity. Qed.

(* ================================================================= *)
(** * Image extraction *)

Lemma jsstring_eqb_eq (a b : jsstring) : jsstring_eqb a b = true <-> a = b.
Proof.
  unfold jsstring_eqb. destruct (list_eq_dec N.eq_dec a b); split; auto; discriminate.
Qed.

Lemma jsstring_eqb_refl (a : jsstring) : jsstring_eqb a a = true.
Proof. now apply jsstring_eqb_eq. Qed.

Lemma jsstring_eqb_sym (a b : jsstring) : jsstring_eqb a b = jsstring_eqb b a.
Proof.
  destruct (jsstring_eqb a b) eqn:E, (jsstring_eqb b a) eqn:E'; auto.
  - apply jsstring_eqb_eq in E. subst. rewrite jsstring_eqb_refl in E'. discriminate.
  - apply jsstring_eqb_eq in E'. subst. rewrite jsstring_eqb_refl in E. discriminate.
Qed.

Lemma In_firstn (A : Type) (n : nat) (l : list A) (x : A) :
  In x (firstn n l) -> In x l.
Proof.
  revert l. induction n as [|n IH]; intros [|y l]; simpl; try tauto.
  intros [H|H]; auto.
Qed.

Lemma NoDup_firstn (A : Type) (n : nat) (l : list A) :
  NoDup l -> NoDup (firstn n l).
Proof.
  revert l. induction n as [|n IH]; intros l H; simpl; [constructor|].
  destruct l as [|y l]; [constructor|].
  inversion H as [|? ? Hy Hl]; subst. constructor; auto.
  intros Hin. apply In_firstn in Hin. contradiction.
Qed.

Lemma filter_filter (A : Type) (f g : A -> bool) (l : list A) :
  filter f (filter g l) = filter (fun x => g x && f x) l.
Proof.
  induction l as [|x l IH]; simpl; auto.
  destruct (g x); simpl; [destruct (f x)|]; now rewrite IH.
Qed.

(** Building a [Set] value by value keeps first occurrences, in order. *)
Lemma Set_from_acc (l acc : list jsstring) :
  fold_left Set_add l acc =
  acc ++ filter (fun y => negb (existsb (jsstring_eqb y) acc)) (spec_dedup l).
Proof.
  revert acc. induction l as [|x l IH]; intros acc; simpl.
  - now rewrite app_nil_r.
  - rewrite IH. unfold Set_add. destruct (existsb (jsstring_eqb x) acc) eqn:E; simpl.
    + f_equal. rewrite filter_filter. apply filter_ext. intros y.
      destruct (jsstring_eqb x y) eqn:Exy; simpl; auto.
      apply jsstring_eqb_eq in Exy. subst y. now rewrite E.
    + rewrite <- app_assoc. simpl. f_equal. f_equal.
      rewrite filter_filter. apply filter_ext. intros y.
      rewrite existsb_app. simpl. rewrite orb_false_r, negb_orb.
      rewrite (jsstring_eqb_sym y x). apply andb_comm.
Qed.

Lemma Set_from_spec (l : list jsstring) : Set_from l = spec_dedup l.
Proof. unfold Set_from. rewrite Set_from_acc. simpl. apply filter_true. Qed.

Lemma spec_dedup_In (l : list jsstring) (x : jsstring) :
  In x (spec_dedup l) <-> In x l.
Proof.
  induction l as [|y l IH]; simpl; [tauto|].
  rewrite filter_In, IH. split.
  - intros [H|[H _]]; auto.
  - intros [H|H]; auto.
    destruct (jsstring_eqb y x) eqn:E.
    + apply jsstring_eqb_eq in E. auto.
    + right. auto.
Qed.

Lemma spec_dedup_NoDup (l : list jsstring) : NoDup (spec_dedup l).
Proof.
  induction l as [|y l IH]; simpl; constructor.
  - rewrite filter_In. intros [_ H]. now rewrite jsstring_eqb_refl in H.
  - now apply NoDup_filter.
Qed.

Lemma filter_eq_app_cons (A : Type) (f : A -> bool) (l u v : list A) (x : A) :
  filter f l = u ++ x :: v ->
  exists l1 l2, l = l1 ++ x :: l2 /\ filter f l1 = u /\ f x = true.
Proof.
  revert u. induction l as [|h t IH]; intros u; simpl.
  - destruct u; discriminate.
  - destruct (f h) eqn:E.
    + destruct u as [|y u]; simpl.
      * intros [= -> _]. exists [], t. simpl. auto.
      * intros [= -> H]. destruct (IH _ H) as [l1 [l2 [-> [Hf Hx]]]].
        exists (y :: l1), l2. simpl. rewrite E, Hf. auto.
    + intros H. destruct (IH _ H) as [l1 [l2 [-> [Hf Hx]]]].
      exists (h :: l1), l2. simpl. rewrite E. auto.
Qed.

(** First-seen order: what stands before [x] in the result is what was seen
    before the first [x] in the list. *)
Lemma spec_dedup_first_seen (l u v : list jsstring) (x : jsstring) :
  spec_dedup l = u ++ x :: v ->
  exists a b, l = a ++ x :: b /\ ~ In x a /\ (forall z, In z u <-> In z a).
Proof.
  revert u v. induction l as [|h t IH]; intros u v; simpl.
  - destruct u; discriminate.
  - destruct u as [|y u]; simpl.
    + intros [= -> _]. exists [], t. simpl. tauto.
    + intros [= -> H].
      destruct (filter_eq_app_cons _ _ _ _ _ _ H) as [l1 [l2 [E [Hf Hx]]]].
      destruct (IH _ _ E) as [a [b [-> [Hna Hiff]]]].
      apply negb_true_iff in Hx.
      exists (y :: a), b. simpl. split; [reflexivity|]. split.
      * intros [->|Hin]; [now rewrite jsstring_eqb_refl in Hx | contradiction].
      * intros z. rewrite <- Hf, filter_In, Hiff.
        destruct (jsstring_eqb y z) eqn:Ez.
        -- apply jsstring_eqb_eq in Ez. simpl. intuition (auto; discriminate).
        -- simpl. intuition auto.
Qed.

Lemma match_here_image (inp s : jsstring) :
  match_here false inp (source re_image) s =
  match image_here s with
  | Some r => Some (r, [])
  | None => None
  end.
Proof.
  unfold match_here, image_here. cbn [source re_image].
  change (rmatch false inp (Seq ?a ?b) s [] ?k)
    with (rmatch false inp a s [] (fun s' caps' => rmatch false inp b s' caps' k)).
  rewrite rmatch_lit. fold image_prefix.
  destruct (strip_lit false image_prefix s) as [[|c t]|]; auto.
  cbn [rmatch Plus]. destruct (image_url_char c); auto.
  now apply star_greedy_first.
Qed.

Lemma strip_lit_exact (pat s r : jsstring) :
  strip_lit false pat s = Some r <-> s = pat ++ r.
Proof.
  revert s. induction pat as [|a pat IH]; intros s; simpl.
  - split; [now intros [= ->] | now intros ->].
  - destruct s as [|c s]; [split; discriminate|].
    unfold chr_eqb. destruct (N.eqb_spec a c) as [->|Hne].
    + rewrite IH. split; [now intros -> | now intros [= ->]].
    + split; [discriminate | intros [= -> _]; congruence].
Qed.

Lemma image_here_spec (s r : jsstring) :
  image_here s = Some r ->
  exists tail, s = (image_prefix ++ tail) ++ r /\ tail <> [] /\
               Forall (fun c => image_url_char c = true) tail /\
               (forall c q', r = c :: q' -> image_url_char c = false).
Proof.
  unfold image_here.
  destruct (strip_lit false image_prefix s) as [[|c t]|] eqn:E; try discriminate.
  apply strip_lit_exact in E. destruct (image_url_char c) eqn:Ec; [|discriminate].
  intros [= <-]. destruct (skip_while_split image_url_char t) as [run [Ht Hrun]].
  exists (c :: run). split; [|split; [|split]].
  - rewrite E. rewrite Ht at 1. now rewrite <- app_assoc.
  - discriminate.
  - now constructor.
  - intros x q' Hq. eapply skip_while_head; eauto.
Qed.

Lemma image_here_has (c : N) (q : jsstring) :
  image_url_char c = true -> image_here (image_prefix ++ c :: q) <> None.
Proof.
  intros Hc. unfold image_here.
  rewrite (proj2 (strip_lit_exact image_prefix _ (c :: q)) eq_refl), Hc.
  discriminate.
Qed.

Section GlobalMatch.

Variable ic : bool.
Variable inp : jsstring.
Variable r : regex.

(** Every element of the array of a global match is a match of the pattern
    somewhere in the text. *)
Lemma match_all_from_In (fuel : nat) (s x : jsstring) :
  In x (match_all_from fuel ic inp r s) ->
  exists p q caps, s = p ++ x ++ q /\ match_here ic inp r (x ++ q) = Some (q, caps).
Proof.
  revert s. induction fuel as [|fuel IH]; intros s; cbn [match_all_from].
  - intros [].
  - destruct (search ic inp r s) as [m|] eqn:E; [|intros []].
    apply search_some in E. destruct E as [E1 [E2 _]].
    intros [<-|Hin]; [now exists (before m), (after m), (groups m)|].
    destruct (matched m) as [|y ys] eqn:Em.
    + destruct (after m) as [|c rest] eqn:Ea; [destruct Hin|].
      destruct (IH _ Hin) as [p [q [caps [-> H]]]].
      exists (before m ++ c :: p), q, caps. split; auto.
      rewrite E1. simpl. now rewrite <- app_assoc.
    + destruct (IH _ Hin) as [p [q [caps [Hp H]]]].
      exists (before m ++ (y :: ys) ++ p), q, caps. split; auto.
      rewrite E1, Hp. now rewrite <- !app_assoc.
Qed.

(** The fuel of [match_global] is never used up: any larger amount gives the
    same array. *)
Lemma match_all_from_fuel (fuel1 fuel2 : nat) (s : jsstring) :
  length s < fuel1 -> length s < fuel2 ->
  match_all_from fuel1 ic inp r s = match_all_from fuel2 ic inp r s.
Proof.
  revert fuel2 s. induction fuel1 as [|fuel1 IH]; intros fuel2 s L1 L2; [lia|].
  destruct fuel2 as [|fuel2]; [lia|]. cbn [match_all_from].
  destruct (search ic inp r s) as [m|] eqn:E; auto.
  apply search_some in E. destruct E as [E1 _].
  apply (f_equal (@length _)) in E1. rewrite !length_app in E1.
  f_equal. destruct (matched m) as [|y ys]; simpl in E1.
  - destruct (after m) as [|c rest]; auto. simpl in E1. apply IH; lia.
  - apply IH; lia.
Qed.

End GlobalMatch.

Lemma image_match_occurrence (html p x q : jsstring) (caps : list jsstring) :
  html = p ++ x ++ q ->
  match_here false html (source re_image) (x ++ q) = Some (q, caps) ->
  image_occurrence html x.
Proof.
  intros E H. rewrite match_here_image in H.
  destruct (image_here (x ++ q)) as [r|] eqn:Eh; [|discriminate].
  injection H as -> _. destruct (image_here_spec _ _ Eh) as [tail [Et [Hne [Hall Hend]]]].
  apply app_inv_tail in Et. exists p, tail, q. auto.
Qed.

Lemma no_image_no_match (html : jsstring) :
  ~ has_image_url html -> match_global re_image html = None.
Proof.
  intros Hno. unfold match_global. cbn [match_all_from].
  change (flag_i re_image) with false.
  destruct (search false html (source re_image) html) as [m|] eqn:E; auto.
  exfalso. apply Hno. apply search_some in E. destruct E as [E1 [E2 _]].
  rewrite match_here_image in E2.
  destruct (image_here (matched m ++ after m)) as [r|] eqn:Eh; [|discriminate].
  destruct (image_here_spec _ _ Eh) as [[|c tail] [Et [Hne [Hall _]]]]; [congruence|].
  exists (before m), c, (tail ++ r). split.
  - rewrite E1, Et. now rewrite <- !app_assoc.
  - now inversion Hall.
Qed.

Lemma image_some_match (html : jsstring) :
  has_image_url html ->
  exists x l, match_global re_image html = Some (x :: l).
Proof.
  intros [p [c [q [E Hc]]]]. unfold match_global. cbn [match_all_from].
  change (flag_i re_image) with false.
  destruct (search false html (source re_image) html) as [m|] eqn:Es; eauto.
  exfalso. pose proof (search_none _ _ _ _ Es p _ E) as H.
  rewrite match_here_image in H.
  destruct (image_here (image_prefix ++ c :: q)) eqn:Eh; [discriminate|].
  now apply (image_here_has c q Hc).
Qed.

(** Two maximal runs of the same class at the same place are the same. *)
Lemma run_unique (f : N -> bool) (t t' q q' : jsstring) :
  Forall (fun c => f c = true) t -> Forall (fun c => f c = true) t' ->
  (forall c q0, q = c :: q0 -> f c = false) ->
  (forall c q0, q' = c :: q0 -> f c = false) ->
  t ++ q = t' ++ q' -> t = t' /\ q = q'.
Proof.
  intros Ht. revert t'. induction Ht as [|a t Ha Ht IH]; intros t' Ht' Hq Hq' E.
  - destruct Ht' as [|a' t' Ha' _]; [auto|]. cbn [app] in E.
    rewrite (Hq a' (t' ++ q') E) in Ha'. discriminate.
  - destruct Ht' as [|a' t' Ha' Ht'].
    + cbn [app] in E. symmetry in E. rewrite (Hq' a (t ++ q) E) in Ha. discriminate.
    + cbn [app] in E. injection E as -> E.
      destruct (IH t' Ht' Hq Hq' E) as [-> ->]. auto.
Qed.

Lemma first_image_has (s p x q : jsstring) :
  first_image_at s p x q -> has_image_url s.
Proof.
  intros [E [[tail [-> [Hne Hall]]] _]].
  destruct tail as [|c tail]; [congruence|].
  exists p, c, (tail ++ q). split.
  - rewrite E. now rewrite <- !app_assoc.
  - now inversion Hall.
Qed.

Lemma first_image_at_unique (s p x q p' x' q' : jsstring) :
  first_image_at s p x q -> first_image_at s p' x' q' ->
  p = p' /\ x = x' /\ q = q'.
Proof.
  intros [E [[t [-> [Hne Hall]]] [Hq Hmin]]] [E' [[t' [-> [Hne' Hall']]] [Hq' Hmin']]].
  assert (L : length p = length p').
  { destruct t as [|c t]; [congruence|]. destruct t' as [|c' t']; [congruence|].
    assert (A : length p' <= length p).
    { apply (Hmin' p c (t ++ q)).
      - rewrite E. now rewrite <- !app_assoc.
      - now inversion Hall. }
    assert (B : length p <= length p').
    { apply (Hmin p' c' (t' ++ q')).
      - rewrite E'. now rewrite <- !app_assoc.
      - now inversion Hall'. }
    lia. }
  rewrite E in E'. destruct (app_eq_length _ p _ p' _ E' L) as [-> E2].
  rewrite <- !app_assoc in E2. apply app_inv_head in E2.
  destruct (run_unique image_url_char t t' q q' Hall Hall' Hq Hq' E2) as [-> ->].
  auto.
Qed.

(** The image URLs of a text are determined by the text. *)
Lemma image_urls_unique (s : jsstring) (l l' : list jsstring) :
  image_urls s l -> image_urls s l' -> l = l'.
Proof.
  intros H. revert l'. induction H as [s Hno | s p x q l Hf Hq IH]; intros l' H'.
  - inversion H' as [|? p' x' q' l0 Hf' _]; subst; auto.
    destruct Hno. eapply first_image_has; eauto.
  - inversion H' as [? Hno|? p' x' q' l0 Hf' Hq']; subst.
    + destruct Hno. eapply first_image_has; eauto.
    + destruct (first_image_at_unique _ _ _ _ _ _ _ Hf Hf') as [-> [-> ->]].
      f_equal. now apply IH.
Qed.

(** The loop of the global match finds every image URL, in reading order. *)
Lemma match_all_image (inp : jsstring) (fuel : nat) (s : jsstring) :
  length s < fuel ->
  image_urls s (match_all_from fuel false inp (source re_image) s).
Proof.
  revert s. induction fuel as [|fuel IH]; intros s L; [lia|].
  cbn [match_all_from].
  destruct (search false inp (source re_image) s) as [m|] eqn:E.
  - apply search_some in E. destruct E as [E1 [E2 E3]].
    rewrite match_here_image in E2.
    destruct (image_here (matched m ++ after m)) as [r|] eqn:Eh; [|discriminate].
    injection E2 as -> _.
    destruct (image_here_spec _ _ Eh) as [tail [Et [Hne [Hall Hend]]]].
    apply app_inv_tail in Et.
    assert (F : first_image_at s (before m) (matched m) (after m)).
    { split; [exact E1|]. split; [exists tail; auto|]. split; [exact Hend|].
      intros p' c q' Ep Hc.
      destruct (Nat.lt_ge_cases (length p') (length (before m))) as [Lt|Ge]; auto.
      pose proof (E3 p' _ Ep Lt) as Hn. rewrite match_here_image in Hn.
      destruct (image_here (image_prefix ++ c :: q')) eqn:Eh'; [discriminate|].
      now destruct (image_here_has c q' Hc). }
    assert (La : length (after m) < fuel).
    { apply (f_equal (@length _)) in E1. rewrite !length_app in E1.
      rewrite Et in E1. rewrite length_app in E1. cbn [image_prefix] in E1.
      destruct tail; [congruence|]. cbn [length] in E1. lia. }
    apply (urls_cons F).
    assert (Em : exists y ys, matched m = y :: ys).
    { rewrite Et. exists 104%N, (tl image_prefix ++ tail). reflexivity. }
    destruct Em as [y [ys ->]]. now apply IH.
  - apply urls_none. intros [p [c [q [Ep Hc]]]].
    pose proof (search_none _ _ _ _ E p _ Ep) as Hn. rewrite match_here_image in Hn.
    destruct (image_here (image_prefix ++ c :: q)) eqn:Eh'; [discriminate|].
    now destruct (image_here_has c q Hc).
Qed.

(** C9. For every HTML text, [extractImages] returns the image URLs of the
    text (each the URL prefix followed by the longest run of characters
    that are neither quotes nor white space), all of them taken in reading
    order, then without duplicates, each kept where it is first seen, and
    at most the first five; the list is empty when the pattern matches
    nothing (and only then). *)
Theorem C9_extractImages (html : jsstring) :
  exists urls,
    image_urls html urls /\
    (forall l, image_urls html l -> l = urls) /\
    match_global re_image html = (match urls with [] => None | _ => Some urls end) /\
    (forall x, In x urls -> image_occurrence html x) /\
    extractImages html = firstn 5 (spec_dedup urls) /\
    NoDup (extractImages html) /\
    length (extractImages html) <= 5 /\
    (forall x, In x (extractImages html) -> In x urls) /\
    (~ has_image_url html -> extractImages html = []) /\
    (has_image_url html -> extractImages html <> []).
Proof.
  set (urls := match_all_from (S (length html)) false html (source re_image) html).
  assert (Hu : image_urls html urls) by (apply match_all_image; lia).
  assert (Hg : match_global re_image html =
               match urls with [] => None | _ => Some urls end).
  { unfold match_global. change (flag_i re_image) with false. fold urls.
    destruct urls; reflexivity. }
  assert (Hocc : forall x, In x urls -> image_occurrence html x).
  { intros x Hin. apply match_all_from_In in Hin.
    destruct Hin as [p [q [caps [Hp H]]]].
    eapply image_match_occurrence; eauto. }
  assert (Heq : extractImages html = firstn 5 (spec_dedup urls)).
  { unfold extractImages. rewrite Hg. destruct urls as [|u l] eqn:Eu; auto.
    simpl. now rewrite Set_from_spec. }
  exists urls.
  split; [exact Hu|].
  split; [intros l Hl; exact (image_urls_unique html l urls Hl Hu)|].
  split; [exact Hg|].
  split; [exact Hocc|]. split; [exact Heq|].
  split; [rewrite Heq; apply NoDup_firstn, spec_dedup_NoDup|].
  split; [rewrite Heq; apply firstn_le_length|].
  split; [|split].
  - intros x Hin. rewrite Heq in Hin. apply In_firstn in Hin.
    exact (proj1 (spec_dedup_In _ _) Hin).
  - intros Hno. unfold extractImages. now rewrite (no_image_no_match _ Hno).
  - intros Hhas. destruct (image_some_match _ Hhas) as [x [l E]].
    unfold extractImages. rewrite E. simpl.
    rewrite Set_from_spec. simpl. discriminate.
Qed.

(** Six URLs, one of them twice: the first five distinct ones, in order. *)
Example extractImages_example :
  extractImages
    (strq "<img src=`https://images1.vinted.net/t/a.jpg`> https://images1.vinted.net/t/b 'https://images1.vinted.net/t/a.jpg' https://images1.vinted.net/t/c https://images1.vinted.net/t/d https://images1.vinted.net/t/e https://images1.vinted.net/t/f")
  = [ str "https://images1.vinted.net/t/a.jpg"; str "https://images1.vinted.net/t/b";
      str "https://images1.vinted.net/t/c"; str "https://images1.vinted.net/t/d";
      str "https://images1.vinted.net/t/e" ].
Proof. vm_compute. reflexivity. Qed.

(* ================================================================= *)
(** * Fetching and the gate *)

Lemma fetchVintedListing_trace (rt : Runtime) (url : value) :
  fst (fetchVintedListing rt url) = [get_listing url].
Proof.
  unfold fetchVintedListing, await_fetch, io_bind. fold (get_listing url).
  destruct (fetch rt (get_listing url)) as [response|e]; auto.
  destruct (ok response); cbn [negb]; [|reflexivity].
  unfold io_pure.
  destruct (extract_data rt (text response) (json_ld_of rt (text response)) url)
    as [d|e]; [|reflexivity].
  destruct (negb (truthy (title d)) && negb (truthy (price d))); reflexivity.
Qed.

Lemma fetchVintedListing_not_ok (rt : Runtime) (url : value) (response : Response) :
  fetch rt (get_listing url) = Return response -> ok response = false ->
  fetchVintedListing rt url =
  ([get_listing url], Throw (Error (str "Failed to fetch Vinted listing"))).
Proof.
  intros Hf Hok. unfold fetchVintedListing, await_fetch, io_bind.
  fold (get_listing url). now rewrite Hf, Hok.
Qed.

(** The gate, once the page is fetched and its fields are extracted: the
    extraction error exactly when title and price are both falsy, the
    listing otherwise. *)
Lemma fetchVintedListing_gate (rt : Runtime) (url : value) (response : Response)
      (d : ListingData) :
  fetch rt (get_listing url) = Return response -> ok response = true ->
  extract_data rt (text response) (json_ld_of rt (text response)) url = Return d ->
  (absent (title d) /\ absent (price d) ->
   fetchVintedListing rt url = ([get_listing url], Throw extraction_error)) /\
  (present (title d) \/ present (price d) ->
   fetchVintedListing rt url = ([get_listing url], Return d)) /\
  (snd (fetchVintedListing rt url) = Throw extraction_error <->
   absent (title d) /\ absent (price d)).
Proof.
  intros Hf Hok Hd. unfold absent, present.
  assert (E : fetchVintedListing rt url =
              if negb (truthy (title d)) && negb (truthy (price d))
              then ([get_listing url], Throw extraction_error)
              else ([get_listing url], Return d)).
  { unfold fetchVintedListing, await_fetch, io_bind. fold (get_listing url).
    rewrite Hf, Hok. cbn [negb]. unfold io_pure. rewrite Hd.
    destruct (negb (truthy (title d)) && negb (truthy (price d))); reflexivity. }
  rewrite E. destruct (truthy (title d)), (truthy (price d)); cbn [negb andb snd];
    (split; [|split; [|split]]); intros; auto;
    try discriminate; try tauto;
    repeat match goal with
           | H : _ /\ _ |- _ => destruct H
           | H : _ \/ _ |- _ => destruct H
           end; try discriminate.
Qed.

(** Without structured data (none on the page, or text that [JSON.parse]
    rejects) no extractor throws: the fields come from the patterns. *)
Lemma extract_data_without_json_ld (rt : Runtime) (html : jsstring) (url : value) :
  exists d, extract_data rt html VNull url = Return d /\
            condition d = VNull /\ images d = extractImages html.
Proof.
  unfold extract_data, extractPrice, extractCondition. cbn.
  destruct (exec re_price html); cbn; eexists; repeat split.
Qed.

Lemma json_ld_of_malformed (rt : Runtime) (html : jsstring) :
  (forall m, exec re_json_ld html = Some m -> JSON_parse rt (group 1 m) = None) ->
  json_ld_of rt html = VNull.
Proof.
  intros H. unfold json_ld_of. destruct (exec re_json_ld html) as [m|] eqn:E; auto.
  now rewrite (H m eq_refl).
Qed.

(** C7, where the code departs from it. A structured-data block whose
    [itemCondition] is truthy and not a string makes [extractCondition]
    throw a TypeError, and with it the construction of the listing data:
    there is no fall-back for this shape. *)
Theorem C7_non_string_condition_throws (rt : Runtime) (html : jsstring)
        (jsonLd v url : value) :
  opt_member jsonLd (str "itemCondition") = v ->
  truthy v = true ->
  (forall s, v <> VStr s) ->
  extractCondition html jsonLd =
    Throw (TypeError (str "jsonLd.itemCondition.replace is not a function")) /\
  exists e, extract_data rt html jsonLd url = Throw e.
Proof.
  intros Hv Ht Hs.
  assert (E : extractCondition html jsonLd =
              Throw (TypeError (str "jsonLd.itemCondition.replace is not a function"))).
  { unfold extractCondition. rewrite Hv, Ht.
    destruct v; try reflexivity. now destruct (Hs s). }
  split; [exact E|].
  unfold extract_data, bind. destruct (extractPrice rt html jsonLd); [|eauto].
  rewrite E. eauto.
Qed.

Lemma C7_non_string_condition_throws_witness :
  extractCondition page_numeric_condition
    (VObj [(str "name", VStr (str "Wool Coat")); (str "itemCondition", VNum 5)])
  = Throw (TypeError (str "jsonLd.itemCondition.replace is not a function")) /\
  exists e,
    extract_data rt_numeric_condition page_numeric_condition
      (VObj [(str "name", VStr (str "Wool Coat")); (str "itemCondition", VNum 5)])
      (VStr listing_url) = Throw e.
Proof.
  apply (C7_non_string_condition_throws rt_numeric_condition page_numeric_condition
           _ (VNum 5) (VStr listing_url)).
  - reflexivity.
  - reflexivity.
  - discriminate.
Defined.

(** C2, where the code departs from it. On a page whose structured data
    has a title and a numeric [itemCondition], the title is extracted, yet
    [fetchVintedListing] does not return the listing: the TypeError of
    [extractCondition] ends it before the gate. *)
Theorem C2_title_present_listing_not_returned :
  json_ld_of rt_numeric_condition page_numeric_condition
  = VObj [(str "name", VStr (str "Wool Coat")); (str "itemCondition", VNum 5)] /\
  extractTitle page_numeric_condition
    (json_ld_of rt_numeric_condition page_numeric_condition)
  = VStr (str "Wool Coat") /\
  fetchVintedListing rt_numeric_condition (VStr listing_url)
  = ([get_listing (VStr listing_url)],
     Throw (TypeError (str "jsonLd.itemCondition.replace is not a function"))).
Proof. split; [|split]; vm_compute; reflexivity. Qed.

(* ================================================================= *)
(** * The handlers *)

Lemma io_bind_pure (A B : Type) (a : A) (f : A -> io B) :
  io_bind (io_pure (Return a)) f = f a.
Proof. unfold io_bind, io_pure. now destruct (f a). Qed.

(** The handler of the Groq variant on a POST that carries a URL. *)
Lemma groq_handler_post (rt : Runtime) (env : Env) (req : HttpRequest) (url : value) :
  method req = str "POST" -> destructure_url (body req) = Return url ->
  truthy url = true ->
  Groq.handler rt env req =
  io_catch
    (io_bind (fetchVintedListing rt url) (fun listingData =>
     io_bind (Groq.analyzeWithGroq rt env listingData) (fun analysis =>
     io_pure (Return (mkHttpResponse 200
       (ResultBody (rating analysis) (assessment analysis)
          (title listingData) (brand listingData) (price listingData)
          (first_image listingData)))))))
    respond_500.
Proof.
  intros Hm Hu Ht. unfold Groq.handler.
  rewrite Hm, jsstring_eqb_refl. cbn [negb]. rewrite Hu, io_bind_pure, Ht.
  reflexivity.
Qed.

Lemma gemini_handler_post (rt : Runtime) (env : Env) (req : HttpRequest) (url : value) :
  method req = str "POST" -> destructure_url (body req) = Return url ->
  truthy url = true ->
  Gemini.handler rt env req =
  io_catch
    (io_bind (fetchVintedListing rt url) (fun listingData =>
     io_bind (Gemini.analyzeWithGemini rt env listingData) (fun analysis =>
     io_pure (Return (mkHttpResponse 200
       (ResultBody (rating analysis) (assessment analysis)
          (title listingData) (brand listingData) (price listingData)
          (first_image listingData)))))))
    respond_500.
Proof.
  intros Hm Hu Ht. unfold Gemini.handler.
  rewrite Hm, jsstring_eqb_refl. cbn [negb]. rewrite Hu, io_bind_pure, Ht.
  reflexivity.
Qed.

(** Requests that never reach the network: a method other than POST, and a
    body without a URL. *)
Lemma handler_rejects_without_network (rt : Runtime) (env : Env) (req : HttpRequest) :
  (method req <> str "POST" ->
   Groq.handler rt env req =
     ([], Return (mkHttpResponse 405 (ErrorBody (str "Method not allowed")))) /\
   Gemini.handler rt env req =
     ([], Return (mkHttpResponse 405 (ErrorBody (str "Method not allowed"))))) /\
  (forall url, method req = str "POST" ->
     destructure_url (body req) = Return url -> truthy url = false ->
     Groq.handler rt env req =
       ([], Return (mkHttpResponse 400 (ErrorBody (str "URL is required")))) /\
     Gemini.handler rt env req =
       ([], Return (mkHttpResponse 400 (ErrorBody (str "URL is required"))))).
Proof.
  split.
  - intros Hm. unfold Groq.handler, Gemini.handler.
    destruct (jsstring_eqb (method req) (str "POST")) eqn:E.
    + apply jsstring_eqb_eq in E. contradiction.
    + split; reflexivity.
  - intros url Hm Hu Ht. unfold Groq.handler, Gemini.handler.
    rewrite Hm, jsstring_eqb_refl. cbn [negb]. rewrite Hu, !io_bind_pure, Ht.
    split; reflexivity.
Qed.

Lemma groq_key_checked_first (rt : Runtime) (env : Env) (listing : ListingData) :
  GROQ_API_KEY env = None \/ GROQ_API_KEY env = Some [] ->
  Groq.analyzeWithGroq rt env listing = ([], Throw (Error missing_groq_key)).
Proof. unfold Groq.analyzeWithGroq. intros [-> | ->]; reflexivity. Qed.

(** C8, as the code has it. When the GET of the listing answers with a
    status that is not a success, the handler (of either variant, on a POST
    that carries a URL) has sent that one request and responds 500 with the
    error [Failed to fetch Vinted listing]. *)
Theorem C8_fetch_failure_is_500 (rt : Runtime) (env : Env) (req : HttpRequest)
        (url : value) (response : Response) :
  method req = str "POST" -> destructure_url (body req) = Return url ->
  truthy url = true ->
  fetch rt (get_listing url) = Return response -> ok response = false ->
  Groq.handler rt env req =
    ([get_listing url],
     Return (mkHttpResponse 500 (ErrorBody (str "Failed to fetch Vinted listing")))) /\
  Gemini.handler rt env req =
    ([get_listing url],
     Return (mkHttpResponse 500 (ErrorBody (str "Failed to fetch Vinted listing")))).
Proof.
  intros Hm Hu Ht Hf Hok.
  rewrite (groq_handler_post rt env req url Hm Hu Ht),
          (gemini_handler_post rt env req url Hm Hu Ht),
          (fetchVintedListing_not_ok rt url response Hf Hok).
  split; reflexivity.
Qed.

Lemma C8_fetch_failure_is_500_witness :
  Groq.handler rt_not_found env_no_keys (post listing_url) =
    ([get_listing (VStr listing_url)],
     Return (mkHttpResponse 500 (ErrorBody (str "Failed to fetch Vinted listing")))) /\
  Gemini.handler rt_not_found env_no_keys (post listing_url) =
    ([get_listing (VStr listing_url)],
     Return (mkHttpResponse 500 (ErrorBody (str "Failed to fetch Vinted listing")))).
Proof.
  apply (C8_fetch_failure_is_500 rt_not_found env_no_keys (post listing_url)
           (VStr listing_url) (mkResponse false 404 (str "Not Found")));
    reflexivity.
Defined.

(** C8 as stated fails on the text of the error: on a 404 the body is not
    [Failed to fetch listing]. *)
Lemma C8_counterexample :
  fetch rt_not_found (get_listing (VStr listing_url))
  = Return (mkResponse false 404 (str "Not Found")) /\
  Groq.handler rt_not_found env_no_keys (post listing_url) =
    ([get_listing (VStr listing_url)],
     Return (mkHttpResponse 500 (ErrorBody (str "Failed to fetch Vinted listing")))) /\
  str "Failed to fetch Vinted listing" <> str "Failed to fetch listing".
Proof. split; [|split]; [reflexivity | reflexivity | discriminate]. Qed.

(** C6, as the code has it. In the Groq variant an absent (unset or empty)
    API key makes [analyzeWithGroq] throw the configuration error before it
    sends anything, so no request reaches the model provider; the handler
    calls it after [fetchVintedListing], so on a POST that carries a URL the
    GET of the listing page has been sent by then, and the response is 500
    with the configuration error when that fetch returned a listing. *)
Theorem C6_key_checked_after_listing_fetch (rt : Runtime) (env : Env) :
  GROQ_API_KEY env = None \/ GROQ_API_KEY env = Some [] ->
  (forall listing,
      Groq.analyzeWithGroq rt env listing = ([], Throw (Error missing_groq_key))) /\
  (forall req url,
      method req = str "POST" -> destructure_url (body req) = Return url ->
      truthy url = true ->
      fst (Groq.handler rt env req) = [get_listing url] /\
      (forall listing,
          fetchVintedListing rt url = ([get_listing url], Return listing) ->
          Groq.handler rt env req =
            ([get_listing url],
             Return (mkHttpResponse 500 (ErrorBody missing_groq_key))))).
Proof.
  intros Hkey. split; [intros; now apply groq_key_checked_first|].
  intros req url Hm Hu Ht.
  rewrite (groq_handler_post rt env req url Hm Hu Ht).
  pose proof (fetchVintedListing_trace rt url) as Htr.
  split.
  - destruct (fetchVintedListing rt url) as [t [listing|e]]; simpl in Htr; subst t.
    + unfold io_bind at 1. rewrite (groq_key_checked_first rt env listing Hkey).
      reflexivity.
    + reflexivity.
  - intros listing ->. unfold io_bind at 1.
    rewrite (groq_key_checked_first rt env listing Hkey). reflexivity.
Qed.

Lemma C6_key_checked_after_listing_fetch_witness :
  Groq.analyzeWithGroq rt_og_title env_no_keys listing_og_title
  = ([], Throw (Error missing_groq_key)) /\
  Groq.handler rt_og_title env_no_keys (post listing_url) =
    ([get_listing (VStr listing_url)],
     Return (mkHttpResponse 500 (ErrorBody missing_groq_key))).
Proof.
  destruct (C6_key_checked_after_listing_fetch rt_og_title env_no_keys
              (or_introl eq_refl)) as [H1 H2].
  split; [apply H1|].
  apply (proj2 (H2 (post listing_url) (VStr listing_url) eq_refl eq_refl eq_refl)
               listing_og_title).
  reflexivity.
Defined.

(** C6 as stated fails. With no API key in the environment, the Groq
    handler has fetched the listing page when it reports the configuration
    error, and the Gemini handler reports none: it fetches the page and
    posts to the provider with [key=undefined]. *)
Lemma C6_counterexample :
  Groq.handler rt_og_title env_no_keys (post listing_url) =
    ([get_listing (VStr listing_url)],
     Return (mkHttpResponse 500 (ErrorBody missing_groq_key))) /\
  map target (fst (Gemini.handler rt_og_title env_no_keys (post listing_url))) =
    [ VStr listing_url;
      VStr (Gemini.GEMINI_API_URL ++ str "?key=undefined") ].
Proof. split; vm_compute; reflexivity. Qed.

(** The Gemini variant never looks at its key: without one, and for a
    listing without images, the one request of [analyzeWithGemini] is the
    POST to the provider with [key=undefined]. *)
Lemma gemini_posts_without_key (rt : Runtime) (env : Env) (listing : ListingData)
      (prompt : jsstring) :
  GEMINI_API_KEY env = None -> images listing = [] ->
  Gemini.buildPrompt rt listing = Return prompt ->
  map target (fst (Gemini.analyzeWithGemini rt env listing)) =
    [VStr (Gemini.GEMINI_API_URL ++ str "?key=undefined")].
Proof.
  intros Hk Hi Hp. unfold Gemini.analyzeWithGemini.
  rewrite Hp, io_bind_pure, Hi, io_bind_pure, Hk.
  unfold await_fetch, io_bind.
  match goal with |- context [fetch rt ?rq] => destruct (fetch rt rq) as [response|e] end;
    [|reflexivity].
  destruct (ok response); cbn [negb]; [|reflexivity].
  unfold io_pure. destruct (response_json rt response) as [result|e]; [|reflexivity].
  destruct (member result (str "candidates")) as [candidates|e]; [|reflexivity].
  match goal with |- context [parse_reply ?p ?t] => destruct (parse_reply p t) end;
    reflexivity.
Qed.

(** A second shape that makes extraction throw: a price that is an object
    with a [toString] property has no string form for the template. *)
Example extractPrice_throws_on_object_price :
  extractPrice rt_og_title []
    (VObj [(str "offers",
            VObj [(str "price", VObj [(str "toString", VNum 1)])])])
  = Throw (TypeError (str "Cannot convert object to primitive value")).
Proof. reflexivity. Qed.

(* ================================================================= *)
(** * The handlers: requests that are turned away *)

(** X1. A request whose method is not POST is answered 405 with
    [Method not allowed] by both variants, whatever its body (an absent body
    included), and nothing is sent. *)
Theorem X1_handler_method_not_allowed (rt : Runtime) (env : Env) (req : HttpRequest) :
  method req <> str "POST" ->
  Groq.handler rt env req =
    ([], Return (mkHttpResponse 405 (ErrorBody (str "Method not allowed")))) /\
  Gemini.handler rt env req =
    ([], Return (mkHttpResponse 405 (ErrorBody (str "Method not allowed")))).
Proof. intros H. exact (proj1 (handler_rejects_without_network rt env req) H). Qed.

Lemma X1_handler_method_not_allowed_witness :
  Groq.handler rt_providers_ok env_keys (mkHttpRequest (str "GET") VUndefined) =
    ([], Return (mkHttpResponse 405 (ErrorBody (str "Method not allowed")))) /\
  Gemini.handler rt_providers_ok env_keys (mkHttpRequest (str "GET") VUndefined) =
    ([], Return (mkHttpResponse 405 (ErrorBody (str "Method not allowed")))).
Proof.
  apply (X1_handler_method_not_allowed rt_providers_ok env_keys
           (mkHttpRequest (str "GET") VUndefined)).
  discriminate.
Defined.

(** X2. A POST whose body is there but has no usable [url] (the property is
    missing, or is [null], an empty string, [false] or zero) is answered 400
    with [URL is required] by both variants, and nothing is sent. *)
Theorem X2_handler_url_required (rt : Runtime) (env : Env) (req : HttpRequest) :
  method req = str "POST" ->
  body req <> VUndefined -> body req <> VNull ->
  truthy (opt_member (body req) (str "url")) = false ->
  Groq.handler rt env req =
    ([], Return (mkHttpResponse 400 (ErrorBody (str "URL is required")))) /\
  Gemini.handler rt env req =
    ([], Return (mkHttpResponse 400 (ErrorBody (str "URL is required")))).
Proof.
  intros Hm Hu Hn Ht.
  apply (proj2 (handler_rejects_without_network rt env req)
               (opt_member (body req) (str "url")) Hm); auto.
  unfold destructure_url. destruct (body req); try reflexivity; congruence.
Qed.

Lemma X2_handler_url_required_witness :
  Groq.handler rt_providers_ok env_keys (mkHttpRequest (str "POST") (VObj [])) =
    ([], Return (mkHttpResponse 400 (ErrorBody (str "URL is required")))) /\
  Gemini.handler rt_providers_ok env_keys (mkHttpRequest (str "POST") (VObj [])) =
    ([], Return (mkHttpResponse 400 (ErrorBody (str "URL is required")))).
Proof.
  apply (X2_handler_url_required rt_providers_ok env_keys
           (mkHttpRequest (str "POST") (VObj [])));
    (reflexivity || discriminate).
Defined.

(** X3. A POST with no body at all ([undefined] or [null]) is not answered:
    the destructuring of [req.body] stands before the [try], so the handler
    throws a TypeError, and nothing is sent. *)
Theorem X3_handler_absent_body_throws (rt : Runtime) (env : Env) (req : HttpRequest) :
  method req = str "POST" ->
  body req = VUndefined \/ body req = VNull ->
  (exists m, Groq.handler rt env req = ([], Throw (TypeError m))) /\
  (exists m, Gemini.handler rt env req = ([], Throw (TypeError m))).
Proof.
  intros Hm Hb. unfold Groq.handler, Gemini.handler.
  rewrite Hm, jsstring_eqb_refl. cbn [negb].
  destruct Hb as [-> | ->]; split; eexists; reflexivity.
Qed.

Lemma X3_handler_absent_body_throws_witness :
  (exists m, Groq.handler rt_providers_ok env_keys
               (mkHttpRequest (str "POST") VUndefined) = ([], Throw (TypeError m))) /\
  (exists m, Gemini.handler rt_providers_ok env_keys
               (mkHttpRequest (str "POST") VUndefined) = ([], Throw (TypeError m))).
Proof.
  apply (X3_handler_absent_body_throws rt_providers_ok env_keys
           (mkHttpRequest (str "POST") VUndefined)).
  - reflexivity.
  - left. reflexivity.
Defined.

Lemma respond_500_well_formed (e : exn) :
  exists resp, respond_500 e = ([], Return resp) /\ well_formed_response resp.
Proof.
  unfold respond_500, io_pure. eexists. split; [reflexivity|].
  right. split; [reflexivity|]. eexists. split; [reflexivity|].
  destruct (message e); discriminate.
Qed.

(** X4. Once a POST carries a URL, the handler always answers and never
    throws: with 200 and a result, or with 500 and an error message that is
    not empty (the message of the exception, or [Failed to analyze listing]
    when that is empty). *)
Theorem X4_handler_always_answers (rt : Runtime) (env : Env) (req : HttpRequest)
        (url : value) :
  method req = str "POST" -> destructure_url (body req) = Return url ->
  truthy url = true ->
  (exists t resp, Groq.handler rt env req = (t, Return resp) /\
                  well_formed_response resp) /\
  (exists t resp, Gemini.handler rt env req = (t, Return resp) /\
                  well_formed_response resp).
Proof.
  intros Hm Hu Ht.
  rewrite (groq_handler_post rt env req url Hm Hu Ht),
          (gemini_handler_post rt env req url Hm Hu Ht).
  assert (W : forall (d : ListingData) (a : AnalysisResult),
             well_formed_response
               (mkHttpResponse 200
                  (ResultBody (rating a) (assessment a) (title d) (brand d)
                              (price d) (first_image d)))).
  { intros d a. left. split; [reflexivity|]. repeat eexists. }
  split.
  - destruct (fetchVintedListing rt url) as [t [d|e]].
    + cbn [io_bind]. destruct (Groq.analyzeWithGroq rt env d) as [t' [a|e]].
      * cbn. eauto.
      * cbn [io_bind io_catch].
        destruct (respond_500_well_formed e) as [resp [-> H]]. eauto.
    + cbn [io_bind io_catch].
      destruct (respond_500_well_formed e) as [resp [-> H]]. eauto.
  - destruct (fetchVintedListing rt url) as [t [d|e]].
    + cbn [io_bind]. destruct (Gemini.analyzeWithGemini rt env d) as [t' [a|e]].
      * cbn. eauto.
      * cbn [io_bind io_catch].
        destruct (respond_500_well_formed e) as [resp [-> H]]. eauto.
    + cbn [io_bind io_catch].
      destruct (respond_500_well_formed e) as [resp [-> H]]. eauto.
Qed.

Lemma X4_handler_always_answers_witness :
  (exists t resp, Groq.handler rt_not_found env_keys (post listing_url) = (t, Return resp) /\
                  well_formed_response resp) /\
  (exists t resp, Gemini.handler rt_not_found env_keys (post listing_url) = (t, Return resp) /\
                  well_formed_response resp).
Proof.
  apply (X4_handler_always_answers rt_not_found env_keys (post listing_url)
           (VStr listing_url)); reflexivity.
Defined.

(* ================================================================= *)
(** * The model clients, step by step *)

Lemma groq_analyze_sent (rt : Runtime) (env : Env) (d : ListingData)
      (key prompt : jsstring) :
  GROQ_API_KEY env = Some key -> key <> [] ->
  Groq.buildPrompt rt d = Return prompt ->
  Groq.analyzeWithGroq rt env d =
  ([groq_request key prompt], groq_outcome rt (groq_request key prompt)).
Proof.
  intros Hk Hne Hp. unfold Groq.analyzeWithGroq. rewrite Hk.
  destruct key as [|c key]; [congruence|].
  rewrite Hp, io_bind_pure. fold (groq_request (c :: key) prompt).
  unfold await_fetch, io_bind, groq_outcome, bind, io_pure, groq_content.
  destruct (fetch rt (groq_request (c :: key) prompt)) as [response|e]; [|reflexivity].
  destruct (ok response); cbn [negb]; [|reflexivity].
  destruct (response_json rt response) as [result|e]; [|reflexivity].
  destruct (member result (str "choices")) as [choices|e]; [|reflexivity].
  match goal with |- context [parse_reply ?p ?t] => destruct (parse_reply p t) end;
    reflexivity.
Qed.

Lemma groq_analyze_prompt_throws (rt : Runtime) (env : Env) (d : ListingData)
      (key : jsstring) (e : exn) :
  GROQ_API_KEY env = Some key -> key <> [] ->
  Groq.buildPrompt rt d = Throw e ->
  Groq.analyzeWithGroq rt env d = ([], Throw e).
Proof.
  intros Hk Hne Hp. unfold Groq.analyzeWithGroq. rewrite Hk.
  destruct key as [|c key]; [congruence|]. now rewrite Hp.
Qed.

Lemma gemini_analyze_sent (rt : Runtime) (env : Env) (d : ListingData)
      (prompt : jsstring) :
  Gemini.buildPrompt rt d = Return prompt ->
  Gemini.analyzeWithGemini rt env d =
  (gemini_image_requests d ++
     [gemini_request (GEMINI_API_KEY env) (gemini_parts rt d prompt)],
   gemini_outcome rt (gemini_request (GEMINI_API_KEY env) (gemini_parts rt d prompt))).
Proof.
  intros Hp. unfold Gemini.analyzeWithGemini. rewrite Hp, io_bind_pure.
  fold (text_part prompt).
  assert (E : match images d with
              | image :: _ =>
                  io_catch
                    (io_bind (await_fetch rt (mkRequest (str "GET") (VStr image) [] None))
                       (fun imageResponse =>
                          io_pure (Return
                            [ VObj [(str "inlineData",
                                     VObj [(str "mimeType", VStr (str "image/webp"));
                                           (str "data",
                                            VStr (base64 rt (text imageResponse)))])];
                              text_part prompt ])))
                    (fun _ => io_pure (Return [text_part prompt]))
              | [] => io_pure (Return [text_part prompt])
              end = (gemini_image_requests d, Return (gemini_parts rt d prompt))).
  { unfold gemini_image_requests, gemini_parts. destruct (images d) as [|image l].
    - reflexivity.
    - unfold await_fetch, io_bind, io_catch, io_pure, get_image.
      destruct (fetch rt (mkRequest (str "GET") (VStr image) [] None)); reflexivity. }
  rewrite E. clear E.
  transitivity
    (io_bind (gemini_image_requests d, Return (gemini_parts rt d prompt))
       (fun parts =>
        io_bind (await_fetch rt (gemini_request (GEMINI_API_KEY env) parts))
          (fun response =>
           if negb (ok response) then io_pure (Throw (Error (str "AI analysis failed")))
           else
             io_bind (io_pure (response_json rt response)) (fun result =>
             io_bind (io_pure (member result (str "candidates"))) (fun candidates =>
             io_pure (parse_reply parseGeminiResponse (gemini_text candidates))))))).
  { reflexivity. }
  unfold await_fetch, io_bind, gemini_outcome, bind, io_pure.
  destruct (fetch rt (gemini_request (GEMINI_API_KEY env) (gemini_parts rt d prompt)))
    as [response|e]; [|reflexivity].
  destruct (ok response); cbn [negb]; [|reflexivity].
  destruct (response_json rt response) as [result|e]; [|reflexivity].
  destruct (member result (str "candidates")) as [candidates|e]; [|reflexivity].
  match goal with |- context [parse_reply ?p ?t] => destruct (parse_reply p t) end;
    reflexivity.
Qed.

Lemma gemini_analyze_prompt_throws (rt : Runtime) (env : Env) (d : ListingData)
      (e : exn) :
  Gemini.buildPrompt rt d = Throw e ->
  Gemini.analyzeWithGemini rt env d = ([], Throw e).
Proof. intros Hp. unfold Gemini.analyzeWithGemini. now rewrite Hp. Qed.

Lemma parse_reply_returns (parse : jsstring -> AnalysisResult) (v : value)
      (a : AnalysisResult) :
  parse_reply parse v = Return a ->
  exists reply, v = VStr reply /\ reply <> [] /\ a = parse reply.
Proof.
  unfold parse_reply. destruct (truthy v) eqn:T; cbn [negb]; [|discriminate].
  destruct v; try discriminate. intros [= <-]. exists s.
  split; [reflexivity|]. split; [|reflexivity]. intros ->. discriminate.
Qed.

Lemma groq_outcome_returns (rt : Runtime) (rq : Request) (a : AnalysisResult) :
  groq_outcome rt rq = Return a -> exists reply, a = parseAIResponse reply.
Proof.
  unfold groq_outcome, bind.
  destruct (fetch rt rq) as [response|e]; [|discriminate].
  destruct (ok response); cbn [negb]; [|discriminate].
  destruct (response_json rt response) as [result|e]; [|discriminate].
  destruct (member result (str "choices")) as [choices|e]; [|discriminate].
  intros H. apply parse_reply_returns in H. destruct H as [reply [_ [_ ->]]]. eauto.
Qed.

Lemma gemini_outcome_returns (rt : Runtime) (rq : Request) (a : AnalysisResult) :
  gemini_outcome rt rq = Return a -> exists reply, a = parseGeminiResponse reply.
Proof.
  unfold gemini_outcome, bind.
  destruct (fetch rt rq) as [response|e]; [|discriminate].
  destruct (ok response); cbn [negb]; [|discriminate].
  destruct (response_json rt response) as [result|e]; [|discriminate].
  destruct (member result (str "candidates")) as [candidates|e]; [|discriminate].
  intros H. apply parse_reply_returns in H. destruct H as [reply [_ [_ ->]]]. eauto.
Qed.

(** Whatever the variant, an analysis that is returned was parsed from a
    reply text. *)
Lemma groq_analysis_parsed (rt : Runtime) (env : Env) (d : ListingData)
      (t : list Request) (a : AnalysisResult) :
  Groq.analyzeWithGroq rt env d = (t, Return a) ->
  exists reply, a = parseAIResponse reply.
Proof.
  destruct (GROQ_API_KEY env) as [[|c key]|] eqn:Hk.
  - rewrite (groq_key_checked_first rt env d (or_intror Hk)). discriminate.
  - destruct (Groq.buildPrompt rt d) as [prompt|e] eqn:Hp.
    + rewrite (groq_analyze_sent rt env d (c :: key) prompt Hk ltac:(discriminate) Hp).
      intros [= _ H]. eapply groq_outcome_returns; eauto.
    + rewrite (groq_analyze_prompt_throws rt env d (c :: key) e Hk ltac:(discriminate) Hp).
      discriminate.
  - rewrite (groq_key_checked_first rt env d (or_introl Hk)). discriminate.
Qed.

Lemma gemini_analysis_parsed (rt : Runtime) (env : Env) (d : ListingData)
      (t : list Request) (a : AnalysisResult) :
  Gemini.analyzeWithGemini rt env d = (t, Return a) ->
  exists reply, a = parseGeminiResponse reply.
Proof.
  destruct (Gemini.buildPrompt rt d) as [prompt|e] eqn:Hp.
  - rewrite (gemini_analyze_sent rt env d prompt Hp).
    intros [= _ H]. eapply gemini_outcome_returns; eauto.
  - rewrite (gemini_analyze_prompt_throws rt env d e Hp). discriminate.
Qed.

(* ================================================================= *)
(** * The handlers: what is sent, what is answered *)

Lemma fst_catch_500 (m : io HttpResponse) : fst (io_catch m respond_500) = fst m.
Proof.
  destruct m as [t [a|e]]; cbn; auto. now rewrite app_nil_r.
Qed.

Lemma fst_bind (A B : Type) (m : io A) (k : A -> io B) :
  fst (io_bind m k) =
  match snd m with
  | Return a => fst m ++ fst (k a)
  | Throw _ => fst m
  end.
Proof.
  destruct m as [t [a|e]]; cbn; auto. now destruct (k a).
Qed.

Lemma fst_bind_pure (A B : Type) (m : io A) (k : A -> outcome B) :
  fst (io_bind m (fun a => io_pure (k a))) = fst m.
Proof.
  rewrite fst_bind. destruct (snd m); auto. cbn. apply app_nil_r.
Qed.

(** X5. No request is sent twice and none is retried. On a POST that
    carries a URL the Groq handler sends the GET of the listing and then at
    most one POST, to the Groq endpoint, with the key in its Authorization
    header; the Gemini handler sends the GET of the listing, then at most
    the download of the first image and one POST to the Gemini endpoint. *)
Theorem X5_handler_requests (rt : Runtime) (env : Env) (req : HttpRequest)
        (url : value) :
  method req = str "POST" -> destructure_url (body req) = Return url ->
  truthy url = true ->
  (fst (Groq.handler rt env req) = [get_listing url] \/
   exists key prompt,
     GROQ_API_KEY env = Some key /\
     fst (Groq.handler rt env req) = [get_listing url; groq_request key prompt]) /\
  (fst (Gemini.handler rt env req) = [get_listing url] \/
   exists d prompt,
     fst (Gemini.handler rt env req) =
       get_listing url :: gemini_image_requests d ++
       [gemini_request (GEMINI_API_KEY env) (gemini_parts rt d prompt)]).
Proof.
  intros Hm Hu Ht.
  rewrite (groq_handler_post rt env req url Hm Hu Ht),
          (gemini_handler_post rt env req url Hm Hu Ht).
  rewrite !fst_catch_500, !fst_bind.
  pose proof (fetchVintedListing_trace rt url) as Htr.
  destruct (fetchVintedListing rt url) as [t [d|e]]; cbn [fst snd] in *; subst t;
    [|split; left; reflexivity].
  rewrite !fst_bind_pure. split.
  - destruct (GROQ_API_KEY env) as [[|c key]|] eqn:Hk.
    + rewrite (groq_key_checked_first rt env d (or_intror Hk)). now left.
    + destruct (Groq.buildPrompt rt d) as [prompt|e] eqn:Hp.
      * rewrite (groq_analyze_sent rt env d (c :: key) prompt Hk ltac:(discriminate) Hp).
        right. exists (c :: key), prompt. auto.
      * rewrite (groq_analyze_prompt_throws rt env d (c :: key) e Hk
                   ltac:(discriminate) Hp). now left.
    + rewrite (groq_key_checked_first rt env d (or_introl Hk)). now left.
  - destruct (Gemini.buildPrompt rt d) as [prompt|e] eqn:Hp.
    + rewrite (gemini_analyze_sent rt env d prompt Hp). right. exists d, prompt.
      reflexivity.
    + rewrite (gemini_analyze_prompt_throws rt env d e Hp). now left.
Qed.

Lemma X5_handler_requests_witness :
  (fst (Groq.handler rt_providers_ok env_keys (post listing_url))
   = [get_listing (VStr listing_url)] \/
   exists key prompt,
     GROQ_API_KEY env_keys = Some key /\
     fst (Groq.handler rt_providers_ok env_keys (post listing_url))
     = [get_listing (VStr listing_url); groq_request key prompt]) /\
  (fst (Gemini.handler rt_providers_ok env_keys (post listing_url))
   = [get_listing (VStr listing_url)] \/
   exists d prompt,
     fst (Gemini.handler rt_providers_ok env_keys (post listing_url)) =
       get_listing (VStr listing_url) :: gemini_image_requests d ++
       [gemini_request (GEMINI_API_KEY env_keys) (gemini_parts rt_providers_ok d prompt)]).
Proof.
  apply (X5_handler_requests rt_providers_ok env_keys (post listing_url)
           (VStr listing_url)); reflexivity.
Defined.

(** X6. Every 200 answer carries a rating that is an integer between 1 and
    5 and an assessment without white space at either end: what the parser
    guarantees reaches the caller unchanged. *)
Theorem X6_success_body (rt : Runtime) (env : Env) (req : HttpRequest)
        (t : list Request) (resp : HttpResponse) :
  Groq.handler rt env req = (t, Return resp) \/
  Gemini.handler rt env req = (t, Return resp) ->
  code resp = 200%N ->
  exists n a ti b p i,
    json resp = ResultBody (Int n) a ti b p i /\ (1 <= n <= 5)%Z /\ is_trimmed a.
Proof.
  assert (P : forall reply d,
             exists n a ti b p i,
               ResultBody (rating (parseAIResponse reply))
                          (assessment (parseAIResponse reply))
                          (title d) (brand d) (price d) (first_image d)
               = ResultBody (Int n) a ti b p i /\ (1 <= n <= 5)%Z /\ is_trimmed a).
  { intros reply d. destruct (rating_in_range reply) as [n [-> Hn]].
    exists n, (assessment (parseAIResponse reply)), (title d), (brand d),
      (price d), (first_image d).
    split; [reflexivity|]. split; [exact Hn | apply assessment_is_trimmed]. }
  intros [H|H] Hc.
  - unfold Groq.handler in H.
    destruct (negb (jsstring_eqb (method req) (str "POST")));
      [injection H as _ <-; discriminate|].
    destruct (destructure_url (body req)) as [url|e]; [|discriminate].
    rewrite io_bind_pure in H.
    destruct (negb (truthy url)); [injection H as _ <-; discriminate|].
    destruct (fetchVintedListing rt url) as [t1 [d|e]].
    + cbn [io_bind] in H.
      destruct (Groq.analyzeWithGroq rt env d) as [t2 [a|e]] eqn:Ha.
      * cbn in H. injection H as _ <-.
        destruct (groq_analysis_parsed rt env d t2 a Ha) as [reply ->]. apply P.
      * cbn in H. injection H as _ <-. discriminate.
    + cbn in H. injection H as _ <-. discriminate.
  - unfold Gemini.handler in H.
    destruct (negb (jsstring_eqb (method req) (str "POST")));
      [injection H as _ <-; discriminate|].
    destruct (destructure_url (body req)) as [url|e]; [|discriminate].
    rewrite io_bind_pure in H.
    destruct (negb (truthy url)); [injection H as _ <-; discriminate|].
    destruct (fetchVintedListing rt url) as [t1 [d|e]].
    + cbn [io_bind] in H.
      destruct (Gemini.analyzeWithGemini rt env d) as [t2 [a|e]] eqn:Ha.
      * cbn in H. injection H as _ <-.
        destruct (gemini_analysis_parsed rt env d t2 a Ha) as [reply ->]. apply P.
      * cbn in H. injection H as _ <-. discriminate.
    + cbn in H. injection H as _ <-. discriminate.
Qed.

Lemma X6_success_body_witness :
  exists n a ti b p i,
    ResultBody (Int 4) (str "Good deal.") (VStr (str "Wool Coat")) VNull VNull VNull
    = ResultBody (Int n) a ti b p i /\ (1 <= n <= 5)%Z /\ is_trimmed a.
Proof.
  apply (X6_success_body rt_providers_ok env_keys (post listing_url)
           (fst (Groq.handler rt_providers_ok env_keys (post listing_url)))
           (mkHttpResponse 200
              (ResultBody (Int 4) (str "Good deal.") (VStr (str "Wool Coat"))
                          VNull VNull VNull))).
  - left. vm_compute. reflexivity.
  - reflexivity.
Defined.

(** X7. The whole path of the Groq variant. When the listing is fetched and
    passes the gate, the key is set, the prompt is built, and the provider
    answers 2xx with JSON whose [choices[0].message.content] is a non-empty
    string, the handler has sent exactly the GET and the POST and answers
    200 with the parsed rating and assessment, the listing's title, brand
    and price, and its first image (or [null]). *)
Theorem X7_groq_end_to_end (rt : Runtime) (env : Env) (req : HttpRequest)
        (url : value) (d : ListingData) (key prompt : jsstring)
        (response : Response) (result choices : value) (reply : jsstring) :
  method req = str "POST" -> destructure_url (body req) = Return url ->
  truthy url = true ->
  fetchVintedListing rt url = ([get_listing url], Return d) ->
  GROQ_API_KEY env = Some key -> key <> [] ->
  Groq.buildPrompt rt d = Return prompt ->
  fetch rt (groq_request key prompt) = Return response -> ok response = true ->
  JSON_parse rt (text response) = Some result ->
  member result (str "choices") = Return choices ->
  groq_content choices = VStr reply -> reply <> [] ->
  Groq.handler rt env req =
    ([get_listing url; groq_request key prompt],
     Return (mkHttpResponse 200
       (ResultBody (rating (parseAIResponse reply)) (assessment (parseAIResponse reply))
                   (title d) (brand d) (price d) (first_image d)))).
Proof.
  intros Hm Hu Ht Hf Hk Hne Hp Hr Hok Hj Hc Hcontent Hreply.
  rewrite (groq_handler_post rt env req url Hm Hu Ht), Hf.
  cbn [io_bind]. rewrite (groq_analyze_sent rt env d key prompt Hk Hne Hp).
  unfold groq_outcome, bind, response_json.
  rewrite Hr, Hok. cbn [negb]. rewrite Hj, Hc, Hcontent.
  unfold parse_reply. destruct reply as [|c reply]; [congruence|]. reflexivity.
Qed.

Lemma X7_groq_end_to_end_witness :
  Groq.handler rt_providers_ok env_keys (post listing_url) =
    ([get_listing (VStr listing_url);
      groq_request (str "gsk_test")
        (match Groq.buildPrompt rt_providers_ok listing_og_title with
         | Return prompt => prompt
         | Throw _ => []
         end)],
     Return (mkHttpResponse 200
       (ResultBody (rating (parseAIResponse model_reply))
                   (assessment (parseAIResponse model_reply))
                   (title listing_og_title) (brand listing_og_title)
                   (price listing_og_title) (first_image listing_og_title)))).
Proof.
  apply (X7_groq_end_to_end rt_providers_ok env_keys (post listing_url)
           (VStr listing_url) listing_og_title (str "gsk_test") _
           (mkResponse true 200 groq_json_text) groq_json
           (VArr [VObj [(str "message", VObj [(str "content", VStr model_reply)])]])
           model_reply);
    try reflexivity; discriminate.
Defined.

(** X8. The whole path of the Gemini variant, under the same conditions
    (the reply is [candidates[0].content.parts[0].text]): the GET of the
    listing, the download of the first image if there is one, one POST, and
    a 200 answer with the parsed reply. *)
Theorem X8_gemini_end_to_end (rt : Runtime) (env : Env) (req : HttpRequest)
        (url : value) (d : ListingData) (prompt : jsstring)
        (response : Response) (result candidates : value) (reply : jsstring) :
  method req = str "POST" -> destructure_url (body req) = Return url ->
  truthy url = true ->
  fetchVintedListing rt url = ([get_listing url], Return d) ->
  Gemini.buildPrompt rt d = Return prompt ->
  fetch rt (gemini_request (GEMINI_API_KEY env) (gemini_parts rt d prompt))
    = Return response ->
  ok response = true ->
  JSON_parse rt (text response) = Some result ->
  member result (str "candidates") = Return candidates ->
  gemini_text candidates = VStr reply -> reply <> [] ->
  Gemini.handler rt env req =
    (get_listing url :: gemini_image_requests d ++
       [gemini_request (GEMINI_API_KEY env) (gemini_parts rt d prompt)],
     Return (mkHttpResponse 200
       (ResultBody (rating (parseGeminiResponse reply))
                   (assessment (parseGeminiResponse reply))
                   (title d) (brand d) (price d) (first_image d)))).
Proof.
  intros Hm Hu Ht Hf Hp Hr Hok Hj Hc Hcontent Hreply.
  rewrite (gemini_handler_post rt env req url Hm Hu Ht), Hf.
  cbn [io_bind]. rewrite (gemini_analyze_sent rt env d prompt Hp).
  unfold gemini_outcome, bind, response_json.
  rewrite Hr, Hok. cbn [negb]. rewrite Hj, Hc, Hcontent.
  unfold parse_reply. destruct reply as [|c reply]; [congruence|].
  cbn. now rewrite app_nil_r.
Qed.

Lemma X8_gemini_end_to_end_witness :
  Gemini.handler rt_providers_ok env_keys (post listing_url) =
    (get_listing (VStr listing_url) :: gemini_image_requests listing_og_title ++
       [gemini_request (GEMINI_API_KEY env_keys)
          (gemini_parts rt_providers_ok listing_og_title
             (match Gemini.buildPrompt rt_providers_ok listing_og_title with
              | Return prompt => prompt
              | Throw _ => []
              end))],
     Return (mkHttpResponse 200
       (ResultBody (rating (parseGeminiResponse model_reply))
                   (assessment (parseGeminiResponse model_reply))
                   (title listing_og_title) (brand listing_og_title)
                   (price listing_og_title) (first_image listing_og_title)))).
Proof.
  apply (X8_gemini_end_to_end rt_providers_ok env_keys (post listing_url)
           (VStr listing_url) listing_og_title _
           (mkResponse true 200 gemini_json_text) gemini_json
           (VArr [VObj [(str "content",
                         VObj [(str "parts",
                                VArr [VObj [(str "text", VStr model_reply)]])])]])
           model_reply);
    try reflexivity; discriminate.
Defined.

(* ================================================================= *)
(** * The model clients: failures *)

(** X9. When the provider answers with a status that is not a success, the
    Groq client throws [AI analysis failed: <status> - <body>] with at most
    the first 200 code units of the body, and the Gemini client throws
    [AI analysis failed] with no detail; in both the one POST has been sent
    and the body is not parsed. Each variant is taken on its own: neither
    half needs anything of the other provider. *)
Theorem X9_provider_failure (rt : Runtime) (env : Env) (d : ListingData) :
  (forall (key prompt : jsstring) (response : Response),
     GROQ_API_KEY env = Some key -> key <> [] ->
     Groq.buildPrompt rt d = Return prompt ->
     fetch rt (groq_request key prompt) = Return response -> ok response = false ->
     exists detail,
       Groq.analyzeWithGroq rt env d =
         ([groq_request key prompt],
          Throw (Error (str "AI analysis failed: " ++ N_toString (status response)
                        ++ str " - " ++ detail))) /\
       detail = firstn 200 (text response) /\ length detail <= 200) /\
  (forall (prompt : jsstring) (response : Response),
     Gemini.buildPrompt rt d = Return prompt ->
     fetch rt (gemini_request (GEMINI_API_KEY env) (gemini_parts rt d prompt))
       = Return response ->
     ok response = false ->
     Gemini.analyzeWithGemini rt env d =
       (gemini_image_requests d ++
          [gemini_request (GEMINI_API_KEY env) (gemini_parts rt d prompt)],
        Throw (Error (str "AI analysis failed")))).
Proof.
  split.
  - intros key prompt response Hk Hne Hp Hr Hok.
    exists (firstn 200 (text response)).
    rewrite (groq_analyze_sent rt env d key prompt Hk Hne Hp).
    unfold groq_outcome, bind. rewrite Hr, Hok. cbn [negb].
    split; [reflexivity|]. split; [reflexivity | apply firstn_le_length].
  - intros prompt response Hp Hr Hok.
    rewrite (gemini_analyze_sent rt env d prompt Hp).
    unfold gemini_outcome, bind. now rewrite Hr, Hok.
Qed.

Lemma X9_provider_failure_witness :
  (exists detail,
      Groq.analyzeWithGroq rt_provider_busy (mkEnv None (Some (str "gsk_test")))
        listing_og_title =
        ([groq_request (str "gsk_test")
            (match Groq.buildPrompt rt_provider_busy listing_og_title with
             | Return prompt => prompt
             | Throw _ => []
             end)],
         Throw (Error (str "AI analysis failed: " ++ N_toString 429
                       ++ str " - " ++ detail))) /\
      detail = firstn 200 (str "rate limit reached") /\ length detail <= 200) /\
  snd (Gemini.analyzeWithGemini rt_provider_busy env_keys listing_og_title)
  = Throw (Error (str "AI analysis failed")).
Proof.
  split.
  - apply (proj1 (X9_provider_failure rt_provider_busy
                    (mkEnv None (Some (str "gsk_test"))) listing_og_title)
                 (str "gsk_test") _ (mkResponse false 429 (str "rate limit reached")));
      try reflexivity; discriminate.
  - rewrite (proj2 (X9_provider_failure rt_provider_busy env_keys listing_og_title)
               (match Gemini.buildPrompt rt_provider_busy listing_og_title with
                | Return prompt => prompt
                | Throw _ => []
                end)
               (mkResponse false 429 (str "rate limit reached")));
      reflexivity.
Defined.

(** X10. How the reply is read out of a 2xx answer of the Groq provider
    that parsed as JSON with a [choices] property reachable: a missing,
    [null] or empty [choices[0].message.content] gives the error
    [No analysis generated]; content that is there but is not a string
    gives a TypeError (the parser calls [text.match]); a non-empty string
    is parsed. *)
Theorem X10_groq_reply_reading (rt : Runtime) (env : Env) (d : ListingData)
        (key prompt : jsstring) (response : Response) (result choices : value) :
  GROQ_API_KEY env = Some key -> key <> [] ->
  Groq.buildPrompt rt d = Return prompt ->
  fetch rt (groq_request key prompt) = Return response -> ok response = true ->
  JSON_parse rt (text response) = Some result ->
  member result (str "choices") = Return choices ->
  (truthy (groq_content choices) = false ->
   snd (Groq.analyzeWithGroq rt env d) = Throw (Error (str "No analysis generated"))) /\
  (truthy (groq_content choices) = true ->
   (forall reply, groq_content choices <> VStr reply) ->
   snd (Groq.analyzeWithGroq rt env d)
   = Throw (TypeError (str "text.match is not a function"))) /\
  (forall reply, groq_content choices = VStr reply -> reply <> [] ->
   snd (Groq.analyzeWithGroq rt env d) = Return (parseAIResponse reply)).
Proof.
  intros Hk Hne Hp Hr Hok Hj Hc.
  rewrite (groq_analyze_sent rt env d key prompt Hk Hne Hp). cbn [snd].
  unfold groq_outcome, bind, response_json. rewrite Hr, Hok. cbn [negb].
  rewrite Hj, Hc. unfold parse_reply. split; [|split].
  - now intros ->.
  - intros -> Hs. cbn [negb]. destruct (groq_content choices); try reflexivity.
    now destruct (Hs s).
  - intros reply -> Hne'. destruct reply; [congruence | reflexivity].
Qed.

Lemma X10_groq_reply_reading_witness :
  (truthy (groq_content (VArr [])) = false ->
   snd (Groq.analyzeWithGroq rt_no_choices env_keys listing_og_title)
   = Throw (Error (str "No analysis generated"))) /\
  (truthy (groq_content (VArr [])) = true ->
   (forall reply, groq_content (VArr []) <> VStr reply) ->
   snd (Groq.analyzeWithGroq rt_no_choices env_keys listing_og_title)
   = Throw (TypeError (str "text.match is not a function"))) /\
  (forall reply, groq_content (VArr []) = VStr reply -> reply <> [] ->
   snd (Groq.analyzeWithGroq rt_no_choices env_keys listing_og_title)
   = Return (parseAIResponse reply)).
Proof.
  apply (X10_groq_reply_reading rt_no_choices env_keys listing_og_title
           (str "gsk_test")
           (match Groq.buildPrompt rt_no_choices listing_og_title with
            | Return prompt => prompt
            | Throw _ => []
            end)
           (mkResponse true 200 (strq "{`choices`:[]}"))
           (VObj [(str "choices", VArr [])]) (VArr []));
    try reflexivity; discriminate.
Defined.

(** X11. A failed image download does not abort the Gemini analysis: when
    the fetch of the first image throws, the model request is still sent,
    with the prompt as its only part, and the analysis ends as that request
    ends. *)
Theorem X11_image_failure_degrades (rt : Runtime) (env : Env) (d : ListingData)
        (image : jsstring) (others : list jsstring) (prompt : jsstring) (e : exn) :
  images d = image :: others ->
  Gemini.buildPrompt rt d = Return prompt ->
  fetch rt (get_image image) = Throw e ->
  Gemini.analyzeWithGemini rt env d =
    ([get_image image; gemini_request (GEMINI_API_KEY env) [text_part prompt]],
     gemini_outcome rt (gemini_request (GEMINI_API_KEY env) [text_part prompt])).
Proof.
  intros Hi Hp Hf. rewrite (gemini_analyze_sent rt env d prompt Hp).
  unfold gemini_image_requests, gemini_parts. now rewrite Hi, Hf.
Qed.

Lemma X11_image_failure_degrades_witness :
  Gemini.analyzeWithGemini rt_image_down env_keys listing_with_image =
    ([get_image image_url;
      gemini_request (GEMINI_API_KEY env_keys)
        [text_part (match Gemini.buildPrompt rt_image_down listing_with_image with
                    | Return prompt => prompt
                    | Throw _ => []
                    end)]],
     gemini_outcome rt_image_down
       (gemini_request (GEMINI_API_KEY env_keys)
          [text_part (match Gemini.buildPrompt rt_image_down listing_with_image with
                      | Return prompt => prompt
                      | Throw _ => []
                      end)])).
Proof.
  apply (X11_image_failure_degrades rt_image_down env_keys listing_with_image
           image_url [] _ (TypeError (str "fetch failed")));
    reflexivity.
Defined.

(** X12. The status of the image download is not looked at, and only the
    first image is downloaded: whatever the image host answers (a 404 page
    included), its body is attached, base64-encoded and labelled
    [image/webp], before the prompt. *)
Theorem X12_image_attached_whatever_status (rt : Runtime) (env : Env)
        (d : ListingData) (image : jsstring) (others : list jsstring)
        (prompt : jsstring) (imageResponse : Response) :
  images d = image :: others ->
  Gemini.buildPrompt rt d = Return prompt ->
  fetch rt (get_image image) = Return imageResponse ->
  fst (Gemini.analyzeWithGemini rt env d) =
    [get_image image;
     gemini_request (GEMINI_API_KEY env)
       [image_part (base64 rt (text imageResponse)); text_part prompt]].
Proof.
  intros Hi Hp Hf. rewrite (gemini_analyze_sent rt env d prompt Hp).
  unfold gemini_image_requests, gemini_parts. now rewrite Hi, Hf.
Qed.

Lemma X12_image_attached_whatever_status_witness :
  fst (Gemini.analyzeWithGemini rt_image_404 env_keys listing_with_image) =
    [get_image image_url;
     gemini_request (GEMINI_API_KEY env_keys)
       [image_part (base64 rt_image_404 (str "Not Found"));
        text_part (match Gemini.buildPrompt rt_image_404 listing_with_image with
                   | Return prompt => prompt
                   | Throw _ => []
                   end)]].
Proof.
  apply (X12_image_attached_whatever_status rt_image_404 env_keys listing_with_image
           image_url [] _ (mkResponse false 404 (str "Not Found")));
    reflexivity.
Defined.

(* ================================================================= *)
(** * The matcher is sound for the language of the pattern *)

Section Soundness.

Variable ic : bool.
Variable inp : jsstring.

Lemma star_greedy_lang (p : N -> bool) (s : jsstring) (caps : list jsstring)
      (k : mcont) (res : mres) :
  star_greedy p s caps k = Some res ->
  exists w s', s = w ++ s' /\ Forall (fun c => p c = true) w /\ k s' caps = Some res.
Proof.
  induction s as [|c s IH]; simpl.
  - intros H. exists [], []. auto.
  - destruct (p c) eqn:E.
    + destruct (star_greedy p s caps k) eqn:Es.
      * intros [= ->]. destruct (IH eq_refl) as [w [s' [-> [Hw Hk]]]].
        exists (c :: w), s'. auto.
      * intros H. exists [], (c :: s). auto.
    + intros H. exists [], (c :: s). auto.
Qed.

Lemma star_lazy_lang (p : N -> bool) (s : jsstring) (caps : list jsstring)
      (k : mcont) (res : mres) :
  star_lazy p s caps k = Some res ->
  exists w s', s = w ++ s' /\ Forall (fun c => p c = true) w /\ k s' caps = Some res /\
               forall w1 s1, s = w1 ++ s1 -> length w1 < length w -> k s1 caps = None.
Proof.
  induction s as [|c s IH]; simpl.
  - destruct (k [] caps) eqn:E; [|discriminate].
    intros [= ->]. exists [], []. repeat split; auto. intros w1 s1 _ L. simpl in L. lia.
  - destruct (k (c :: s) caps) eqn:E.
    + intros [= ->]. exists [], (c :: s). repeat split; auto.
      intros w1 s1 _ L. simpl in L. lia.
    + destruct (p c) eqn:Ec; [|discriminate]. intros H.
      destruct (IH H) as [w [s' [-> [Hw [Hk Hmin]]]]].
      exists (c :: w), s'. repeat split; auto.
      intros [|x w1] s1 E1 L; simpl in *.
      * now subst s1.
      * injection E1 as -> E1. apply (Hmin w1 s1 E1). lia.
Qed.

(** Whatever the matcher accepts is a word of the pattern, and the captures
    it hands on are those of the pattern's groups. *)
Lemma rmatch_lang (r : regex) :
  forall (s : jsstring) (caps : list jsstring) (k : mcont) (res : mres),
    rmatch ic inp r s caps k = Some res ->
    exists w cs s', s = w ++ s' /\ lang ic r w cs /\ k s' (caps ++ cs) = Some res.
Proof.
  induction r as [ | a | p | | r1 IH1 r2 IH2 | p | p | r IH | r IH ];
    intros s caps k res; simpl.
  - intros H. exists [], [], s. rewrite app_nil_r. auto using L_eps.
  - destruct s as [|c s]; [discriminate|].
    destruct (chr_eqb ic a c) eqn:E; [|discriminate].
    intros H. exists [c], [], s. rewrite app_nil_r. auto using L_chr.
  - destruct s as [|c s]; [discriminate|].
    destruct (p c) eqn:E; [|discriminate].
    intros H. exists [c], [], s. rewrite app_nil_r. auto using L_cls.
  - destruct (Nat.eqb (length s) (length inp)); [|discriminate].
    intros H. exists [], [], s. rewrite app_nil_r. auto using L_bol.
  - intros H. destruct (IH1 _ _ _ _ H) as [w1 [c1 [s1 [-> [L1 H1]]]]].
    destruct (IH2 _ _ _ _ H1) as [w2 [c2 [s2 [-> [L2 H2]]]]].
    exists (w1 ++ w2), (c1 ++ c2), s2.
    rewrite <- !app_assoc in *. auto using L_seq.
  - intros H. destruct (star_greedy_lang _ _ _ _ _ H) as [w [s' [-> [Hw Hk]]]].
    exists w, [], s'. rewrite app_nil_r. auto using L_star.
  - intros H. destruct (star_lazy_lang _ _ _ _ _ H) as [w [s' [-> [Hw [Hk _]]]]].
    exists w, [], s'. rewrite app_nil_r. auto using L_star_lazy.
  - destruct (rmatch ic inp r s caps k) eqn:E.
    + intros [= ->]. destruct (IH _ _ _ _ E) as [w [cs [s' [-> [L H]]]]].
      exists w, cs, s'. auto using L_opt_some.
    + intros H. exists [], [], s. rewrite app_nil_r. auto using L_opt_none.
  - intros H. destruct (IH _ _ _ _ H) as [w [cs [s' [-> [L Hk]]]]].
    rewrite firstn_suffix_eq in Hk.
    exists w, (cs ++ [w]), s'. rewrite app_assoc. auto using L_grp.
Qed.

Lemma match_here_lang (r : regex) (s s' : jsstring) (caps : list jsstring) :
  match_here ic inp r s = Some (s', caps) ->
  exists w, s = w ++ s' /\ lang ic r w caps.
Proof.
  unfold match_here. intros H.
  destruct (rmatch_lang _ _ _ _ _ H) as [w [cs [s1 [-> [L [= -> ->]]]]]]. eauto.
Qed.

Lemma search_lang (r : regex) (s : jsstring) (m : MatchResult) :
  search ic inp r s = Some m ->
  s = before m ++ matched m ++ after m /\ lang ic r (matched m) (groups m).
Proof.
  intros H. apply search_some in H. destruct H as [E [H _]].
  split; auto. apply match_here_lang in H. destruct H as [w [Ew L]].
  apply app_inv_tail in Ew. now subst w.
Qed.

End Soundness.

(** What [exec] returns is a match: the matched text is a word of the
    pattern and the groups are its captures. *)
Lemma exec_lang (re : RegExp) (s : jsstring) (m : MatchResult) :
  exec re s = Some m ->
  s = before m ++ matched m ++ after m /\
  lang (flag_i re) (source re) (matched m) (groups m).
Proof. unfold exec. apply search_lang. Qed.

(** Taking a pattern apart. *)
Lemma lang_seq_inv (ic : bool) (r1 r2 : regex) (w : jsstring) (cs : list jsstring) :
  lang ic (Seq r1 r2) w cs ->
  exists w1 w2 c1 c2, w = w1 ++ w2 /\ cs = c1 ++ c2 /\
                      lang ic r1 w1 c1 /\ lang ic r2 w2 c2.
Proof. intros H. inversion H; subst. repeat eexists; eauto. Qed.

Lemma lang_lit_inv (pat w : jsstring) (cs : list jsstring) :
  lang false (lit pat) w cs -> w = pat /\ cs = [].
Proof.
  revert w cs. induction pat as [|a pat IH]; intros w cs H; simpl in H.
  - inversion H. auto.
  - apply lang_seq_inv in H. destruct H as [w1 [w2 [c1 [c2 [-> [-> [H1 H2]]]]]]].
    inversion H1; subst. destruct (IH _ _ H2) as [-> ->].
    unfold chr_eqb in *.
    match goal with H : N.eqb _ _ = true |- _ => apply N.eqb_eq in H; subst end.
    auto.
Qed.

Lemma lang_plus_inv (ic : bool) (p : N -> bool) (w : jsstring) (cs : list jsstring) :
  lang ic (Plus p) w cs -> w <> [] /\ Forall (fun c => p c = true) w /\ cs = [].
Proof.
  unfold Plus. intros H.
  apply lang_seq_inv in H. destruct H as [w1 [w2 [c1 [c2 [-> [-> [H1 H2]]]]]]].
  inversion H1; subst. inversion H2; subst. simpl.
  split; [discriminate|]. split; auto.
Qed.

Lemma lang_star_inv (ic : bool) (p : N -> bool) (w : jsstring) (cs : list jsstring) :
  lang ic (Star p) w cs -> Forall (fun c => p c = true) w /\ cs = [].
Proof. intros H. inversion H; subst. auto. Qed.

Lemma lang_chr_inv (a : N) (w : jsstring) (cs : list jsstring) :
  lang false (Chr a) w cs -> w = [a] /\ cs = [].
Proof.
  intros H. inversion H; subst. unfold chr_eqb in *.
  match goal with H : N.eqb _ _ = true |- _ => apply N.eqb_eq in H; subst end. auto.
Qed.

Lemma lang_opt_chr_inv (a : N) (w : jsstring) (cs : list jsstring) :
  lang false (Opt (Chr a)) w cs -> (w = [a] \/ w = []) /\ cs = [].
Proof.
  intros H. inversion H; subst; auto.
  match goal with H : lang _ (Chr _) _ _ |- _ => apply lang_chr_inv in H; destruct H end.
  auto.
Qed.

Lemma lang_grp_inv (ic : bool) (r : regex) (w : jsstring) (cs : list jsstring) :
  lang ic (Grp r) w cs -> exists c, cs = c ++ [w] /\ lang ic r w c.
Proof. intros H. inversion H; subst. eauto. Qed.

(* ================================================================= *)
(** * The fields taken from the page *)

(** A match of [([^`]+)`] is a non-empty text without double quote, then
    a double quote. *)
Lemma quoted_tail_lang (w : jsstring) (cs : list jsstring) :
  lang false (Seq (Grp (Plus not_quote)) (Chr 34)) w cs ->
  exists g, w = g ++ [34%N] /\ cs = [g] /\ g <> [] /\
            Forall (fun c => not_quote c = true) g.
Proof.
  intros H. apply lang_seq_inv in H.
  destruct H as [g [w2 [c1 [c2 [Ew [Ec [L1 L2]]]]]]].
  apply lang_grp_inv in L1. destruct L1 as [c0 [Ec1 L1]].
  apply lang_plus_inv in L1. destruct L1 as [Hne [Hall Ec0]].
  apply lang_chr_inv in L2. destruct L2 as [Ew2 Ec2].
  subst. exists g. auto.
Qed.

Lemma meta_pattern_field (opening html : jsstring) (m : MatchResult) :
  exec (mkRegExp (Seq (lit opening) (Seq (Grp (Plus not_quote)) (Chr 34))) false false)
       html = Some m ->
  quoted_in html (group 1 m).
Proof.
  intros H. apply exec_lang in H. cbn [source flag_i] in H. destruct H as [E L].
  apply lang_seq_inv in L. destruct L as [w1 [w2 [c1 [c2 [Ew [Ec [L1 L2]]]]]]].
  apply lang_lit_inv in L1. destruct L1 as [Ew1 Ec1].
  apply quoted_tail_lang in L2. destruct L2 as [g [Ew2 [Ec2 [Hne Hall]]]].
  subst w1 c1 w2 c2. simpl in Ec. unfold group. rewrite Ec. cbn [nth Nat.sub].
  split; [auto|]. split; [auto|].
  exists (before m ++ opening), (after m). rewrite E, Ew.
  now rewrite <- !app_assoc.
Qed.

Lemma brand_pattern_field (html : jsstring) (m : MatchResult) :
  exec re_brand html = Some m -> quoted_in html (group 1 m).
Proof.
  intros H. apply exec_lang in H. cbn [source flag_i re_brand] in H.
  destruct H as [E L].
  apply lang_seq_inv in L. destruct L as [w1 [r1 [c1 [d1 [Ew1 [Ec1 [L1 L]]]]]]].
  apply lang_seq_inv in L. destruct L as [w2 [r2 [c2 [d2 [Ew2 [Ec2 [L2 L]]]]]]].
  apply lang_seq_inv in L. destruct L as [w3 [r3 [c3 [d3 [Ew3 [Ec3 [L3 L]]]]]]].
  apply lang_seq_inv in L. destruct L as [w4 [r4 [c4 [d4 [Ew4 [Ec4 [L4 L]]]]]]].
  apply lang_seq_inv in L. destruct L as [w5 [r5 [c5 [d5 [Ew5 [Ec5 [L5 L]]]]]]].
  apply lang_seq_inv in L. destruct L as [w6 [r6 [c6 [d6 [Ew6 [Ec6 [L6 L]]]]]]].
  apply lang_seq_inv in L. destruct L as [w7 [r7 [c7 [d7 [Ew7 [Ec7 [L7 L]]]]]]].
  apply lang_lit_inv in L1. destruct L1 as [_ ->].
  apply lang_star_inv in L2. destruct L2 as [_ ->].
  apply lang_chr_inv in L3. destruct L3 as [_ ->].
  apply lang_star_inv in L4. destruct L4 as [_ ->].
  apply lang_lit_inv in L5. destruct L5 as [_ ->].
  apply lang_star_inv in L6. destruct L6 as [_ ->].
  apply lang_chr_inv in L7. destruct L7 as [_ ->].
  apply quoted_tail_lang in L. destruct L as [g [Eg [Ec [Hne Hall]]]].
  subst r1 r2 r3 r4 r5 r6 r7 d1 d2 d3 d4 d5 d6 d7.
  simpl in Ec1. unfold group. rewrite Ec1. cbn [nth Nat.sub].
  split; [auto|]. split; [auto|].
  exists (before m ++ w1 ++ w2 ++ w3 ++ w4 ++ w5 ++ w6 ++ w7), (after m).
  rewrite E, Ew1. now rewrite <- !app_assoc.
Qed.

(** X13. Title, description and brand come from the structured data when
    its field is truthy, whatever the page says; otherwise from the page
    pattern, and what a pattern gives is [null] or a non-empty text without
    double quote that stands in the page right before a double quote:
    never an empty string. *)
Theorem X13_fields_from_data_or_page (html : jsstring) (jsonLd : value) :
  (truthy (opt_member jsonLd (str "name")) = true /\
   extractTitle html jsonLd = opt_member jsonLd (str "name") \/
   truthy (opt_member jsonLd (str "name")) = false /\
   pattern_field html (extractTitle html jsonLd)) /\
  (truthy (opt_member jsonLd (str "description")) = true /\
   extractDescription html jsonLd = opt_member jsonLd (str "description") \/
   truthy (opt_member jsonLd (str "description")) = false /\
   pattern_field html (extractDescription html jsonLd)) /\
  (truthy (opt_member (opt_member jsonLd (str "brand")) (str "name")) = true /\
   extractBrand html jsonLd = opt_member (opt_member jsonLd (str "brand")) (str "name") \/
   truthy (opt_member (opt_member jsonLd (str "brand")) (str "name")) = false /\
   pattern_field html (extractBrand html jsonLd)).
Proof.
  unfold extractTitle, extractDescription, extractBrand, pattern_field.
  split; [|split].
  - destruct (truthy (opt_member jsonLd (str "name"))); [now left|].
    right. split; [reflexivity|].
    destruct (exec re_og_title html) as [m|] eqn:E; [|now left].
    right. exists (group 1 m). split; [reflexivity|].
    exact (meta_pattern_field og_title_open html m E).
  - destruct (truthy (opt_member jsonLd (str "description"))); [now left|].
    right. split; [reflexivity|].
    destruct (exec re_og_description html) as [m|] eqn:E; [|now left].
    right. exists (group 1 m). split; [reflexivity|].
    exact (meta_pattern_field og_description_open html m E).
  - destruct (truthy (opt_member (opt_member jsonLd (str "brand")) (str "name")));
      [now left|].
    right. split; [reflexivity|].
    destruct (exec re_brand html) as [m|] eqn:E; [|now left].
    right. exists (group 1 m). split; [reflexivity|].
    exact (brand_pattern_field html m E).
Qed.

Section FirstMetaTag.

Variable opening : jsstring.

Let re : RegExp :=
  mkRegExp (Seq (lit opening) (Seq (Grp (Plus not_quote)) (Chr 34))) false false.

Lemma meta_match_here (inp g q : jsstring) :
  g <> [] -> Forall (fun c => not_quote c = true) g ->
  match_here false inp (source re) (opening ++ g ++ 34%N :: q) = Some (q, [g]).
Proof.
  intros Hne Hall. unfold match_here. cbn [source re].
  change (rmatch false inp (Seq ?a ?b) ?s [] ?k)
    with (rmatch false inp a s [] (fun s' caps' => rmatch false inp b s' caps' k)).
  rewrite rmatch_lit, (proj2 (strip_lit_exact opening _ (g ++ 34%N :: q)) eq_refl).
  destruct g as [|c g]; [congruence|]. inversion Hall as [|? ? Hc Hg]; subst.
  cbn [rmatch Plus app]. rewrite Hc.
  rewrite star_greedy_disjoint.
  - rewrite skip_while_all by exact Hg.
    rewrite skip_while_stop by reflexivity.
    unfold chr_eqb. cbn [N.eqb Pos.eqb].
    change (c :: g ++ 34%N :: q) with ((c :: g) ++ 34%N :: q).
    now rewrite (firstn_suffix_eq (c :: g) (34%N :: q)).
  - intros x t Hx. unfold chr_eqb.
    destruct (N.eqb_spec 34 x) as [<-|]; [discriminate | reflexivity].
Qed.

(** The first occurrence of the opening whose content is not empty gives
    the field. *)
Lemma first_meta_tag (html p g q : jsstring) :
  html = p ++ opening ++ g ++ 34%N :: q ->
  g <> [] -> Forall (fun c => not_quote c = true) g ->
  (forall p', occurs_at opening html p' -> length p <= length p') ->
  exists mt, exec re html = Some (mkMatch p mt [g] q).
Proof.
  intros E Hne Hall Hfirst. unfold exec. cbn [flag_i re].
  eexists.
  assert (S : search false html (source re) (p ++ opening ++ g ++ 34%N :: q) =
              Some (mkMatch p
                      (firstn (length (opening ++ g ++ 34%N :: q) - length q)
                              (opening ++ g ++ 34%N :: q)) [g] q));
    [|rewrite <- E in S; exact S].
  apply search_at.
  - exact (meta_match_here html g q Hne Hall).
  - rewrite <- E. intros p' q' E' L. unfold match_here. cbn [source re].
    change (rmatch false html (Seq ?a ?b) ?s [] ?k)
      with (rmatch false html a s [] (fun s' caps' => rmatch false html b s' caps' k)).
    rewrite rmatch_lit.
    destruct (strip_lit false opening q') as [r|] eqn:Es; [|reflexivity].
    apply strip_lit_exact in Es. exfalso.
    assert (O : occurs_at opening html p').
    { exists r. rewrite E', Es. reflexivity. }
    apply Hfirst in O. lia.
Qed.

End FirstMetaTag.

(** X14. The title is the content of the first [og:title] meta tag of the
    page, and the description that of the first [og:description] tag, when
    the structured data gives none and that content is not empty. *)
Theorem X14_first_meta_tag_wins (html p g q : jsstring) (jsonLd : value) :
  g <> [] -> Forall (fun c => not_quote c = true) g ->
  (html = p ++ og_title_open ++ g ++ 34%N :: q ->
   (forall p', occurs_at og_title_open html p' -> length p <= length p') ->
   truthy (opt_member jsonLd (str "name")) = false ->
   extractTitle html jsonLd = VStr g) /\
  (html = p ++ og_description_open ++ g ++ 34%N :: q ->
   (forall p', occurs_at og_description_open html p' -> length p <= length p') ->
   truthy (opt_member jsonLd (str "description")) = false ->
   extractDescription html jsonLd = VStr g).
Proof.
  intros Hne Hall. split; intros E Hfirst Hno.
  - unfold extractTitle. rewrite Hno.
    destruct (first_meta_tag og_title_open html p g q E Hne Hall Hfirst) as [mt H].
    change (exec re_og_title html = Some (mkMatch p mt [g] q)) in H.
    now rewrite H.
  - unfold extractDescription. rewrite Hno.
    destruct (first_meta_tag og_description_open html p g q E Hne Hall Hfirst) as [mt H].
    change (exec re_og_description html = Some (mkMatch p mt [g] q)) in H.
    now rewrite H.
Qed.

Lemma first_occurrence_decide (pat s p r : jsstring) :
  split_first (strip_lit false pat) s = Some (p, r) ->
  s = p ++ pat ++ r /\
  forall p', occurs_at pat s p' -> length p <= length p'.
Proof.
  intros H. apply split_first_some in H. destruct H as [q [E [Hq Hmin]]].
  apply strip_lit_exact in Hq. subst q. split; auto.
  intros p' [q' E'].
  destruct (Nat.lt_ge_cases (length p') (length p)) as [L|L]; auto.
  pose proof (Hmin p' (pat ++ q') E' L) as Hn.
  rewrite (proj2 (strip_lit_exact pat _ q') eq_refl) in Hn. discriminate.
Qed.

Lemma X14_first_meta_tag_wins_witness :
  extractTitle page_og_title VNull = VStr (str "Wool Coat").
Proof.
  assert (Hne : str "Wool Coat" <> []) by discriminate.
  assert (Hall : Forall (fun c => not_quote c = true) (str "Wool Coat"))
    by (repeat constructor).
  apply (proj1 (X14_first_meta_tag_wins page_og_title (str "<html><head>")
                  (str "Wool Coat") (str "></head></html>") VNull Hne Hall)).
  - reflexivity.
  - apply (first_occurrence_decide og_title_open page_og_title (str "<html><head>")
             (strq "Wool Coat`></head></html>")).
    reflexivity.
  - reflexivity.
Defined.

(* ================================================================= *)
(** * The price *)

Lemma price_group_lang (g : jsstring) (cs : list jsstring) :
  lang false (Seq (Plus is_digit) (Opt (Seq (Chr 46) (Plus is_digit)))) g cs ->
  decimal_text g /\ cs = [].
Proof.
  intros H. apply lang_seq_inv in H.
  destruct H as [ds [frac [c1 [c2 [Eg [Ec [L1 L2]]]]]]].
  apply lang_plus_inv in L1. destruct L1 as [Hne [Hds Ec1]].
  assert (F : (frac = [] \/
               exists fs, frac = 46%N :: fs /\ fs <> [] /\
                          Forall (fun c => is_digit c = true) fs) /\ c2 = []).
  { inversion L2 as [ | | | | | | | r w c L | r | ]; subst.
    - apply lang_seq_inv in L. destruct L as [w1 [fs [d1 [d2 [Ew [Ed [La Lb]]]]]]].
      apply lang_chr_inv in La. destruct La as [-> ->].
      apply lang_plus_inv in Lb. destruct Lb as [Hfn [Hfs ->]].
      subst. split; [|reflexivity]. right. exists fs. auto.
    - auto. }
  destruct F as [F ->]. subst. split; [|reflexivity].
  exists ds, frac. auto.
Qed.

Lemma price_pattern (html : jsstring) (m : MatchResult) :
  exec re_price html = Some m ->
  decimal_text (group 1 m) /\ exists p q, html = p ++ group 1 m ++ q.
Proof.
  intros H. apply exec_lang in H. cbn [source flag_i re_price] in H.
  destruct H as [E L].
  apply lang_seq_inv in L. destruct L as [w1 [r1 [c1 [d1 [Ew1 [Ec1 [L1 L]]]]]]].
  apply lang_seq_inv in L. destruct L as [w2 [r2 [c2 [d2 [Ew2 [Ec2 [L2 L]]]]]]].
  apply lang_seq_inv in L. destruct L as [w3 [r3 [c3 [d3 [Ew3 [Ec3 [L3 L]]]]]]].
  apply lang_seq_inv in L. destruct L as [g [w5 [c4 [c5 [Ew4 [Ec4 [L4 L5]]]]]]].
  apply lang_lit_inv in L1. destruct L1 as [_ ->].
  apply lang_star_inv in L2. destruct L2 as [_ ->].
  apply lang_opt_chr_inv in L3. destruct L3 as [_ ->].
  apply lang_opt_chr_inv in L5. destruct L5 as [_ ->].
  apply lang_grp_inv in L4. destruct L4 as [c0 [-> L4]].
  apply price_group_lang in L4. destruct L4 as [Hdec ->].
  subst r1 r2 r3 d1 d2 d3. simpl in Ec1. unfold group. rewrite Ec1.
  cbn [nth Nat.sub]. split; [exact Hdec|].
  exists (before m ++ w1 ++ w2 ++ w3), (w5 ++ after m).
  rewrite E, Ew1. now rewrite <- !app_assoc.
Qed.

(** X15. Without a truthy [offers.price] in the structured data the price
    comes from the page and extraction does not throw: it is [null], or the
    euro sign followed by a decimal number of the page (digits, then
    possibly a dot and digits). *)
Theorem X15_price_from_page (rt : Runtime) (html : jsstring) (jsonLd : value) :
  truthy (opt_member (opt_member jsonLd (str "offers")) (str "price")) = false ->
  extractPrice rt html jsonLd = Return VNull \/
  exists g, extractPrice rt html jsonLd = Return (VStr (euro ++ g)) /\
            decimal_text g /\ exists p q, html = p ++ g ++ q.
Proof.
  intros Hno. unfold extractPrice. rewrite Hno.
  destruct (exec re_price html) as [m|] eqn:E; [|now left].
  right. exists (group 1 m). split; [reflexivity|]. now apply price_pattern.
Qed.

Lemma X15_price_from_page_witness :
  extractPrice rt_og_title (strq "{`price`: `45.50`, `currency`: `EUR`}") VNull
  = Return VNull \/
  exists g,
    extractPrice rt_og_title (strq "{`price`: `45.50`, `currency`: `EUR`}") VNull
    = Return (VStr (euro ++ g)) /\
    decimal_text g /\
    exists p q, strq "{`price`: `45.50`, `currency`: `EUR`}" = p ++ g ++ q.
Proof.
  apply (X15_price_from_page rt_og_title
           (strq "{`price`: `45.50`, `currency`: `EUR`}") VNull).
  reflexivity.
Defined.

(** The example of X15 evaluated, and the greedy reading of the fraction. *)
Example price_examples :
  extractPrice rt_og_title (strq "{`price`: `45.50`, `currency`: `EUR`}") VNull
  = Return (VStr (euro ++ str "45.50")) /\
  extractPrice rt_og_title (strq "`price`:12.") VNull
  = Return (VStr (euro ++ str "12")) /\
  extractPrice rt_og_title (strq "`price`: free") VNull = Return VNull.
Proof. repeat split; vm_compute; reflexivity. Qed.

(** X16. With a non-empty string as [offers.price] the page is not looked
    at: the price is that string after the euro sign when the currency is
    [EUR] or is missing or empty, and after the currency code itself for
    any other code. *)
Theorem X16_price_from_data (rt : Runtime) (html : jsstring) (jsonLd : value)
        (amount : jsstring) :
  opt_member (opt_member jsonLd (str "offers")) (str "price") = VStr amount ->
  amount <> [] ->
  let currency :=
    opt_member (opt_member jsonLd (str "offers")) (str "priceCurrency") in
  (currency = VStr (str "EUR") \/ truthy currency = false ->
   extractPrice rt html jsonLd = Return (VStr (euro ++ amount))) /\
  (forall code, currency = VStr code -> code <> [] -> code <> str "EUR" ->
   extractPrice rt html jsonLd = Return (VStr (code ++ amount))).
Proof.
  intros Hp Hne currency. unfold extractPrice. fold currency. rewrite Hp.
  assert (T : truthy (VStr amount) = true) by (destruct amount; [congruence|reflexivity]).
  rewrite T. split.
  - intros [-> | Hc].
    + reflexivity.
    + unfold or_else. rewrite Hc. reflexivity.
  - intros code -> Hcode Heur. unfold or_else.
    assert (Tc : truthy (VStr code) = true)
      by (destruct code; [congruence|reflexivity]).
    rewrite Tc. unfold is_string.
    destruct (jsstring_eqb code (str "EUR")) eqn:Ee.
    + apply jsstring_eqb_eq in Ee. contradiction.
    + reflexivity.
Qed.

Lemma X16_price_from_data_witness :
  let currency :=
    opt_member (opt_member
      (VObj [(str "offers", VObj [(str "price", VStr (str "45"));
                                  (str "priceCurrency", VStr (str "EUR"))])])
      (str "offers")) (str "priceCurrency") in
  (currency = VStr (str "EUR") \/ truthy currency = false ->
   extractPrice rt_og_title []
     (VObj [(str "offers", VObj [(str "price", VStr (str "45"));
                                 (str "priceCurrency", VStr (str "EUR"))])])
   = Return (VStr (euro ++ str "45"))) /\
  (forall code, currency = VStr code -> code <> [] -> code <> str "EUR" ->
   extractPrice rt_og_title []
     (VObj [(str "offers", VObj [(str "price", VStr (str "45"));
                                 (str "priceCurrency", VStr (str "EUR"))])])
   = Return (VStr (code ++ str "45"))).
Proof.
  apply (X16_price_from_data rt_og_title []
           (VObj [(str "offers", VObj [(str "price", VStr (str "45"));
                                       (str "priceCurrency", VStr (str "EUR"))])])
           (str "45")).
  - reflexivity.
  - discriminate.
Defined.

(* ================================================================= *)
(** * The condition *)

Lemma strip_prefix_exact (pat s r : jsstring) :
  strip_prefix pat s = Some r <-> s = pat ++ r.
Proof.
  revert s. induction pat as [|a pat IH]; intros s; simpl.
  - split; [now intros [= ->] | now intros ->].
  - destruct s as [|c s]; [split; discriminate|].
    destruct (N.eqb_spec a c) as [->|Hne].
    + rewrite IH. split; [now intros -> | now intros [= ->]].
    + split; [discriminate | intros [= -> _]; contradiction].
Qed.

(** [replace] with a string pattern rewrites the first occurrence, wherever
    it is, and only that one. *)
Lemma replace_string_first (pat by_ p r : jsstring) :
  (forall p', occurs_at pat (p ++ pat ++ r) p' -> length p <= length p') ->
  replace_string pat by_ (p ++ pat ++ r) = p ++ by_ ++ r.
Proof.
  induction p as [|c p IH]; intros Hmin.
  - cbn [app]. destruct (pat ++ r) as [|x t] eqn:E; cbn [replace_string].
    + rewrite (proj2 (strip_prefix_exact pat [] r)) by now rewrite E. reflexivity.
    + rewrite (proj2 (strip_prefix_exact pat (x :: t) r)) by now rewrite E. reflexivity.
  - cbn [app replace_string].
    destruct (strip_prefix pat (c :: p ++ pat ++ r)) as [r'|] eqn:E.
    + apply strip_prefix_exact in E.
      assert (O : occurs_at pat ((c :: p) ++ pat ++ r) []) by (exists r'; exact E).
      apply Hmin in O. simpl in O. lia.
    + f_equal. apply IH. intros p' [q E']. 
      assert (O : occurs_at pat ((c :: p) ++ pat ++ r) (c :: p')).
      { exists q. cbn [app]. now rewrite E'. }
      apply Hmin in O. simpl in O. lia.
Qed.

Lemma replace_string_absent (pat by_ s : jsstring) :
  (forall p, ~ occurs_at pat s p) -> replace_string pat by_ s = s.
Proof.
  induction s as [|c s IH]; intros Hno.
  - cbn [replace_string]. destruct (strip_prefix pat []) as [r|] eqn:E; auto.
    apply strip_prefix_exact in E. destruct (Hno []). now exists r.
  - cbn [replace_string]. destruct (strip_prefix pat (c :: s)) as [r|] eqn:E.
    + apply strip_prefix_exact in E. destruct (Hno []). now exists r.
    + f_equal. apply IH. intros p [q E']. apply (Hno (c :: p)).
      exists q. cbn [app]. now rewrite E'.
Qed.

(** The first occurrence of a literal, decided by a search. *)
Lemma no_occurrence_decide (pat s : jsstring) :
  split_first (strip_lit false pat) s = None -> forall p, ~ occurs_at pat s p.
Proof.
  intros H p [q E].
  pose proof (split_first_none _ _ _ H p (pat ++ q) E) as Hn.
  rewrite (proj2 (strip_lit_exact pat _ q) eq_refl) in Hn. discriminate.
Qed.

(** X17. A condition given by the structured data as a non-empty string
    loses the first occurrence of the schema.org prefix, wherever it
    stands, and nothing else; a string without the prefix is the condition
    as it is. The page is not looked at. *)
Theorem X17_condition_prefix_removed (html : jsstring) (jsonLd : value)
        (s : jsstring) :
  opt_member jsonLd (str "itemCondition") = VStr s -> s <> [] ->
  (forall p r, s = p ++ schema_org ++ r ->
     (forall p', occurs_at schema_org s p' -> length p <= length p') ->
     extractCondition html jsonLd = Return (VStr (p ++ r))) /\
  ((forall p, ~ occurs_at schema_org s p) ->
   extractCondition html jsonLd = Return (VStr s)).
Proof.
  intros Hc Hne. unfold extractCondition. rewrite Hc.
  assert (T : truthy (VStr s) = true) by (destruct s; [congruence|reflexivity]).
  rewrite T. fold schema_org. split.
  - intros p r E Hmin. subst s.
    now rewrite (replace_string_first schema_org [] p r Hmin).
  - intros Hno. now rewrite (replace_string_absent schema_org [] s Hno).
Qed.

Lemma X17_condition_prefix_removed_witness :
  extractCondition []
    (VObj [(str "itemCondition", VStr (str "https://schema.org/UsedCondition"))])
  = Return (VStr (str "UsedCondition")).
Proof.
  assert (Hne : str "https://schema.org/UsedCondition" <> []) by discriminate.
  apply (proj1 (X17_condition_prefix_removed []
                  (VObj [(str "itemCondition",
                          VStr (str "https://schema.org/UsedCondition"))])
                  (str "https://schema.org/UsedCondition") eq_refl Hne)
               [] (str "UsedCondition") eq_refl).
  apply (first_occurrence_decide schema_org
           (str "https://schema.org/UsedCondition") [] (str "UsedCondition")).
  reflexivity.
Defined.

(* ================================================================= *)
(** * The structured-data block *)

(** A lazy star stops at the first position where the rest of the pattern
    matches. *)
Lemma star_lazy_first (p : N -> bool) (w s : jsstring) (caps : list jsstring)
      (k : mcont) (res : mres) :
  Forall (fun c => p c = true) w ->
  k s caps = Some res ->
  (forall w1 w2, w = w1 ++ w2 -> w2 <> [] -> k (w2 ++ s) caps = None) ->
  star_lazy p (w ++ s) caps k = Some res.
Proof.
  induction w as [|c w IH]; intros Hall Hk Hmin.
  - cbn [app]. destruct s; cbn [star_lazy]; now rewrite Hk.
  - cbn [app star_lazy].
    assert (N0 : k (c :: w ++ s) caps = None)
      by (apply (Hmin [] (c :: w)); [reflexivity | discriminate]).
    rewrite N0.
    inversion Hall as [|? ? Hc Hw]; subst. rewrite Hc.
    apply IH; auto. intros w1 w2 E Hne. apply (Hmin (c :: w1) w2); auto.
    cbn [app]. now rewrite E.
Qed.

Lemma json_ld_match_here (inp g q : jsstring) :
  (forall g', occurs_at json_ld_close (g ++ json_ld_close ++ q) g' ->
              length g <= length g') ->
  match_here false inp (source re_json_ld)
             (json_ld_open ++ g ++ json_ld_close ++ q) = Some (q, [g]).
Proof.
  intros Hmin. unfold match_here. cbn [source re_json_ld].
  fold json_ld_open json_ld_close.
  change (rmatch false inp (Seq ?a ?b) ?s [] ?k)
    with (rmatch false inp a s [] (fun s' caps' => rmatch false inp b s' caps' k)).
  rewrite rmatch_lit,
    (proj2 (strip_lit_exact json_ld_open _ (g ++ json_ld_close ++ q)) eq_refl).
  cbn [rmatch].
  apply star_lazy_first.
  - clear. induction g; constructor; auto.
  - rewrite rmatch_lit, (proj2 (strip_lit_exact json_ld_close _ q) eq_refl).
    cbn [app]. now rewrite (firstn_suffix_eq g (json_ld_close ++ q)).
  - intros w1 w2 E Hne. rewrite rmatch_lit.
    destruct (strip_lit false json_ld_close (w2 ++ json_ld_close ++ q))
      as [r|] eqn:Es; [|reflexivity].
    apply strip_lit_exact in Es. exfalso.
    assert (O : occurs_at json_ld_close (g ++ json_ld_close ++ q) w1).
    { exists r. rewrite E, <- app_assoc. now rewrite Es. }
    apply Hmin in O. rewrite E, length_app in O.
    destruct w2; [congruence | simpl in O; lia].
Qed.

Lemma first_json_ld_block (html p g q : jsstring) :
  html = p ++ json_ld_open ++ g ++ json_ld_close ++ q ->
  (forall p', occurs_at json_ld_open html p' -> length p <= length p') ->
  (forall g', occurs_at json_ld_close (g ++ json_ld_close ++ q) g' ->
              length g <= length g') ->
  exists mt, exec re_json_ld html = Some (mkMatch p mt [g] q).
Proof.
  intros E Hfirst Hclose. unfold exec. cbn [flag_i re_json_ld].
  eexists.
  assert (S : search false html (source re_json_ld)
                     (p ++ json_ld_open ++ g ++ json_ld_close ++ q) =
              Some (mkMatch p
                      (firstn (length (json_ld_open ++ g ++ json_ld_close ++ q)
                               - length q)
                              (json_ld_open ++ g ++ json_ld_close ++ q)) [g] q));
    [|rewrite <- E in S; exact S].
  apply search_at.
  - exact (json_ld_match_here html g q Hclose).
  - rewrite <- E. intros p' q' E' L. unfold match_here. cbn [source re_json_ld].
    fold json_ld_open json_ld_close.
    change (rmatch false html (Seq ?a ?b) ?s [] ?k)
      with (rmatch false html a s [] (fun s' caps' => rmatch false html b s' caps' k)).
    rewrite rmatch_lit.
    destruct (strip_lit false json_ld_open q') as [r|] eqn:Es; [|reflexivity].
    apply strip_lit_exact in Es. exfalso.
    assert (O : occurs_at json_ld_open html p').
    { exists r. rewrite E', Es. reflexivity. }
    apply Hfirst in O. lia.
Qed.

(** X18. Of several structured-data blocks only the first is read: the
    text between the first opening tag and the first closing tag after it
    goes to [JSON.parse], and when that rejects it the structured data is
    [null], whatever later blocks hold. *)
Theorem X18_first_json_ld_block_only (rt : Runtime) (html p g q : jsstring) :
  html = p ++ json_ld_open ++ g ++ json_ld_close ++ q ->
  (forall p', occurs_at json_ld_open html p' -> length p <= length p') ->
  (forall g', occurs_at json_ld_close (g ++ json_ld_close ++ q) g' ->
              length g <= length g') ->
  json_ld_of rt html =
  match JSON_parse rt g with Some v => v | None => VNull end.
Proof.
  intros E Hfirst Hclose. unfold json_ld_of.
  destruct (first_json_ld_block html p g q E Hfirst Hclose) as [mt ->].
  reflexivity.
Qed.

Lemma X18_first_json_ld_block_only_witness :
  json_ld_of rt_two_blocks page_two_blocks =
  VObj [(str "name", VStr (str "Wool Coat"))].
Proof.
  apply (X18_first_json_ld_block_only rt_two_blocks page_two_blocks []
           (strq "{`name`:`Wool Coat`}")
           (strq "<script type=`application/ld+json`>{`name`:`Silk Scarf`}</script>")).
  - reflexivity.
  - apply (first_occurrence_decide json_ld_open page_two_blocks []
             (strq "{`name`:`Wool Coat`}</script><script type=`application/ld+json`>{`name`:`Silk Scarf`}</script>")).
    reflexivity.
  - apply (first_occurrence_decide json_ld_close _ (strq "{`name`:`Wool Coat`}")
             (strq "<script type=`application/ld+json`>{`name`:`Silk Scarf`}</script>")).
    reflexivity.
Defined.

(* ================================================================= *)
(** * Pages without structured data *)

Lemma fields_of_page (html : jsstring) :
  pattern_field html (extractTitle html VNull) /\
  pattern_field html (extractBrand html VNull) /\
  pattern_field html (extractDescription html VNull).
Proof.
  unfold extractTitle, extractDescription, extractBrand, pattern_field.
  cbn [opt_member truthy]. split; [|split].
  - destruct (exec re_og_title html) as [m|] eqn:E; [|now left].
    right. exists (group 1 m). split; [reflexivity|].
    exact (meta_pattern_field og_title_open html m E).
  - destruct (exec re_brand html) as [m|] eqn:E; [|now left].
    right. exists (group 1 m). split; [reflexivity|].
    exact (brand_pattern_field html m E).
  - destruct (exec re_og_description html) as [m|] eqn:E; [|now left].
    right. exists (group 1 m). split; [reflexivity|].
    exact (meta_pattern_field og_description_open html m E).
Qed.

Lemma fetchVintedListing_fetched (rt : Runtime) (u : value) (response : Response) :
  fetch rt (get_listing u) = Return response -> ok response = true ->
  fetchVintedListing rt u =
  match extract_data rt (text response) (json_ld_of rt (text response)) u with
  | Return d =>
      if negb (truthy (title d)) && negb (truthy (price d))
      then ([get_listing u], Throw extraction_error)
      else ([get_listing u], Return d)
  | Throw e => ([get_listing u], Throw e)
  end.
Proof.
  intros Hf Hok. unfold fetchVintedListing, await_fetch, io_bind.
  fold (get_listing u). rewrite Hf, Hok. cbn [negb]. unfold io_pure.
  destruct (extract_data rt (text response) (json_ld_of rt (text response)) u)
    as [d|e]; [|reflexivity].
  destruct (negb (truthy (title d)) && negb (truthy (price d))); reflexivity.
Qed.

(** X19. A page that was fetched and has no usable structured data (no
    block, or one that [JSON.parse] rejects) never makes the extraction
    throw a TypeError. When neither the title pattern nor the price pattern
    matches the page, the listing is refused with the extraction error;
    otherwise it is returned, its title, brand and description taken from
    the page, its condition [null]. *)
Theorem X19_page_without_structured_data (rt : Runtime) (u : value)
        (response : Response) :
  fetch rt (get_listing u) = Return response -> ok response = true ->
  json_ld_of rt (text response) = VNull ->
  (exec re_og_title (text response) = None /\
   exec re_price (text response) = None /\
   fetchVintedListing rt u = ([get_listing u], Throw extraction_error)) \/
  ((exec re_og_title (text response) <> None \/
    exec re_price (text response) <> None) /\
   exists d, fetchVintedListing rt u = ([get_listing u], Return d) /\
             pattern_field (text response) (title d) /\
             pattern_field (text response) (brand d) /\
             pattern_field (text response) (description d) /\
             condition d = VNull /\
             images d = extractImages (text response) /\
             url d = u).
Proof.
  intros Hf Hok Hld. rewrite (fetchVintedListing_fetched rt u response Hf Hok), Hld.
  destruct (fields_of_page (text response)) as [Ht [Hb Hd]].
  unfold extract_data, extractPrice, extractCondition. cbn [opt_member truthy bind].
  destruct (exec re_og_title (text response)) as [mt|] eqn:Et;
    destruct (exec re_price (text response)) as [mp|] eqn:Ep;
    cbn [bind title price].
  - right. split; [left; discriminate|].
    assert (T : truthy (extractTitle (text response) VNull) = true).
    { unfold extractTitle. cbn [opt_member truthy]. rewrite Et.
      destruct (meta_pattern_field og_title_open _ _ Et) as [Hne _].
      cbn [truthy]. destruct (group 1 mt); [congruence|reflexivity]. }
    rewrite T. cbn [negb andb]. eexists. split; [reflexivity|].
    cbn [title brand description condition images url]. auto 7.
  - right. split; [left; discriminate|].
    assert (T : truthy (extractTitle (text response) VNull) = true).
    { unfold extractTitle. cbn [opt_member truthy]. rewrite Et.
      destruct (meta_pattern_field og_title_open _ _ Et) as [Hne _].
      cbn [truthy]. destruct (group 1 mt); [congruence|reflexivity]. }
    rewrite T. cbn [negb andb]. eexists. split; [reflexivity|].
    cbn [title brand description condition images url]. auto 7.
  - right. split; [right; discriminate|].
    assert (T : truthy (VStr (euro ++ group 1 mp)) = true) by reflexivity.
    rewrite T, andb_false_r. eexists. split; [reflexivity|].
    cbn [title brand description condition images url]. auto 7.
  - left. split; [reflexivity|]. split; [reflexivity|].
    assert (T : truthy (extractTitle (text response) VNull) = false).
    { unfold extractTitle. cbn [opt_member truthy]. now rewrite Et. }
    rewrite T. reflexivity.
Qed.

Lemma X19_page_without_structured_data_witness :
  (exec re_og_title page_bad_json = None /\
   exec re_price page_bad_json = None /\
   fetchVintedListing rt_bad_json (VStr listing_url) =
   ([get_listing (VStr listing_url)], Throw extraction_error)) \/
  ((exec re_og_title page_bad_json <> None \/
    exec re_price page_bad_json <> None) /\
   exists d, fetchVintedListing rt_bad_json (VStr listing_url) =
             ([get_listing (VStr listing_url)], Return d) /\
             pattern_field page_bad_json (title d) /\
             pattern_field page_bad_json (brand d) /\
             pattern_field page_bad_json (description d) /\
             condition d = VNull /\
             images d = extractImages page_bad_json /\
             url d = VStr listing_url).
Proof.
  apply (X19_page_without_structured_data rt_bad_json (VStr listing_url)
           (mkResponse true 200 page_bad_json)).
  - reflexivity.
  - reflexivity.
  - vm_compute. reflexivity.
Defined.

(* ================================================================= *)
(** * The report of the test endpoint *)

(** Induction on values, through arrays and objects. *)
Lemma value_nested_ind (P : value -> Prop) :
  P VUndefined -> P VNull -> (forall b, P (VBool b)) -> (forall x, P (VNum x)) ->
  (forall s, P (VStr s)) ->
  (forall items, Forall P items -> P (VArr items)) ->
  (forall fields, Forall (fun kv => P (snd kv)) fields -> P (VObj fields)) ->
  forall v, P v.
Proof.
  intros Hu Hn Hb Hx Hs Ha Ho. fix IH 1.
  intros [ | | b | x | s | items | fields ].
  - exact Hu.
  - exact Hn.
  - apply Hb.
  - apply Hx.
  - apply Hs.
  - apply Ha. induction items as [|a items IHitems]; constructor;
      [apply IH | exact IHitems].
  - apply Ho. induction fields as [|[k a] fields IHfields]; constructor;
      [apply IH | exact IHfields].
Qed.

(** ToString throws nothing but a TypeError. *)
Lemma ToString_throws (rt : Runtime) :
  forall (v : value) (e : exn), ToString rt v = Throw e -> exists m, e = TypeError m.
Proof.
  induction v as [ | | b | x | s | items IH | fields IH ] using value_nested_ind;
    intros e; cbn [ToString].
  - discriminate.
  - discriminate.
  - destruct b; discriminate.
  - discriminate.
  - discriminate.
  - match goal with |- ?f items = _ -> _ => set (J := f) end.
    pose (element := fun x : value =>
            match x with
            | VUndefined | VNull => Return []
            | _ => ToString rt x
            end).
    assert (El : forall x e', (forall e0, ToString rt x = Throw e0 ->
                                          exists m, e0 = TypeError m) ->
                              element x = Throw e' -> exists m, e' = TypeError m).
    { intros x e' Hx H. unfold element in H.
      destruct x; try discriminate; exact (Hx _ H). }
    revert e. induction IH as [|x l Hx Hl IHl]; intros e.
    + discriminate.
    + destruct l as [|y l].
      * exact (El x e Hx).
      * change (J (x :: y :: l))
          with (bind (element x) (fun a =>
                bind (J (y :: l)) (fun b => Return (a ++ str "," ++ b)))).
        unfold bind. destruct (element x) eqn:Ex.
        -- destruct (J (y :: l)) eqn:Ej; [discriminate|].
           intros [= <-]. exact (IHl _ eq_refl).
        -- intros [= <-]. exact (El _ _ Hx Ex).
  - destruct (own fields (str "toString")); try discriminate;
      intros [= <-]; eauto.
Qed.

Lemma buildPrompt_throws (rt : Runtime) (d : ListingData) (e : exn) :
  Groq.buildPrompt rt d = Throw e -> exists m, e = TypeError m.
Proof.
  unfold Groq.buildPrompt, bind. intros H.
  repeat match type of H with
         | match ToString rt ?v with _ => _ end = _ =>
             let E := fresh "E" in
             destruct (ToString rt v) eqn:E;
             [| injection H as <-; exact (ToString_throws rt _ _ E)]
         end.
  discriminate.
Qed.

(** X20. The test endpoint answers 200 whatever the request, reports the
    length of the key (0 without one), and says that the key is set exactly
    when it is not empty. Its answer agrees with the analysis: the key is
    reported missing exactly when [analyzeWithGroq] ends with the
    missing-key error before sending anything. *)
Theorem X20_env_report_agrees_with_analysis (rt : Runtime) (env : Env)
        (req : HttpRequest) (d : ListingData) :
  fst (EnvTest.handler env req) = 200%N /\
  EnvTest.keyLength (snd (EnvTest.handler env req)) =
    match GROQ_API_KEY env with Some k => length k | None => 0 end /\
  (EnvTest.groqKeySet (snd (EnvTest.handler env req)) = true <->
   0 < EnvTest.keyLength (snd (EnvTest.handler env req))) /\
  (EnvTest.groqKeySet (snd (EnvTest.handler env req)) = false <->
   Groq.analyzeWithGroq rt env d = ([], Throw (Error missing_groq_key))).
Proof.
  unfold EnvTest.handler. cbn [fst snd EnvTest.groqKeySet EnvTest.keyLength].
  split; [reflexivity|]. split; [reflexivity|].
  destruct (GROQ_API_KEY env) as [[|c key]|] eqn:Ek.
  - split; [cbn; split; [discriminate | lia]|].
    unfold Groq.analyzeWithGroq. rewrite Ek. split; reflexivity.
  - split; [cbn; split; [lia | reflexivity]|].
    split; [discriminate|]. intros H. exfalso.
    destruct (Groq.buildPrompt rt d) as [prompt|e] eqn:Ep.
    + rewrite (groq_analyze_sent rt env d (c :: key) prompt Ek) in H;
        [discriminate | discriminate | exact Ep].
    + rewrite (groq_analyze_prompt_throws rt env d (c :: key) e Ek) in H;
        [| discriminate | exact Ep].
      destruct (buildPrompt_throws rt d e Ep) as [m ->]. discriminate.
  - split; [cbn; split; [discriminate | lia]|].
    unfold Groq.analyzeWithGroq. rewrite Ek. split; reflexivity.
Qed.

(* ================================================================= *)
(** * The front end, event by event *)

Lemma includes_occurs (pat s : jsstring) :
  includes pat s = true <-> exists p, occurs_at pat s p.
Proof.
  induction s as [|c s IH]; cbn [includes].
  - destruct (strip_prefix pat []) as [r|] eqn:E.
    + split; auto. intros _. exists []. apply strip_prefix_exact in E. now exists r.
    + split; [discriminate|]. intros [p [q H]].
      destruct p; [|discriminate]. simpl in H.
      apply (proj2 (strip_prefix_exact _ _ _)) in H. congruence.
  - destruct (strip_prefix pat (c :: s)) as [r|] eqn:E.
    + split; auto. intros _. exists []. apply strip_prefix_exact in E. now exists r.
    + rewrite IH. split.
      * intros [p [q H]]. exists (c :: p), q. cbn [app]. now rewrite H.
      * intros [p [q H]]. destruct p as [|x p].
        -- simpl in H. apply (proj2 (strip_prefix_exact _ _ _)) in H. congruence.
        -- injection H as -> H. exists p, q. exact H.
Qed.

Lemma accepted_decide (url : jsstring) :
  App.accepted url <->
  truthy (VStr url) = true /\ includes (str "vinted.") url = true.
Proof.
  unfold App.accepted. rewrite includes_occurs. split.
  - intros [Hne Ho]. split; auto. destruct url; [congruence | reflexivity].
  - intros [Ht Ho]. split; auto. intros ->. discriminate.
Qed.

Lemma showSection_shows (section : App.panel) (pg : App.Page) :
  App.shows (App.showSection section pg) section.
Proof.
  intros other. destruct section, other; cbn; split; congruence.
Qed.

Lemma showSection_hidden (section other : App.panel) (pg : App.Page) :
  App.hidden (App.showSection section pg) other =
  match section, other with
  | App.inputSection, App.inputSection | App.loading, App.loading
  | App.resultsSection, App.resultsSection | App.error, App.error => false
  | _, _ => true
  end.
Proof. destruct section, other; reflexivity. Qed.

Ltac dom_step :=
  match goal with
  | |- context [match ?o with Return _ => _ | Throw _ => _ end] =>
      lazymatch o with
      | member _ _ => destruct o
      | ToString _ _ => destruct o
      | App.DOMString_or_null _ _ => destruct o
      end; cbv beta iota
  | |- context [if truthy ?v then _ else _] => destruct (truthy v); cbv beta iota
  end.

Lemma displayResults_frame (rt : Runtime) (data : value) (pg : App.Page) :
  same_controls pg (fst (App.displayResults rt data pg)) /\
  App.errorMessage_textContent (fst (App.displayResults rt data pg)) =
    App.errorMessage_textContent pg /\
  match snd (App.displayResults rt data pg) with
  | Return _ => App.shows (fst (App.displayResults rt data pg)) App.resultsSection
  | Throw _ => forall section, App.hidden (fst (App.displayResults rt data pg)) section
                               = App.hidden pg section
  end.
Proof.
  unfold same_controls.
  cbv beta iota zeta delta [App.displayResults App.dom_bind App.dom_lift App.dom_set].
  repeat dom_step; cbn [fst snd];
    (split; [split; [|split]; reflexivity|]); (split; [reflexivity|]);
    try (intros section; destruct section; reflexivity);
    apply showSection_shows.
Qed.

Lemma analyzeUrl_sent (rt : Runtime) (url : jsstring) :
  fst (App.analyzeUrl rt url) = [App.api_request url].
Proof.
  unfold App.analyzeUrl, await_fetch, io_bind, io_pure.
  fold (App.api_request url).
  destruct (fetch rt (App.api_request url)) as [response|e]; [|reflexivity].
  destruct (ok response); cbn [negb].
  - destruct (response_json rt response); reflexivity.
  - destruct (response_json rt response) as [errorData|e]; [|reflexivity].
    destruct (member errorData (str "error")) as [er|e]; [|reflexivity].
    destruct (ToString rt (or_else er (VStr (str "Failed to analyze listing"))));
      reflexivity.
Qed.

Lemma analyzeUrl_outcome (rt : Runtime) (url : jsstring) :
  snd (App.analyzeUrl rt url) =
  match fetch rt (App.api_request url) with
  | Return response =>
      if ok response then response_json rt response
      else
        bind (response_json rt response) (fun errorData =>
        bind (member errorData (str "error")) (fun er =>
        bind (ToString rt (or_else er (VStr (str "Failed to analyze listing"))))
             (fun m => Throw (Error m))))
  | Throw e => Throw e
  end.
Proof.
  unfold App.analyzeUrl, await_fetch, io_bind, io_pure, bind.
  fold (App.api_request url).
  destruct (fetch rt (App.api_request url)) as [response|e]; [|reflexivity].
  destruct (ok response); cbn [negb].
  - destruct (response_json rt response); reflexivity.
  - destruct (response_json rt response) as [errorData|e]; [|reflexivity].
    destruct (member errorData (str "error")) as [er|e]; [|reflexivity].
    destruct (ToString rt (or_else er (VStr (str "Failed to analyze listing"))));
      reflexivity.
Qed.

Lemma handleAnalyze_blank (rt : Runtime) (pg : App.Page) :
  trim (App.urlInput_value pg) = [] ->
  App.handleAnalyze rt pg = (App.urlInput_focus pg, []).
Proof. intros H. unfold App.handleAnalyze. now rewrite H. Qed.

Lemma handleAnalyze_rejected (rt : Runtime) (pg : App.Page) :
  trim (App.urlInput_value pg) <> [] ->
  ~ App.accepted (trim (App.urlInput_value pg)) ->
  App.handleAnalyze rt pg =
  (App.displayError (str "Please enter a valid Vinted URL") pg, []).
Proof.
  intros Hne Hno. unfold App.handleAnalyze.
  destruct (trim (App.urlInput_value pg)) as [|c url] eqn:E; [congruence|].
  cbn [truthy negb].
  destruct (includes (str "vinted.") (c :: url)) eqn:Ei; [|reflexivity].
  destruct Hno. apply accepted_decide. auto.
Qed.

Lemma handleAnalyze_accepted (rt : Runtime) (pg : App.Page) :
  App.accepted (trim (App.urlInput_value pg)) ->
  App.handleAnalyze rt pg =
  (App.set_analyzeBtn_disabled false
     (answered rt (trim (App.urlInput_value pg))
        (App.set_analyzeBtn_disabled true (App.showSection App.loading pg))),
   [App.api_request (trim (App.urlInput_value pg))]).
Proof.
  intros Ha. apply accepted_decide in Ha. destruct Ha as [Ht Hi].
  unfold App.handleAnalyze, answered. rewrite Ht, Hi. cbn [negb].
  pose proof (analyzeUrl_sent rt (trim (App.urlInput_value pg))) as Hs.
  destruct (App.analyzeUrl rt (trim (App.urlInput_value pg))) as [sent [result|err]];
    cbn [fst snd] in *; subst sent.
  - destruct (App.displayResults rt result _) as [pg' [u|err]]; reflexivity.
  - reflexivity.
Qed.

Lemma displayError_shows (m : jsstring) (pg : App.Page) :
  App.shows (App.displayError m pg) App.error /\
  App.errorMessage_textContent (App.displayError m pg) = m /\
  same_controls pg (App.displayError m pg).
Proof.
  split; [|split; [reflexivity|repeat split]].
  unfold App.displayError. apply showSection_shows.
Qed.

(** After the answer the page shows the results or an error, and the
    controls are as they were. *)
Lemma answered_shows (rt : Runtime) (url : jsstring) (pg : App.Page) :
  same_controls pg (answered rt url pg) /\
  (App.shows (answered rt url pg) App.resultsSection /\
   (exists data, snd (App.analyzeUrl rt url) = Return data /\
                 snd (App.displayResults rt data pg) = Return tt) \/
   App.shows (answered rt url pg) App.error /\
   exists err, App.errorMessage_textContent (answered rt url pg) = message err /\
               (snd (App.analyzeUrl rt url) = Throw err \/
                exists data, snd (App.analyzeUrl rt url) = Return data /\
                             snd (App.displayResults rt data pg) = Throw err)).
Proof.
  unfold answered.
  destruct (snd (App.analyzeUrl rt url)) as [data|err].
  - destruct (displayResults_frame rt data pg) as [Hc [_ Hs]].
    destruct (App.displayResults rt data pg) as [pg' [[]|err]] eqn:Ed;
      cbn [fst snd] in *.
    + split; [exact Hc|]. left. split; [exact Hs|]. exists data.
      rewrite Ed. auto.
    + destruct (displayError_shows (message err) pg') as [S [M C]].
      split.
      * unfold same_controls in *. destruct Hc as [H1 [H2 H3]].
        destruct C as [C1 [C2 C3]]. rewrite C1, C2, C3. auto.
      * right. split; [exact S|]. exists err. split; [exact M|].
        right. exists data. rewrite Ed. auto.
  - destruct (displayError_shows (message err) pg) as [S [M C]].
    split; [exact C|]. right. split; [exact S|]. exists err. auto.
Qed.

(** X21. The front end sends a request only for a URL that it accepts: the
    text of the field, trimmed, must not be empty and must contain
    [vinted.]. For such a URL [handleAnalyze] sends exactly one POST to
    [/api/analyze] with the trimmed URL. Otherwise it sends nothing and
    leaves the button as it is: an empty field gets the focus and the page
    stays as it is, any other text brings up the error section with
    [Please enter a valid Vinted URL]. *)
Theorem X21_request_only_for_accepted_url (rt : Runtime) (pg : App.Page) :
  (App.accepted (trim (App.urlInput_value pg)) ->
   snd (App.handleAnalyze rt pg) =
   [App.api_request (trim (App.urlInput_value pg))]) /\
  (~ App.accepted (trim (App.urlInput_value pg)) ->
   snd (App.handleAnalyze rt pg) = [] /\
   App.analyzeBtn_disabled (fst (App.handleAnalyze rt pg)) =
     App.analyzeBtn_disabled pg /\
   (trim (App.urlInput_value pg) = [] ->
    fst (App.handleAnalyze rt pg) = App.urlInput_focus pg) /\
   (trim (App.urlInput_value pg) <> [] ->
    App.shows (fst (App.handleAnalyze rt pg)) App.error /\
    App.errorMessage_textContent (fst (App.handleAnalyze rt pg)) =
      str "Please enter a valid Vinted URL")).
Proof.
  split.
  - intros Ha. now rewrite (handleAnalyze_accepted rt pg Ha).
  - intros Hno.
    destruct (list_eq_dec N.eq_dec (trim (App.urlInput_value pg)) []) as [E|Hne].
    + rewrite (handleAnalyze_blank rt pg E). cbn [fst snd].
      split; [reflexivity|]. split; [reflexivity|]. split; [reflexivity|].
      intros H. contradiction.
    + rewrite (handleAnalyze_rejected rt pg Hne Hno). cbn [fst snd].
      split; [reflexivity|]. split; [reflexivity|].
      split; [intros H; contradiction|]. intros _.
      destruct (displayError_shows (str "Please enter a valid Vinted URL") pg)
        as [S [M _]]. auto.
Qed.

(** X22. Whatever the endpoint and the network do, an analysis comes to an
    end with the button enabled again, the loading section hidden and the
    text of the field untouched, and the page then shows either the
    results or an error. The results are shown only when the endpoint
    answered with a success status and a body that is JSON. *)
Theorem X22_analysis_settles (rt : Runtime) (pg : App.Page) :
  App.accepted (trim (App.urlInput_value pg)) ->
  App.analyzeBtn_disabled (fst (App.handleAnalyze rt pg)) = false /\
  App.urlInput_value (fst (App.handleAnalyze rt pg)) = App.urlInput_value pg /\
  (App.shows (fst (App.handleAnalyze rt pg)) App.resultsSection /\
   (exists response data,
      fetch rt (App.api_request (trim (App.urlInput_value pg))) = Return response /\
      ok response = true /\ JSON_parse rt (text response) = Some data) \/
   App.shows (fst (App.handleAnalyze rt pg)) App.error).
Proof.
  intros Ha. rewrite (handleAnalyze_accepted rt pg Ha). cbn [fst].
  set (url := trim (App.urlInput_value pg)).
  set (pg1 := App.set_analyzeBtn_disabled true (App.showSection App.loading pg)).
  destruct (answered_shows rt url pg1) as [[C1 [C2 C3]] H].
  split; [reflexivity|]. split; [exact C1|].
  destruct H as [[S [data [Hd _]]] | [S _]].
  - left. split.
    + intros other. specialize (S other). destruct other; exact S.
    + rewrite analyzeUrl_outcome in Hd. fold url.
      destruct (fetch rt (App.api_request url)) as [response|e]; [|discriminate].
      exists response, data. split; [reflexivity|].
      destruct (ok response).
      * split; [reflexivity|]. unfold response_json in Hd.
        destruct (JSON_parse rt (text response)); [congruence|discriminate].
      * exfalso. unfold bind in Hd.
        destruct (response_json rt response); [|discriminate].
        destruct (member _ _); [|discriminate].
        destruct (ToString rt _); discriminate.
  - right. intros other. specialize (S other). destruct other; exact S.
Qed.

Lemma page_typed_accepted :
  App.accepted (trim (App.urlInput_value page_typed)).
Proof. apply accepted_decide. split; reflexivity. Qed.

Lemma X22_analysis_settles_witness :
  App.analyzeBtn_disabled (fst (App.handleAnalyze rt_api_down page_typed)) = false /\
  App.urlInput_value (fst (App.handleAnalyze rt_api_down page_typed)) =
    App.urlInput_value page_typed /\
  (App.shows (fst (App.handleAnalyze rt_api_down page_typed)) App.resultsSection /\
   (exists response data,
      fetch rt_api_down (App.api_request (trim (App.urlInput_value page_typed)))
        = Return response /\
      ok response = true /\ JSON_parse rt_api_down (text response) = Some data) \/
   App.shows (fst (App.handleAnalyze rt_api_down page_typed)) App.error).
Proof.
  apply (X22_analysis_settles rt_api_down page_typed).
  apply accepted_decide. split; reflexivity.
Defined.

Lemma own_member (fields : list (jsstring * value)) (k : jsstring) :
  member (VObj fields) k = Return (own fields k).
Proof. reflexivity. Qed.

(** X23. What the user reads when an analysis fails. When the request
    itself fails, it is the message of that failure. When the endpoint
    answers with a status that is not a success and a JSON object, it is
    the [error] of that object if that is a non-empty string, and
    [Failed to analyze listing] if the object has no [error] or a falsy
    one. In each case the error section is what the page shows. *)
Theorem X23_error_reported (rt : Runtime) (pg : App.Page) :
  App.accepted (trim (App.urlInput_value pg)) ->
  (forall e,
     fetch rt (App.api_request (trim (App.urlInput_value pg))) = Throw e ->
     App.shows (fst (App.handleAnalyze rt pg)) App.error /\
     App.errorMessage_textContent (fst (App.handleAnalyze rt pg)) = message e) /\
  (forall response fields,
     fetch rt (App.api_request (trim (App.urlInput_value pg))) = Return response ->
     ok response = false ->
     JSON_parse rt (text response) = Some (VObj fields) ->
     App.shows (fst (App.handleAnalyze rt pg)) App.error /\
     (forall m, own fields (str "error") = VStr m -> m <> [] ->
        App.errorMessage_textContent (fst (App.handleAnalyze rt pg)) = m) /\
     (truthy (own fields (str "error")) = false ->
        App.errorMessage_textContent (fst (App.handleAnalyze rt pg)) =
        str "Failed to analyze listing")).
Proof.
  intros Ha. rewrite (handleAnalyze_accepted rt pg Ha). cbn [fst].
  set (url := trim (App.urlInput_value pg)).
  set (pg1 := App.set_analyzeBtn_disabled true (App.showSection App.loading pg)).
  assert (Shows : App.shows (App.set_analyzeBtn_disabled false (answered rt url pg1))
                            App.error <->
                  App.shows (answered rt url pg1) App.error).
  { unfold App.shows. split; intros S other; specialize (S other);
      destruct other; exact S. }
  split.
  - intros e Hf. rewrite Shows. unfold answered.
    rewrite analyzeUrl_outcome, Hf.
    destruct (displayError_shows (message e) pg1) as [S [M _]]. auto.
  - intros response fields Hf Hok Hj. rewrite Shows. unfold answered.
    rewrite analyzeUrl_outcome, Hf, Hok. unfold response_json. rewrite Hj.
    cbn [bind member].
    destruct (ToString rt (or_else (own fields (str "error"))
                                   (VStr (str "Failed to analyze listing"))))
      as [m'|e'] eqn:Em; cbn [bind].
    + destruct (displayError_shows (message (Error m')) pg1) as [S [M _]].
      split; [exact S|]. cbn [App.errorMessage_textContent App.set_analyzeBtn_disabled].
      rewrite M. cbn [message]. split.
      * intros m Hm Hne. rewrite Hm in Em. unfold or_else in Em.
        destruct m; [congruence|]. cbn in Em. now injection Em as <-.
      * intros Hfalsy. unfold or_else in Em. rewrite Hfalsy in Em.
        cbn in Em. now injection Em as <-.
    + destruct (displayError_shows (message e') pg1) as [S [M _]].
      split; [exact S|]. split.
      * intros m Hm Hne. rewrite Hm in Em. unfold or_else in Em.
        destruct m; [congruence|]. cbn in Em. discriminate.
      * intros Hfalsy. unfold or_else in Em. rewrite Hfalsy in Em.
        cbn in Em. discriminate.
Qed.

Lemma X23_error_reported_witness :
  App.shows (fst (App.handleAnalyze rt_api_error page_typed)) App.error /\
  App.errorMessage_textContent (fst (App.handleAnalyze rt_api_error page_typed)) =
  str "Failed to fetch Vinted listing".
Proof.
  destruct (proj2 (X23_error_reported rt_api_error page_typed page_typed_accepted)
              (mkResponse false 500 api_error_text)
              [(str "error", VStr (str "Failed to fetch Vinted listing"))]
              eq_refl eq_refl eq_refl) as [S [M _]].
  split; [exact S|]. apply M; [reflexivity | discriminate].
Defined.

Lemma label_truthy (key label : jsstring) :
  lookup App.ratingLabels key = Some label -> truthy (VStr label) = true.
Proof.
  unfold App.ratingLabels. cbn [lookup].
  repeat match goal with
         | |- (if ?b then _ else _) = _ -> _ =>
             destruct b; [intros [= <-]; reflexivity|]
         end.
  discriminate.
Qed.

Lemma shown_or_else (rt : Runtime) (v : value) (fallback : jsstring) :
  App.text_or_null v -> fallback <> [] \/ fallback = [] ->
  App.DOMString_or_null rt (or_else v (VStr fallback)) = Return (App.shown v fallback).
Proof.
  intros [-> | [s ->]] _.
  - unfold or_else. cbn [truthy App.shown]. now destruct fallback.
  - destruct s as [|c s]; unfold or_else; cbn [truthy App.shown]; [|reflexivity].
    now destruct fallback.
Qed.

(** The display of a well-formed body, field by field. *)
Lemma displayResults_body (rt : Runtime) (pg : App.Page) (x : float)
      (key label a : jsstring) (t b p i : value) :
  Number_toString rt x = key ->
  lookup App.ratingLabels key = Some label ->
  App.text_or_null t -> App.text_or_null b -> App.text_or_null p ->
  App.text_or_null i ->
  App.displayResults rt (App.api_body (VNum x) a t b p i) pg =
  (App.showSection App.resultsSection
     (App.set_assessmentText_textContent a
        ((if truthy i
          then fun pg => App.set_itemImage_style_display (str "block")
                           (App.set_itemImage_src (scalar_values (App.shown i [])) pg)
          else App.set_itemImage_style_display (str "none"))
           (App.set_itemPrice_textContent (App.shown p [])
              (App.set_itemBrand_textContent (App.shown b [])
                 (App.set_itemTitle_textContent (App.shown t (str "Unknown Item"))
                    (App.set_ratingLabel_textContent (App.Text label)
                       (App.set_rating_className (str "rating rating-" ++ key)
                          (App.set_rating_textContent key pg)))))))),
   Return tt).
Proof.
  intros Hk Hl Ht Hb Hp Hi.
  cbv beta iota zeta delta [App.displayResults App.dom_bind App.dom_lift App.dom_set].
  unfold App.api_body. rewrite !own_member.
  change (own _ (str "rating")) with (VNum x).
  change (own _ (str "assessment")) with (VStr a).
  cbv beta iota.
  change (own [(str "rating", VNum x); (str "assessment", VStr a);
               (str "item", VObj [(str "title", t); (str "brand", b);
                                  (str "price", p); (str "image", i)])] (str "item"))
    with (VObj [(str "title", t); (str "brand", b);
                (str "price", p); (str "image", i)]).
  rewrite !own_member.
  change (own _ (str "title")) with t.
  change (own _ (str "brand")) with b.
  change (own _ (str "price")) with p.
  change (own _ (str "image")) with i.
  cbn [App.DOMString_or_null ToString]. rewrite Hk. cbv beta iota.
  unfold App.rating_label. rewrite Hl, (label_truthy key label Hl).
  rewrite (shown_or_else rt t (str "Unknown Item") Ht) by (left; discriminate).
  rewrite (shown_or_else rt b [] Hb) by (right; reflexivity).
  rewrite (shown_or_else rt p [] Hp) by (right; reflexivity).
  cbv beta iota.
  destruct Hi as [-> | [[|c s] ->]]; reflexivity.
Qed.

(** X24. What the user sees for a well-formed answer: a success status
    and a body with a numeric rating that prints as one of the keys of the
    label table, an assessment, and an item whose title, brand, price and
    image are texts or [null]. The results section is shown, with the
    rating, its label from the table and its style class, the assessment
    as it came, the title or [Unknown Item], the brand and the price or
    nothing, and the image displayed when there is one and hidden when
    there is none. *)
Theorem X24_results_displayed (rt : Runtime) (pg : App.Page)
        (response : Response) (x : float) (key label a : jsstring)
        (t b p i : value) :
  App.accepted (trim (App.urlInput_value pg)) ->
  fetch rt (App.api_request (trim (App.urlInput_value pg))) = Return response ->
  ok response = true ->
  JSON_parse rt (text response) = Some (App.api_body (VNum x) a t b p i) ->
  Number_toString rt x = key ->
  lookup App.ratingLabels key = Some label ->
  App.text_or_null t -> App.text_or_null b -> App.text_or_null p ->
  App.text_or_null i ->
  App.shows (fst (App.handleAnalyze rt pg)) App.resultsSection /\
  App.rating_textContent (fst (App.handleAnalyze rt pg)) = key /\
  App.rating_className (fst (App.handleAnalyze rt pg)) = str "rating rating-" ++ key /\
  App.ratingLabel_textContent (fst (App.handleAnalyze rt pg)) = App.Text label /\
  App.assessmentText_textContent (fst (App.handleAnalyze rt pg)) = a /\
  App.itemTitle_textContent (fst (App.handleAnalyze rt pg)) =
    App.shown t (str "Unknown Item") /\
  App.itemBrand_textContent (fst (App.handleAnalyze rt pg)) = App.shown b [] /\
  App.itemPrice_textContent (fst (App.handleAnalyze rt pg)) = App.shown p [] /\
  (truthy i = true ->
   App.itemImage_style_display (fst (App.handleAnalyze rt pg)) = str "block" /\
   App.itemImage_src (fst (App.handleAnalyze rt pg)) = scalar_values (App.shown i [])) /\
  (truthy i = false ->
   App.itemImage_style_display (fst (App.handleAnalyze rt pg)) = str "none" /\
   App.itemImage_src (fst (App.handleAnalyze rt pg)) = App.itemImage_src pg).
Proof.
  intros Ha Hf Hok Hj Hk Hl Ht Hb Hp Hi.
  rewrite (handleAnalyze_accepted rt pg Ha). cbn [fst].
  unfold answered. rewrite analyzeUrl_outcome, Hf, Hok. unfold response_json.
  rewrite Hj.
  rewrite (displayResults_body rt _ x key label a t b p i Hk Hl Ht Hb Hp Hi).
  split.
  { intros other. destruct other; cbn; split; congruence. }
  destruct (truthy i);
    (repeat (split; [reflexivity|])); split; intros H; try discriminate;
    split; reflexivity.
Qed.

Lemma X24_results_displayed_witness :
  App.shows (fst (App.handleAnalyze rt_api_ok page_typed)) App.resultsSection /\
  App.ratingLabel_textContent (fst (App.handleAnalyze rt_api_ok page_typed)) =
    App.Text (str "Great Deal") /\
  App.itemTitle_textContent (fst (App.handleAnalyze rt_api_ok page_typed)) =
    str "Wool Coat" /\
  App.itemImage_style_display (fst (App.handleAnalyze rt_api_ok page_typed)) =
    str "none".
Proof.
  assert (N : App.text_or_null VNull) by (left; reflexivity).
  assert (T : App.text_or_null (VStr (str "Wool Coat"))) by (right; eauto).
  destruct (X24_results_displayed rt_api_ok page_typed
              (mkResponse true 200 api_result_text) 4 (str "4") (str "Great Deal")
              (str "Fair for wool.") (VStr (str "Wool Coat")) VNull VNull VNull
              page_typed_accepted eq_refl eq_refl eq_refl eq_refl eq_refl T N N N)
    as [S [_ [_ [L [_ [Ti [_ [_ [_ I]]]]]]]]].
  split; [exact S|]. split; [exact L|]. split; [exact Ti|].
  exact (proj1 (I eq_refl)).
Defined.

Lemma handleAnalyze_at_rest (rt : Runtime) (pg : App.Page) :
  App.at_rest pg -> App.at_rest (fst (App.handleAnalyze rt pg)).
Proof.
  intros [Hd Hs].
  destruct (list_eq_dec N.eq_dec (trim (App.urlInput_value pg)) []) as [E|Hne].
  - rewrite (handleAnalyze_blank rt pg E). cbn [fst]. split; [exact Hd|].
    exact Hs.
  - destruct (includes (str "vinted.") (trim (App.urlInput_value pg))) eqn:Ei.
    + assert (Ha : App.accepted (trim (App.urlInput_value pg))).
      { apply accepted_decide. split; [|exact Ei].
        destruct (trim (App.urlInput_value pg)); [congruence|reflexivity]. }
      rewrite (handleAnalyze_accepted rt pg Ha). cbn [fst]. split; [reflexivity|].
      set (url := trim (App.urlInput_value pg)).
      set (pg1 := App.set_analyzeBtn_disabled true (App.showSection App.loading pg)).
      destruct (answered_shows rt url pg1) as [_ [[S _] | [S _]]].
      * right. left. intros other. specialize (S other). destruct other; exact S.
      * right. right. intros other. specialize (S other). destruct other; exact S.
    + assert (Hno : ~ App.accepted (trim (App.urlInput_value pg))).
      { intros Ha. apply accepted_decide in Ha. destruct Ha. congruence. }
      rewrite (handleAnalyze_rejected rt pg Hne Hno). cbn [fst].
      destruct (displayError_shows (str "Please enter a valid Vinted URL") pg)
        as [S [_ [_ [_ C]]]].
      split; [now rewrite C|]. auto.
Qed.

Lemma handleAnalyze_requests (rt : Runtime) (pg : App.Page) :
  length (snd (App.handleAnalyze rt pg)) <= 1 /\
  forall rq, In rq (snd (App.handleAnalyze rt pg)) ->
             exists url, App.accepted url /\ rq = App.api_request url.
Proof.
  destruct (list_eq_dec N.eq_dec (trim (App.urlInput_value pg)) []) as [E|Hne].
  - rewrite (handleAnalyze_blank rt pg E). cbn. split; [lia | contradiction].
  - destruct (includes (str "vinted.") (trim (App.urlInput_value pg))) eqn:Ei.
    + assert (Ha : App.accepted (trim (App.urlInput_value pg))).
      { apply accepted_decide. split; [|exact Ei].
        destruct (trim (App.urlInput_value pg)); [congruence|reflexivity]. }
      rewrite (handleAnalyze_accepted rt pg Ha). cbn [snd length In].
      split; [lia|]. intros rq [<- | []]. eauto.
    + assert (Hno : ~ App.accepted (trim (App.urlInput_value pg))).
      { intros Ha. apply accepted_decide in Ha. destruct Ha. congruence. }
      rewrite (handleAnalyze_rejected rt pg Hne Hno). cbn.
      split; [lia | contradiction].
Qed.

Lemma dispatch_at_rest (rt : Runtime) (e : App.event) (pg : App.Page) :
  App.at_rest pg -> App.at_rest (fst (App.dispatch rt e pg)).
Proof.
  intros H. destruct e as [ | key | | | text ]; cbn [App.dispatch].
  - destruct (App.analyzeBtn_disabled pg); [exact H|].
    now apply handleAnalyze_at_rest.
  - destruct (jsstring_eqb key (str "Enter")); [|exact H].
    now apply handleAnalyze_at_rest.
  - destruct H as [Hd _]. split; [exact Hd|]. left.
    intros other. destruct other; cbn; split; congruence.
  - destruct H as [Hd _]. split; [exact Hd|]. left.
    intros other. destruct other; cbn; split; congruence.
  - exact H.
Qed.

Lemma dispatch_requests (rt : Runtime) (e : App.event) (pg : App.Page) :
  length (snd (App.dispatch rt e pg)) <= 1 /\
  forall rq, In rq (snd (App.dispatch rt e pg)) ->
             exists url, App.accepted url /\ rq = App.api_request url.
Proof.
  destruct e as [ | key | | | text ]; cbn [App.dispatch].
  - destruct (App.analyzeBtn_disabled pg); [cbn; split; [lia|contradiction]|].
    apply handleAnalyze_requests.
  - destruct (jsstring_eqb key (str "Enter")); [|cbn; split; [lia|contradiction]].
    apply handleAnalyze_requests.
  - cbn; split; [lia|contradiction].
  - cbn; split; [lia|contradiction].
  - cbn; split; [lia|contradiction].
Qed.

(** X25. Between two events the page is at rest: the button is enabled
    and exactly one of the form, the results and the error is on display,
    never the loading section and never two sections. A page that starts
    at rest is at rest after any sequence of clicks, key presses and
    typing, whatever the endpoint answers to each request. *)
Theorem X25_page_at_rest (events : list (Runtime * App.event)) (pg : App.Page) :
  App.at_rest pg -> App.at_rest (fst (App.session events pg)).
Proof.
  revert pg. induction events as [|[rt e] events IH]; intros pg H.
  - exact H.
  - cbn [App.session].
    pose proof (dispatch_at_rest rt e pg H) as H1.
    destruct (App.dispatch rt e pg) as [pg1 sent]. cbn [fst] in H1.
    specialize (IH pg1 H1).
    destruct (App.session events pg1) as [pg2 sent']. exact IH.
Qed.

Lemma X25_page_at_rest_witness :
  App.at_rest
    (fst (App.session
            [ (rt_api_down, App.type_urlInput (str "https://www.vinted.fr/items/1"));
              (rt_api_down, App.keypress_urlInput (str "Enter"));
              (rt_api_ok, App.click_retryBtn);
              (rt_api_ok, App.type_urlInput listing_url);
              (rt_api_ok, App.click_analyzeBtn) ]
            App.page_loaded)).
Proof.
  apply (X25_page_at_rest _ App.page_loaded).
  split; [reflexivity|]. left.
  intros other. destruct other; cbn; split; congruence.
Defined.

(** X26. In a whole session every request of the front end is a POST to
    [/api/analyze] that carries a URL the validation accepted, and there
    is at most one request for each event. *)
Theorem X26_session_requests (events : list (Runtime * App.event)) (pg : App.Page) :
  length (snd (App.session events pg)) <= length events /\
  forall rq, In rq (snd (App.session events pg)) ->
             exists url, App.accepted url /\ rq = App.api_request url.
Proof.
  revert pg. induction events as [|[rt e] events IH]; intros pg.
  - cbn. split; [lia | contradiction].
  - cbn [App.session].
    destruct (dispatch_requests rt e pg) as [L1 R1].
    destruct (App.dispatch rt e pg) as [pg1 sent]. cbn [snd] in L1, R1.
    destruct (IH pg1) as [L2 R2].
    destruct (App.session events pg1) as [pg2 sent']. cbn [snd] in *.
    split.
    + rewrite length_app. cbn [length]. lia.
    + intros rq Hin. apply in_app_or in Hin. destruct Hin; auto.
Qed.

(* ================================================================= *)
(** * A reply in the format the prompt asks for *)

Lemma digit_cases (d : N) :
  is_digit d = true ->
  In d [48; 49; 50; 51; 52; 53; 54; 55; 56; 57]%N.
Proof.
  unfold is_digit. intros H. apply andb_prop in H. destruct H as [H1 H2].
  apply N.leb_le in H1, H2. cbn [In].
  assert (d = 48 \/ d = 49 \/ d = 50 \/ d = 51 \/ d = 52 \/ d = 53 \/ d = 54 \/
          d = 55 \/ d = 56 \/ d = 57)%N by lia.
  intuition auto.
Qed.

Lemma trim_trimmed (s : jsstring) : is_trimmed s -> trim s = s.
Proof.
  intros Hs. unfold trim, trimStart. rewrite (trimmed_skip s Hs).
  destruct Hs as [_ Hl]. unfold trimEnd.
  destruct s as [|c t] using rev_ind; [reflexivity|].
  rewrite rev_app_distr. cbn [rev app].
  rewrite skip_while_stop by (eapply Hl; reflexivity).
  cbn [rev]. now rewrite rev_involutive.
Qed.

(** X27. A reply written exactly as the prompt asks, [RATING: d], a line
    break, [ASSESSMENT: ] and a text, is read back as it was written: the
    rating is the digit clamped into 1..5, and the assessment is the text,
    provided that the text is not empty, has no white space at either end
    and does not begin with a dash or a colon. Both variants read it the
    same. *)
Theorem X27_prompt_format_read_back (d : N) (a : jsstring) :
  is_digit d = true -> a <> [] -> is_trimmed a ->
  (forall c t, a = c :: t -> is_dash_or_colon c = false) ->
  parseAIResponse (str "RATING: " ++ d :: 10%N :: str "ASSESSMENT: " ++ a) =
    mkAnalysis (Int (clamp (digit_value d))) a /\
  parseGeminiResponse (str "RATING: " ++ d :: 10%N :: str "ASSESSMENT: " ++ a) =
    mkAnalysis (Int (clamp (digit_value d))) a.
Proof.
  intros Hd Hne Ht Hm.
  set (text := str "RATING: " ++ d :: 10%N :: str "ASSESSMENT: " ++ a).
  assert (R : first_rating_at text [] d (10%N :: str "ASSESSMENT: " ++ a)).
  { apply first_rating_decide. subst text.
    pose proof (digit_cases d Hd) as Hc. cbn [In] in Hc.
    repeat (destruct Hc as [<- | Hc]; [reflexivity|]). contradiction. }
  assert (M : first_marker_at (str "ASSESSMENT:") text (str "RATING: " ++ [d; 10%N])
                              (32%N :: a)).
  { apply first_marker_decide; [exact marker_chars_assessment|]. subst text.
    pose proof (digit_cases d Hd) as Hc. cbn [In] in Hc.
    repeat (destruct Hc as [<- | Hc]; [reflexivity|]). contradiction. }
  assert (E : parseAIResponse text = mkAnalysis (Int (clamp (digit_value d))) a).
  { change (parseAIResponse text)
      with (mkAnalysis (rating (parseAIResponse text))
                       (assessment (parseAIResponse text))).
    rewrite (rating_of_first text [] d _ R).
    rewrite (assessment_after_marker text _ (32%N :: a) M) by discriminate.
    assert (T : trim (32%N :: a) = a).
    { unfold trim, trimStart. cbn [skip_while].
      change (is_space 32) with true. cbv iota.
      exact (trim_trimmed a Ht). }
    rewrite T, (strip_mark_on_trimmed a Ht).
    destruct a as [|c t]; [congruence|].
    now rewrite (Hm c t eq_refl). }
  split; [exact E|]. rewrite parseGeminiResponse_eq. exact E.
Qed.

Lemma X27_prompt_format_read_back_witness :
  parseAIResponse (str "RATING: " ++ 52%N :: 10%N :: str "ASSESSMENT: "
                   ++ str "Fair for wool.") =
    mkAnalysis (Int (clamp (digit_value 52%N))) (str "Fair for wool.") /\
  parseGeminiResponse (str "RATING: " ++ 52%N :: 10%N :: str "ASSESSMENT: "
                       ++ str "Fair for wool.") =
    mkAnalysis (Int (clamp (digit_value 52%N))) (str "Fair for wool.").
Proof.
  apply (X27_prompt_format_read_back 52%N (str "Fair for wool.")).
  - reflexivity.
  - discriminate.
  - split.
    + intros c t [= <- _]. reflexivity.
    + intros t c E.
      change (str "Fair for wool.") with (str "Fair for wool" ++ [46%N]) in E.
      apply app_inj_tail in E. destruct E as [_ <-]. reflexivity.
  - intros c t [= <- _]. reflexivity.
Defined.
